(** * auto-infrast: rule compilation and greedy shift allocation

    A shallow embedding of [infrast.py] (class [WorkplaceOptimizer]) and
    the properties of its rule compiler, its per-workplace allocator and
    its three-shift scheduler.

    Modelling conventions.
    - Python [int] is [Z]; JSON numbers used as efficiencies are exact
      rationals [Q] (so [a / b] is exact; equality of efficiencies is [==]).
    - A Python [dict] that is only looked up is a [gmap]; a dict whose
      iteration order is observed is an association list in insertion
      order; a Python [set] of names is a [gset string].
    - Exceptions are values of [exn]; every fallible function returns an
      [outcome].  [Timeout] is not a Python outcome: it is what the bounded
      model of the [while] loop answers when its fuel runs out.
    - [str.strip] and [int] are modelled on ASCII: white space and digits
      outside ASCII are ordinary characters here.
    - [list(s)] of a set of [str] is a parameter of the scheduler: the
      order depends on the hash salt of the process, not on the inputs.
    - The JSON inputs are typed: a key that may be absent is an [option],
      a value of the wrong JSON type is not representable. *)

From Stdlib Require Import Ascii QArith.
From stdpp Require Import base option list gmap sets strings pretty sorting.

#[local] Set Warnings "-clear-no-such-hyp".

(** ** Exceptions and outcomes *)

Inductive exn : Type :=
  | KeyError (key : string)
  | ValueError (text : string)
  | ZeroDivisionError
  | IndexError.

Inductive outcome (A : Type) : Type :=
  | Ok (a : A)
  | Raise (e : exn)
  | Timeout.
Arguments Ok {A} a.
Arguments Raise {A} e.
Arguments Timeout {A}.

#[global] Instance outcome_ret : MRet outcome := fun A a => Ok a.
#[global] Instance outcome_bind : MBind outcome := fun A B f m =>
  match m with
  | Ok a => f a
  | Raise e => Raise e
  | Timeout => Timeout
  end.
#[global] Instance outcome_fmap : FMap outcome := fun A B f m =>
  match m with
  | Ok a => Ok (f a)
  | Raise e => Raise e
  | Timeout => Timeout
  end.

(** [for x in l: acc = body(acc, x)] where the body may raise. *)
Fixpoint for_each {A S : Type} (body : S -> A -> outcome S) (l : list A) (s : S)
  : outcome S :=
  match l with
  | [] => Ok s
  | x :: l' => s' ← body s x; for_each body l' s'
  end.

(** [d[k]] on a dict given as an association list. *)
Fixpoint assoc_get {V : Type} (k : string) (d : list (string * V)) : option V :=
  match d with
  | [] => None
  | (k', v) :: d' => if String.eqb k' k then Some v else assoc_get k d'
  end.

Definition getitem {V : Type} (d : list (string * V)) (k : string) : outcome V :=
  match assoc_get k d with
  | Some v => Ok v
  | None => Raise (KeyError k)
  end.

(** ** Strings *)

(** [needle in hay] *)
Fixpoint str_in (needle hay : string) : bool :=
  if String.prefix needle hay then true
  else match hay with
       | EmptyString => false
       | String _ hay' => str_in needle hay'
       end.

(** The characters [str.strip()] removes, restricted to ASCII. *)
Definition is_space (a : ascii) : bool :=
  let n := nat_of_ascii a in
  ((9 <=? n)%nat && (n <=? 13)%nat) || ((28 <=? n)%nat && (n <=? 32)%nat).

Fixpoint lstrip (s : string) : string :=
  match s with
  | String a s' => if is_space a then lstrip s' else s
  | EmptyString => EmptyString
  end.

Definition str_rev (s : string) : string :=
  String.string_of_list_ascii (rev (String.list_ascii_of_string s)).

Definition strip (s : string) : string := str_rev (lstrip (str_rev (lstrip s))).

(** [s.split('/', 1)] when ['/' in s]: the text before and after the first
    slash. *)
Fixpoint split_slash (s : string) : option (string * string) :=
  match s with
  | EmptyString => None
  | String a s' =>
      if Ascii.eqb a "/"%char then Some (EmptyString, s')
      else match split_slash s' with
           | Some (l, r) => Some (String a l, r)
           | None => None
           end
  end.

Definition digit_of (a : ascii) : option Z :=
  let n := nat_of_ascii a in
  if (48 <=? n)%nat && (n <=? 57)%nat then Some (Z.of_nat (n - 48)) else None.

(** Decimal digits with single underscores between digits, as [int()]
    accepts them. *)
Fixpoint parse_digits (acc : Z) (after_digit : bool) (s : string) : option Z :=
  match s with
  | EmptyString => if after_digit then Some acc else None
  | String a s' =>
      if Ascii.eqb a "_"%char
      then (if after_digit then parse_digits acc false s' else None)
      else match digit_of a with
           | Some d => parse_digits (10 * acc + d)%Z true s'
           | None => None
           end
  end.

(** [int(s)] for ASCII numerals; anything else is a [ValueError]. *)
Definition py_int (s : string) : outcome Z :=
  let t := strip s in
  let r := match t with
           | String "+"%char t' => parse_digits 0 false t'
           | String "-"%char t' => Z.opp <$> parse_digits 0 false t'
           | _ => parse_digits 0 false t
           end in
  match r with
  | Some z => Ok z
  | None => Raise (ValueError s)
  end.

(** [sep.join(l)] *)
Definition join (sep : string) (l : list string) : string := String.concat sep l.

(** ** Data model *)

Record Operator := mkOperator {
  op_id : string;
  op_name : string;
  op_elite : Z;
  op_level : Z;
  op_own : bool;
  op_potential : Z;
  op_rarity : Z
}.

(** [ControlCenterRequirement], [DormitoryRequirement] and
    [PowerStationRequirement] are three dataclasses with the same two
    fields. *)
Record Requirement := mkRequirement {
  req_operator : string;
  req_elite_required : Z
}.
Definition ControlCenterRequirement := Requirement.
Definition DormitoryRequirement := Requirement.
Definition PowerStationRequirement := Requirement.

Record OperatorEfficiency := mkRule {
  rule_operators : list string;
  rule_workplace_type : string;
  rule_base_efficiency : Q;
  rule_synergy_efficiency : Q;
  rule_description : string;
  rule_elite_requirements : gmap string Z;
  rule_requires_control_center : list ControlCenterRequirement;
  rule_requires_dormitory : list DormitoryRequirement;
  rule_requires_power_station : list PowerStationRequirement;
  rule_apply_each : bool;
  rule_priority : Z;
  rule_products : list string
}.

Record Workplace := mkWorkplace {
  wp_id : string;
  wp_name : string;
  wp_max_operators : Z;
  wp_base_efficiency : Q;
  wp_products : list string;
  wp_current_product : string
}.

Record AssignmentResult := mkResult {
  res_workplace : Workplace;
  res_optimal_operators : list Operator;
  res_total_efficiency : Q;
  res_operator_efficiency : Q;
  res_applied_combinations : list string;
  res_control_center_requirements : list ControlCenterRequirement;
  res_dormitory_requirements : list DormitoryRequirement;
  res_power_station_requirements : list PowerStationRequirement
}.

(** ** The raw (JSON) inputs *)

(** The value of a ["product"] key: a string or a list of strings. *)
Inductive ProductField :=
  | ProductStr (s : string)
  | ProductList (l : list string).

Record RuleData := mkRuleData {
  rd_combo : option (list string);
  rd_efficiency : option Q;
  rd_control_center : option (list string);
  rd_dormitory : option (list string);
  rd_power_station : option (list string);
  rd_apply_each : option bool;
  rd_priority : option Z;
  rd_product : option ProductField
}.

(** A system is a list of rules, or an object with an optional
    ["base_combo"], ["product"] and ["rules"]; any other JSON value is
    skipped by the compiler. *)
Inductive SystemData :=
  | SysList (rules : list RuleData)
  | SysDict (base_combo : option (list string)) (product : option ProductField)
            (rules : option (list RuleData))
  | SysOther.

Definition CombinationRules := list (string * list (string * SystemData)).

Record WorkplaceData := mkWorkplaceData {
  wd_id : string;
  wd_name : string;
  wd_max_operators : Z;
  wd_base_efficiency : Q
}.

Record WorkplacesData := mkWorkplacesData {
  wsd_trading_stations : list WorkplaceData;
  wsd_manufacturing_stations : list WorkplaceData;
  wsd_meeting_room : WorkplaceData;
  wsd_power_station : list WorkplaceData
}.

Record EfficiencyData := mkEfficiencyData {
  ed_combination_rules : option CombinationRules;
  ed_workplaces : WorkplacesData
}.

Record FiammettaConfig := mkFiammettaConfig {
  fc_enable : option bool
}.

Definition ProductRequirements := list (string * list (string * Z)).

Record ConfigData := mkConfigData {
  cfg_trading_stations_count : option Z;
  cfg_manufacturing_stations_count : option Z;
  cfg_product_requirements : option ProductRequirements;
  cfg_Fiammetta : option FiammettaConfig
}.

(** ** Sorting

    [l.sort(key=k, reverse=True)] and [sorted(l, key=k, reverse=True)]:
    CPython's sort is stable, and with [reverse=True] elements with equal
    keys still keep their original order.  The result of a stable sort is
    determined by the order on keys, so a stable insertion sort computes
    it.  [gt y x] reads: the key of [y] is greater than the key of [x]. *)

Section sort_reverse.
Context {A : Type} (gt : A -> A -> bool).

Fixpoint insert_reverse (x : A) (l : list A) : list A :=
  match l with
  | [] => [x]
  | y :: l' => if gt y x then y :: insert_reverse x l' else x :: l
  end.

Definition sort_reverse (l : list A) : list A := foldr insert_reverse [] l.
End sort_reverse.

Definition Qltb (a b : Q) : bool := negb (Qle_bool b a).

(** The key [(r.priority, r.synergy_efficiency)], compared as Python
    compares tuples. *)
Definition rule_key_gt (a b : OperatorEfficiency) : bool :=
  (rule_priority b <? rule_priority a)%Z
  || ((rule_priority a =? rule_priority b)%Z
      && Qltb (rule_synergy_efficiency b) (rule_synergy_efficiency a)).

Definition rule_key_eq (a b : OperatorEfficiency) : bool :=
  (rule_priority a =? rule_priority b)%Z
  && Qeq_bool (rule_synergy_efficiency a) (rule_synergy_efficiency b).

(** ** The rule compiler: [load_efficiency_rules] *)

Definition generic_single : string := "通用单人".

Definition parse_operator_string (op_str : string) : outcome (string * Z) :=
  match split_slash op_str with
  | Some (name, elite_str) =>
      elite ← py_int (strip elite_str); Ok (strip name, elite)
  | None => Ok (strip op_str, 0%Z)
  end.

(** The loop over a ["combo"]: names are appended, and a tier above 0 is
    recorded as an override. *)
Definition parse_combo (tokens : list string)
    (init : list string * gmap string Z) : outcome (list string * gmap string Z) :=
  for_each (fun acc op_str =>
    ne ← parse_operator_string op_str;
    Ok (acc.1 ++ [ne.1],
        if (0 <? ne.2)%Z then <[ne.1 := ne.2]> acc.2 else acc.2))
    tokens init.

(** The loop over a ["control_center"], ["dormitory"] or ["power_station"]
    key, when the key is present. *)
Definition parse_requirements (field : option (list string))
    : outcome (list Requirement) :=
  match field with
  | None => Ok []
  | Some tokens =>
      for_each (fun reqs s =>
        ne ← parse_operator_string s;
        Ok (reqs ++ [mkRequirement ne.1 ne.2])) tokens []
  end.

Definition require_key {V : Type} (key : string) (field : option V) : outcome V :=
  match field with
  | Some v => Ok v
  | None => Raise (KeyError key)
  end.

Definition products_of (field : option ProductField) (default : list string)
    : list string :=
  match field with
  | None => default
  | Some (ProductStr s) => [s]
  | Some (ProductList l) => l
  end.

(** One entry of a system that is a plain list of rules. *)
Definition expand_list_rule (workplace_type system_name : string)
    (rule_data : RuleData) : outcome OperatorEfficiency :=
  combo ← require_key "combo" (rd_combo rule_data);
  parsed ← parse_combo combo ([], ∅);
  control_center_reqs ← parse_requirements (rd_control_center rule_data);
  dormitory_reqs ← parse_requirements (rd_dormitory rule_data);
  power_station_reqs ← parse_requirements (rd_power_station rule_data);
  let description :=
    if default false (rd_apply_each rule_data) then generic_single
    else system_name +:+ " - " +:+ join ", " parsed.1 in
  let rule_products := products_of (rd_product rule_data) [] in
  efficiency ← require_key "efficiency" (rd_efficiency rule_data);
  Ok {| rule_operators := parsed.1;
        rule_workplace_type := workplace_type;
        rule_base_efficiency := 0;
        rule_synergy_efficiency := efficiency;
        rule_description := description;
        rule_elite_requirements := parsed.2;
        rule_requires_control_center := control_center_reqs;
        rule_requires_dormitory := dormitory_reqs;
        rule_requires_power_station := power_station_reqs;
        rule_apply_each := default false (rd_apply_each rule_data);
        rule_priority := default 0%Z (rd_priority rule_data);
        rule_products := rule_products |}.

(** One entry of the ["rules"] of a system with a shared base combination. *)
Definition expand_dict_rule (workplace_type system_name : string)
    (base : list string * gmap string Z) (base_products : list string)
    (rule_data : RuleData) : outcome OperatorEfficiency :=
  parsed ← parse_combo (default [] (rd_combo rule_data)) base;
  control_center_reqs ← parse_requirements (rd_control_center rule_data);
  dormitory_reqs ← parse_requirements (rd_dormitory rule_data);
  power_station_reqs ← parse_requirements (rd_power_station rule_data);
  let rule_products := products_of (rd_product rule_data) base_products in
  let description := system_name +:+ " - " +:+ join ", " parsed.1 in
  efficiency ← require_key "efficiency" (rd_efficiency rule_data);
  Ok {| rule_operators := parsed.1;
        rule_workplace_type := workplace_type;
        rule_base_efficiency := 0;
        rule_synergy_efficiency := efficiency;
        rule_description := description;
        rule_elite_requirements := parsed.2;
        rule_requires_control_center := control_center_reqs;
        rule_requires_dormitory := dormitory_reqs;
        rule_requires_power_station := power_station_reqs;
        rule_apply_each := default false (rd_apply_each rule_data);
        rule_priority := default 0%Z (rd_priority rule_data);
        rule_products := rule_products |}.

Definition expand_system (workplace_type : string)
    (expanded_rules : list OperatorEfficiency)
    (entry : string * SystemData) : outcome (list OperatorEfficiency) :=
  let system_name := entry.1 in
  match entry.2 with
  | SysList rules =>
      for_each (fun acc rule_data =>
        r ← expand_list_rule workplace_type system_name rule_data;
        Ok (acc ++ [r])) rules expanded_rules
  | SysDict base_combo product rules =>
      let base_products := products_of product [] in
      base ← match base_combo with
             | Some tokens => parse_combo tokens ([], ∅)
             | None => Ok ([], ∅)
             end;
      for_each (fun acc rule_data =>
        r ← expand_dict_rule workplace_type system_name base base_products rule_data;
        Ok (acc ++ [r])) (default [] rules) expanded_rules
  | SysOther => Ok expanded_rules
  end.

(** The rules in the order the nested loops append them, before the sort. *)
Definition expand_rules (efficiency_data : EfficiencyData)
    : outcome (list OperatorEfficiency) :=
  for_each (fun acc wt =>
    for_each (expand_system wt.1) wt.2 acc)
    (default [] (ed_combination_rules efficiency_data)) [].

Definition load_efficiency_rules (efficiency_data : EfficiencyData)
    : outcome (list OperatorEfficiency) :=
  expanded_rules ← expand_rules efficiency_data;
  Ok (sort_reverse rule_key_gt expanded_rules).

(** ** The optimizer object and its loaders *)

Record Workplaces := mkWorkplaces {
  trading_stations : list Workplace;
  manufacturing_stations : list Workplace;
  meeting_room : list Workplace;
  power_station : list Workplace
}.

(** The attributes of [self] that the core reads. *)
Record WorkplaceOptimizer := mkOptimizer {
  efficiency_data : EfficiencyData;
  config_data : ConfigData;
  operators : gmap string Operator;
  efficiency_rules : list OperatorEfficiency;
  workplaces : Workplaces;
  fiammetta_targets : list string
}.

(** [{op.name: op for op in l}]: a later operator replaces an earlier one
    of the same name. *)
Definition dict_by_name (l : list Operator) : gmap string Operator :=
  foldl (fun d op => <[op_name op := op]> d) ∅ l.

Definition load_operators (operator_data : list Operator) : gmap string Operator :=
  dict_by_name operator_data.

Definition default_station : WorkplaceData :=
  {| wd_id := ""; wd_name := ""; wd_max_operators := 3; wd_base_efficiency := 100 |}.

(** [range(n)] *)
Definition range (n : Z) : list nat := seq 0 (Z.to_nat n).

Definition load_workplaces (efficiency_data : EfficiencyData)
    (trading_stations_count manufacturing_stations_count : Z) : Workplaces :=
  let wsd := ed_workplaces efficiency_data in
  let default_trading := default default_station (head (wsd_trading_stations wsd)) in
  let default_manufacturing :=
    default default_station (head (wsd_manufacturing_stations wsd)) in
  let of_data (d : WorkplaceData) :=
    mkWorkplace (wd_id d) (wd_name d) (wd_max_operators d) (wd_base_efficiency d) [] "" in
  {| trading_stations :=
       (fun i => mkWorkplace ("trading_" +:+ pretty (S i)) ("贸易站" +:+ pretty (S i))
                   (wd_max_operators default_trading)
                   (wd_base_efficiency default_trading) [] "")
       <$> range trading_stations_count;
     manufacturing_stations :=
       (fun i => mkWorkplace ("manufacturing_" +:+ pretty (S i)) ("制造站" +:+ pretty (S i))
                   (wd_max_operators default_manufacturing)
                   (wd_base_efficiency default_manufacturing) [] "")
       <$> range manufacturing_stations_count;
     meeting_room := [of_data (wsd_meeting_room wsd)];
     power_station := of_data <$> wsd_power_station wsd |}.

(** [WorkplaceOptimizer.__init__] after the three files are read. *)
Definition init (efficiency_data : EfficiencyData) (operator_data : list Operator)
    (config_data : ConfigData) : outcome WorkplaceOptimizer :=
  let trading_stations_count := default 3%Z (cfg_trading_stations_count config_data) in
  let manufacturing_stations_count :=
    default 3%Z (cfg_manufacturing_stations_count config_data) in
  let operators := load_operators operator_data in
  efficiency_rules ← load_efficiency_rules efficiency_data;
  Ok {| efficiency_data := efficiency_data;
        config_data := config_data;
        operators := operators;
        efficiency_rules := efficiency_rules;
        workplaces := load_workplaces efficiency_data trading_stations_count
                        manufacturing_stations_count;
        fiammetta_targets := [] |}.

(** ** Eligibility checks *)

(** The operators with [op.own].  The source lists them in dict order,
    the model in the order of the map; the callers only build dicts from
    the list, so its order is not observed. *)
Definition get_available_operators (self : WorkplaceOptimizer) : list Operator :=
  filter (fun op => op_own op = true) (snd <$> map_to_list (operators self)).

Definition check_elite_requirements (operators : list Operator)
    (elite_requirements : gmap string Z) : bool :=
  let operator_dict := dict_by_name operators in
  forallb (fun item =>
    match operator_dict !! item.1 with
    | Some op => negb (op_elite op <? item.2)%Z
    | None => true
    end) (map_to_list elite_requirements).

Definition check_control_center_requirements (self : WorkplaceOptimizer)
    (control_center_reqs : list ControlCenterRequirement) : bool :=
  forallb (fun req =>
    match operators self !! req_operator req with
    | None => false
    | Some op => negb (negb (op_own op) || (op_elite op <? req_elite_required req)%Z)
    end) control_center_reqs.

Definition check_dormitory_requirements (self : WorkplaceOptimizer)
    (dormitory_reqs : list DormitoryRequirement) : bool :=
  forallb (fun req =>
    match operators self !! req_operator req with
    | None => false
    | Some op => negb (negb (op_own op) || (op_elite op <? req_elite_required req)%Z)
    end) dormitory_reqs.

Definition check_power_station_requirements (self : WorkplaceOptimizer)
    (dormitory_reqs : list PowerStationRequirement) : bool :=
  forallb (fun req =>
    match operators self !! req_operator req with
    | None => false
    | Some op => negb (negb (op_own op) || (op_elite op <? req_elite_required req)%Z)
    end) dormitory_reqs.

Definition fiammetta : string := "菲亚梅塔".

Definition check_fiammetta_available (self : WorkplaceOptimizer) : bool :=
  match operators self !! fiammetta with
  | None => false
  | Some op => op_own op && (2 <=? op_elite op)%Z
  end.

(** [s.split('_')[0]] *)
Fixpoint first_segment (s : string) : string :=
  match s with
  | EmptyString => EmptyString
  | String a s' => if Ascii.eqb a "_"%char then EmptyString else String a (first_segment s')
  end.

Definition trading_station : string := "trading_station".

Definition get_workplace_type (workplace : Workplace) : string :=
  if str_in "trading" (wp_id workplace) then trading_station
  else if str_in "manufacturing" (wp_id workplace) then "manufacturing_station"
  else if str_in "meeting" (wp_id workplace) then "meeting_room"
  else if str_in "power" (wp_id workplace) then "power_station"
  else first_segment (wp_id workplace) +:+ "_" +:+ "_station".

(** ** The scorer of a given crew: [calculate_combination_efficiency] *)

(** [(total_efficiency, applied_combinations, applied_control_center_reqs)] *)
Definition Score : Type := Q * list string * list ControlCenterRequirement.

(** The body of [for rule in self.efficiency_rules]. *)
Definition score_rule (self : WorkplaceOptimizer) (operators : list Operator)
    (workplace_type : string) (acc : Score) (rule : OperatorEfficiency) : Score :=
  let used_operator_names := op_name <$> operators in
  if negb (String.eqb (rule_workplace_type rule) workplace_type) then acc
  else if forallb (fun op_name => bool_decide (op_name ∈ used_operator_names))
            (rule_operators rule)
  then
    if negb (check_elite_requirements operators (rule_elite_requirements rule)) then acc
    else if negb (check_control_center_requirements self
                    (rule_requires_control_center rule)) then acc
    else if negb (check_dormitory_requirements self (rule_requires_dormitory rule))
    then acc
    else ((acc.1.1 + rule_synergy_efficiency rule)%Q,
          acc.1.2 ++ [rule_description rule],
          acc.2 ++ rule_requires_control_center rule)
  else acc.

Definition calculate_combination_efficiency (self : WorkplaceOptimizer)
    (operators : list Operator) (workplace_type : string) : Score :=
  let acc := foldl (score_rule self operators workplace_type) (0%Q, [], [])
               (efficiency_rules self) in
  let total_efficiency :=
    if Qeq_bool acc.1.1 0
    then foldl (fun total _ => (total + 0)%Q) acc.1.1 operators
    else acc.1.1 in
  (total_efficiency, acc.1.2, acc.2).

(** ** The allocator: [optimize_workplace] and [optimize_workplace_recursive] *)

(** The mutable locals and arguments of one allocator call.  The usage
    budget, the shift's exclusivity set, [assigned_ops] and [used_names] are
    objects shared by reference between [optimize_workplace] and
    [optimize_workplace_recursive]; here they are threaded through. *)
Record Alloc := mkAlloc {
  remaining_slots : Z;
  assigned_ops : list Operator;
  used_names : gset string;
  shift_used_names : gset string;
  operator_usage : gmap string Z;
  total_synergy : Q;
  applied_combinations : list string;
  applied_control_center_reqs : list ControlCenterRequirement;
  applied_dormitory_reqs : list DormitoryRequirement;
  applied_power_station_reqs : list PowerStationRequirement
}.

(** The ['type'] of a candidate dict. *)
Inductive CandType := TSystem | TGeneric | TGenericEach | TEach | TNormal.

Record Candidate := mkCandidate {
  cand_type : CandType;
  cand_rule : OperatorEfficiency;
  cand_required : list string;
  cand_efficiency : Q;
  cand_slots_used : Z
}.

(** [(best_candidate, best_efficiency)] *)
Definition Best : Type := option Candidate * Q.

Definition generic : string := "通用".

(** [a / n] for a length [n] *)
Definition py_div (a : Q) (n : nat) : outcome Q :=
  match n with
  | O => Raise ZeroDivisionError
  | S _ => Ok (a / inject_Z (Z.of_nat n))%Q
  end.

(** [system_groups[name].append(rule)], creating the group at the end of
    the dict when it is new. *)
Fixpoint group_append (name : string) (rule : OperatorEfficiency)
    (groups : list (string * list OperatorEfficiency))
    : list (string * list OperatorEfficiency) :=
  match groups with
  | [] => [(name, [rule])]
  | g :: groups' =>
      if String.eqb g.1 name then (g.1, g.2 ++ [rule]) :: groups'
      else g :: group_append name rule groups'
  end.

Section allocator.
Context (self : WorkplaceOptimizer) (workplace : Workplace).

Definition workplace_type : string := get_workplace_type workplace.
Definition op_by_name : gmap string Operator :=
  dict_by_name (get_available_operators self).

Definition rule_matches_products (rule : OperatorEfficiency) : bool :=
  match rule_products rule with
  | [] => true
  | _ => bool_decide (wp_current_product workplace ∈ rule_products rule)
  end.

Definition all_rules : list OperatorEfficiency :=
  List.filter (fun r => String.eqb (rule_workplace_type r) workplace_type
                        && rule_matches_products r)
              (efficiency_rules self).

Definition max_usage (op_name : string) : Z :=
  if bool_decide (op_name ∈ fiammetta_targets self)
     && String.eqb workplace_type trading_station
  then 3%Z else 2%Z.

(** [operator_usage.get(op_name, 0)] *)
Definition usage_of (usage : gmap string Z) (op_name : string) : Z :=
  default 0%Z (usage !! op_name).

(** The availability test, written four times in the source with the
    same four disjuncts. *)
Definition unavailable (st : Alloc) (op_name : string) : bool :=
  negb (bool_decide (is_Some (op_by_name !! op_name)))
  || bool_decide (op_name ∈ used_names st)
  || bool_decide (op_name ∈ shift_used_names st)
  || (max_usage op_name <=? usage_of (operator_usage st) op_name)%Z.

(** [[op_by_name[op_name] for op_name in required]] *)
Definition op_objs_of (required : list string) : outcome (list Operator) :=
  for_each (fun acc op_name =>
    match op_by_name !! op_name with
    | Some op => Ok (acc ++ [op])
    | None => Raise (KeyError op_name)
    end) required [].

(** [if efficiency_per_slot > best_efficiency: ...] *)
Definition improve (best : Best) (efficiency_per_slot : Q) (c : Candidate) : Best :=
  if Qltb best.2 efficiency_per_slot then (Some c, efficiency_per_slot) else best.

(** The name of the system a rule is filed under: the first key of the
    workplace type's systems that occurs in the rule's description. *)
Definition system_name_of (rule : OperatorEfficiency) : outcome string :=
  combination_rules ←
    require_key "combination_rules" (ed_combination_rules (efficiency_data self));
  let systems := default [] (assoc_get workplace_type combination_rules) in
  Ok (default generic
        (List.find (fun sys_key => str_in sys_key (rule_description rule))
                   (fst <$> systems))).

Definition system_groups : outcome (list (string * list OperatorEfficiency)) :=
  groups ← for_each (fun groups rule =>
              system_name ← system_name_of rule;
              Ok (group_append system_name rule groups)) all_rules
              ([] : list (string * list OperatorEfficiency));
  Ok (List.map (fun g => (g.1, sort_reverse rule_key_gt g.2)) groups).

(** *** First pass: rules of named systems *)

(** The body of [for rule in rules] for a named system. *)
Definition eval_system_rule (st : Alloc) (rule : OperatorEfficiency) (best : Best)
    : outcome Best :=
  let required := rule_operators rule in
  let unavailable_ops := List.filter (unavailable st) required in
  match unavailable_ops with
  | _ :: _ => Ok best
  | [] =>
      if (remaining_slots st <? Z.of_nat (length required))%Z then Ok best
      else
        op_objs ← op_objs_of required;
        if negb (check_elite_requirements op_objs (rule_elite_requirements rule))
        then Ok best
        else if negb (check_control_center_requirements self
                        (rule_requires_control_center rule))
        then Ok best
        else if negb (check_dormitory_requirements self (rule_requires_dormitory rule))
        then Ok best
        else if negb (check_power_station_requirements self
                        (rule_requires_power_station rule))
        then Ok best
        else
          efficiency_per_slot ← py_div (rule_synergy_efficiency rule) (length required);
          Ok (improve best efficiency_per_slot
                (mkCandidate TSystem rule required (rule_synergy_efficiency rule)
                   (Z.of_nat (length required))))
  end.

(** [for rule in rules: if remaining_slots <= 0: break; ...] *)
Fixpoint eval_system_rules (st : Alloc) (rules : list OperatorEfficiency) (best : Best)
    : outcome Best :=
  match rules with
  | [] => Ok best
  | rule :: rules' =>
      if (remaining_slots st <=? 0)%Z then Ok best
      else best' ← eval_system_rule st rule best; eval_system_rules st rules' best'
  end.

(** *** First pass: the generic group *)

(** The body of [for op_name in rule.operators] of an [apply_each] rule. *)
Definition eval_generic_each_op (st : Alloc) (rule : OperatorEfficiency)
    (best : Best) (op_name : string) : outcome Best :=
  if (remaining_slots st <=? 0)%Z
     || bool_decide (op_name ∈ used_names st)
     || bool_decide (op_name ∈ shift_used_names st)
     || negb (bool_decide (is_Some (op_by_name !! op_name)))
     || (max_usage op_name <=? usage_of (operator_usage st) op_name)%Z
  then Ok best
  else
    op_obj ← match op_by_name !! op_name with
             | Some op => Ok op
             | None => Raise (KeyError op_name)
             end;
    let req_elite : gmap string Z :=
      {[ op_name := default 0%Z (rule_elite_requirements rule !! op_name) ]} in
    if negb (check_elite_requirements [op_obj] req_elite)
       || negb (check_control_center_requirements self
                  (rule_requires_control_center rule))
    then Ok best
    else
      let efficiency_per_slot := rule_synergy_efficiency rule in
      Ok (improve best efficiency_per_slot
            (mkCandidate TGenericEach rule [op_name] (rule_synergy_efficiency rule) 1)).

(** The [else] branch: an ordinary generic rule. *)
Definition eval_generic_rule (st : Alloc) (rule : OperatorEfficiency) (best : Best)
    : outcome Best :=
  let required := rule_operators rule in
  if existsb (unavailable st) required
     || (remaining_slots st <? Z.of_nat (length required))%Z
  then Ok best
  else
    op_objs ← op_objs_of required;
    if negb (check_elite_requirements op_objs (rule_elite_requirements rule))
       || negb (check_control_center_requirements self
                  (rule_requires_control_center rule))
    then Ok best
    else
      efficiency_per_slot ← py_div (rule_synergy_efficiency rule) (length required);
      Ok (improve best efficiency_per_slot
            (mkCandidate TGeneric rule required (rule_synergy_efficiency rule)
               (Z.of_nat (length required)))).

Fixpoint eval_generic_rules (st : Alloc) (rules : list OperatorEfficiency) (best : Best)
    : outcome Best :=
  match rules with
  | [] => Ok best
  | rule :: rules' =>
      if (remaining_slots st <=? 0)%Z then Ok best
      else
        best' ← (if rule_apply_each rule
                 then for_each (eval_generic_each_op st rule) (rule_operators rule) best
                 else eval_generic_rule st rule best);
        eval_generic_rules st rules' best'
  end.

(** The whole candidate search of [optimize_workplace]: every named
    system in dict order, then the generic group, sharing
    [best_candidate] and [best_efficiency]. *)
Definition first_pass_select (st : Alloc) : outcome Best :=
  groups ← system_groups;
  best ← for_each (fun best g =>
            if String.eqb g.1 generic then Ok best
            else eval_system_rules st g.2 best) groups (None, (-1)%Q);
  let generic_rules := default [] (assoc_get generic groups) in
  eval_generic_rules st generic_rules best.

(** *** Applying a candidate *)

(** The body of [for op_name in required] when a candidate is applied. *)
Definition assign_op (st : Alloc) (op_name : string) : outcome Alloc :=
  match op_by_name !! op_name with
  | None => Raise (KeyError op_name)
  | Some op =>
      match operator_usage st !! op_name with
      | None => Raise (KeyError op_name)
      | Some count =>
          Ok {| remaining_slots := remaining_slots st;
                assigned_ops := assigned_ops st ++ [op];
                used_names := used_names st ∪ {[op_name]};
                shift_used_names := shift_used_names st ∪ {[op_name]};
                operator_usage := <[op_name := (count + 1)%Z]> (operator_usage st);
                total_synergy := total_synergy st;
                applied_combinations := applied_combinations st;
                applied_control_center_reqs := applied_control_center_reqs st;
                applied_dormitory_reqs := applied_dormitory_reqs st;
                applied_power_station_reqs := applied_power_station_reqs st |}
      end
  end.

Definition is_each (c : Candidate) : bool :=
  match cand_type c with
  | TGenericEach | TEach => true
  | _ => false
  end.

(** The block under [if best_candidate and best_efficiency > 0], the
    same in both functions; a per-operator candidate is tagged
    ['generic_each'] in [optimize_workplace] and ['each'] in
    [optimize_workplace_recursive]. *)
Definition apply_candidate (st : Alloc) (c : Candidate) : outcome Alloc :=
  let rule := cand_rule c in
  let required := cand_required c in
  st' ← for_each assign_op required st;
  Ok {| remaining_slots := (remaining_slots st' - cand_slots_used c)%Z;
        assigned_ops := assigned_ops st';
        used_names := used_names st';
        shift_used_names := shift_used_names st';
        operator_usage := operator_usage st';
        total_synergy := (total_synergy st' + cand_efficiency c)%Q;
        applied_combinations :=
          applied_combinations st'
          ++ [if is_each c
              then rule_description rule +:+ "(" +:+ join ", " required +:+ ")"
              else rule_description rule];
        applied_control_center_reqs :=
          applied_control_center_reqs st' ++ rule_requires_control_center rule;
        applied_dormitory_reqs :=
          applied_dormitory_reqs st' ++ rule_requires_dormitory rule;
        applied_power_station_reqs :=
          applied_power_station_reqs st' ++ rule_requires_power_station rule |}.

(** [best_candidate and best_efficiency > 0] *)
Definition accepted (best : Best) : option Candidate :=
  match best.1 with
  | Some c => if Qltb 0 best.2 then Some c else None
  | None => None
  end.

(** *** The remaining-slot filler *)

Definition eval_each_op (st : Alloc) (rule : OperatorEfficiency)
    (best : Best) (op_name : string) : outcome Best :=
  if bool_decide (op_name ∈ used_names st)
     || bool_decide (op_name ∈ shift_used_names st)
     || negb (bool_decide (is_Some (op_by_name !! op_name)))
     || (max_usage op_name <=? usage_of (operator_usage st) op_name)%Z
  then Ok best
  else
    op_obj ← match op_by_name !! op_name with
             | Some op => Ok op
             | None => Raise (KeyError op_name)
             end;
    let req_elite : gmap string Z :=
      {[ op_name := default 0%Z (rule_elite_requirements rule !! op_name) ]} in
    if negb (check_elite_requirements [op_obj] req_elite)
       || negb (check_control_center_requirements self
                  (rule_requires_control_center rule))
    then Ok best
    else
      let efficiency := rule_synergy_efficiency rule in
      Ok (improve best efficiency (mkCandidate TEach rule [op_name] efficiency 1)).

Definition eval_normal_rule (st : Alloc) (rule : OperatorEfficiency) (best : Best)
    : outcome Best :=
  let required := rule_operators rule in
  if (remaining_slots st <? Z.of_nat (length required))%Z then Ok best
  else if existsb (unavailable st) required then Ok best
  else
    op_objs ← op_objs_of required;
    if negb (check_elite_requirements op_objs (rule_elite_requirements rule))
       || negb (check_control_center_requirements self
                  (rule_requires_control_center rule))
    then Ok best
    else
      efficiency_per_slot ← py_div (rule_synergy_efficiency rule) (length required);
      Ok (improve best efficiency_per_slot
            (mkCandidate TNormal rule required (rule_synergy_efficiency rule)
               (Z.of_nat (length required)))).

(** The [for rule in all_rules] of one pass of the [while] loop. *)
Definition fill_select (st : Alloc) : outcome Best :=
  for_each (fun best rule =>
    if rule_apply_each rule
    then for_each (eval_each_op st rule) (rule_operators rule) best
    else eval_normal_rule st rule best) all_rules (None, (-1)%Q).

(** One pass of the [while] loop: [Some] state to go on with, or [None]
    for [break]. *)
Definition fill_step (st : Alloc) : outcome (option Alloc) :=
  best ← fill_select st;
  match accepted best with
  | Some c => st' ← apply_candidate st c; Ok (Some st')
  | None => Ok None
  end.

(** [while remaining_slots > 0: ...], bounded by [fuel] passes. *)
Fixpoint fill_loop (fuel : nat) (st : Alloc) : outcome Alloc :=
  if (0 <? remaining_slots st)%Z then
    match fuel with
    | O => Timeout
    | S fuel' =>
        next ← fill_step st;
        match next with
        | Some st' => fill_loop fuel' st'
        | None => Ok st
        end
    end
  else Ok st.

(** The state at [return].  The dict the function returns holds the
    accumulators ([total_synergy] and the four lists) and an empty
    ['assigned_ops']; the operators it placed reach the caller through
    the shared [assigned_ops] list, as do the budget and the two sets.
    The loop runs at most [remaining_slots] passes (see
    [fill_loop_not_Timeout]). *)
Definition optimize_workplace_recursive (operator_usage : gmap string Z)
    (shift_used_names : gset string) (assigned_ops : list Operator)
    (used_names : gset string) (remaining_slots : Z) : outcome Alloc :=
  fill_loop (Z.to_nat remaining_slots)
    {| remaining_slots := remaining_slots;
       assigned_ops := assigned_ops;
       used_names := used_names;
       shift_used_names := shift_used_names;
       operator_usage := operator_usage;
       total_synergy := 0;
       applied_combinations := [];
       applied_control_center_reqs := [];
       applied_dormitory_reqs := [];
       applied_power_station_reqs := [] |}.

Definition initial_alloc (operator_usage : gmap string Z)
    (shift_used_names : gset string) : Alloc :=
  {| remaining_slots := wp_max_operators workplace;
     assigned_ops := [];
     used_names := ∅;
     shift_used_names := shift_used_names;
     operator_usage := operator_usage;
     total_synergy := 0;
     applied_combinations := [];
     applied_control_center_reqs := [];
     applied_dormitory_reqs := [];
     applied_power_station_reqs := [] |}.

(** The first pass and its application. *)
Definition first_pass (st : Alloc) : outcome Alloc :=
  best ← first_pass_select st;
  match accepted best with
  | Some c => apply_candidate st c
  | None => Ok st
  end.

(** [if remaining_slots > 0:] the call of the filler and the merge of
    its result. *)
Definition fill_remaining (st : Alloc) : outcome Alloc :=
  if (0 <? remaining_slots st)%Z then
    rec ← optimize_workplace_recursive (operator_usage st) (shift_used_names st)
             (assigned_ops st) (used_names st) (remaining_slots st);
    Ok {| remaining_slots := remaining_slots st;
          assigned_ops := assigned_ops rec ++ [];
          used_names := used_names rec;
          shift_used_names := shift_used_names rec;
          operator_usage := operator_usage rec;
          total_synergy := (total_synergy st + total_synergy rec)%Q;
          applied_combinations := applied_combinations st ++ applied_combinations rec;
          applied_control_center_reqs :=
            applied_control_center_reqs st ++ applied_control_center_reqs rec;
          applied_dormitory_reqs :=
            applied_dormitory_reqs st ++ applied_dormitory_reqs rec;
          applied_power_station_reqs :=
            applied_power_station_reqs st ++ applied_power_station_reqs rec |}
  else Ok st.

Definition result_of (st : Alloc) : AssignmentResult :=
  {| res_workplace := workplace;
     res_optimal_operators := assigned_ops st;
     res_total_efficiency := (wp_base_efficiency workplace + total_synergy st)%Q;
     res_operator_efficiency := total_synergy st;
     res_applied_combinations := applied_combinations st;
     res_control_center_requirements := applied_control_center_reqs st;
     res_dormitory_requirements := applied_dormitory_reqs st;
     res_power_station_requirements := applied_power_station_reqs st |}.

(** The result, together with the usage budget and the exclusivity set
    as the call leaves them. *)
Definition optimize_workplace (usage : gmap string Z) (shift_used : gset string)
    : outcome (AssignmentResult * gmap string Z * gset string) :=
  st1 ← first_pass (initial_alloc usage shift_used);
  st2 ← fill_remaining st1;
  Ok (result_of st2, operator_usage st2, shift_used_names st2).
End allocator.

(** ** The quota-boost selector: [select_fiammetta_targets] *)

(** [op_scores[op] = op_scores.get(op, 0) + score] on a dict whose
    insertion order the later [sorted] observes. *)
Fixpoint scores_add (op : string) (score : Q) (op_scores : list (string * Q))
    : list (string * Q) :=
  match op_scores with
  | [] => [(op, (0 + score)%Q)]
  | e :: op_scores' =>
      if String.eqb e.1 op then (e.1, (e.2 + score)%Q) :: op_scores'
      else e :: scores_add op score op_scores'
  end.

(** [for op in sorted_ops: selected.append(op); if len(selected) >= 3: break] *)
Fixpoint fill_targets (selected sorted_ops : list string) : list string :=
  match sorted_ops with
  | [] => selected
  | op :: sorted_ops' =>
      let selected' := selected ++ [op] in
      if (3 <=? length selected')%nat then selected'
      else fill_targets selected' sorted_ops'
  end.

Definition boostable (self : WorkplaceOptimizer) (op : string) : bool :=
  match operators self !! op with
  | Some o => op_own o && (2 <=? op_elite o)%Z
  | None => false
  end.

Definition select_fiammetta_targets (self : WorkplaceOptimizer) : outcome (list string) :=
  let candidates := ["巫恋"; "龙舌兰"; "但书"] in
  let selected := List.filter (boostable self) candidates in
  if (3 <=? length selected)%nat then Ok selected
  else
    let trading_rules :=
      List.filter (fun r => String.eqb (rule_workplace_type r) trading_station)
                  (efficiency_rules self) in
    op_scores ← for_each (fun op_scores rule =>
      for_each (fun op_scores op =>
        if boostable self op && negb (bool_decide (op ∈ selected)) then
          score ← py_div (rule_synergy_efficiency rule) (length (rule_operators rule));
          Ok (scores_add op score op_scores)
        else Ok op_scores) (rule_operators rule) op_scores)
      trading_rules ([] : list (string * Q));
    let sorted_ops := fst <$> sort_reverse (fun y x => Qltb x.2 y.2) op_scores in
    Ok (fill_targets selected sorted_ops).

(** ** The cycle scheduler: [get_optimal_assignments] *)

(** A room of a plan; ["product"] is present for trading and manufacture
    rooms only. *)
Record Room := mkRoom {
  room_operators : list string;
  room_autofill : bool;
  room_product : option string
}.

(** One entry of ["plans"].  A dormitory room is [None] for
    [{"autofill": True}] and [Some l] for
    [{"operators": l, "autofill": True}].  The constant entries
    (["hire"], ["processing"], ["description_post"], ["order"]) are left
    out. *)
Record Plan := mkPlan {
  plan_name : string;
  plan_description : string;
  plan_Fiammetta_enable : bool;
  plan_Fiammetta_target : string;
  plan_trading : list Room;
  plan_manufacture : list Room;
  plan_control : list string;
  plan_power : list Room;
  plan_meeting : Room;
  plan_dormitory : list (option (list string))
}.

(** The locals of one pass of [for shift in range(3)], with the results
    of the allocator calls of the shift in call order.  A set of names
    built by [add] is kept as the list of its elements in insertion
    order. *)
Record Sched := mkSched {
  sc_operator_usage : gmap string Z;
  sc_shift_used_names : gset string;
  sc_control_operators : list string;
  sc_dormitory_operators : list string;
  sc_results : list AssignmentResult
}.

(** [s.add(x)] *)
Definition set_add (x : string) (s : list string) : list string :=
  if bool_decide (x ∈ s) then s else s ++ [x].

Definition default_product_requirements : ProductRequirements :=
  [("trading_stations", [("LMD", 3%Z); ("Orundum", 0%Z)]);
   ("manufacturing_stations",
    [("Pure Gold", 3%Z); ("Originium Shard", 0%Z); ("Battle Record", 0%Z)])].

(** [for product, count in d.items(): products.extend([product] * count)] *)
Definition expand_products (d : list (string * Z)) : list string :=
  concat ((fun pc => replicate (Z.to_nat pc.2) pc.1) <$> d).

(** [workplace.current_product = products[i] if i < len(products) else ""] *)
Definition set_current_products (products : list string) (ws : list Workplace)
    : list Workplace :=
  imap (fun i w =>
    mkWorkplace (wp_id w) (wp_name w) (wp_max_operators w) (wp_base_efficiency w)
      (wp_products w) (default "" (products !! i))) ws.

Definition room_of (result : AssignmentResult) (product : option string) : Room :=
  {| room_operators := op_name <$> res_optimal_operators result;
     room_autofill := match res_optimal_operators result with [] => true | _ => false end;
     room_product := product |}.

Section scheduler.
(** [list(s)] for a set of [str]: CPython salts string hashes per
    process, so the order in which a set is listed is not a function of
    the program's inputs.  It is a parameter here. *)
Context (list_of_set : list string -> list string).
Context (self : WorkplaceOptimizer).

(** [if req.operator not in shift_used_names and
       operator_usage.get(req.operator, 0) < 2: ...] for a control-center
    requirement. *)
Definition admit_control (sc : Sched) (req : ControlCenterRequirement) : outcome Sched :=
  if negb (bool_decide (req_operator req ∈ sc_shift_used_names sc))
     && (usage_of (sc_operator_usage sc) (req_operator req) <? 2)%Z
  then
    match sc_operator_usage sc !! req_operator req with
    | None => Raise (KeyError (req_operator req))
    | Some count =>
        Ok {| sc_operator_usage :=
                <[req_operator req := (count + 1)%Z]> (sc_operator_usage sc);
              sc_shift_used_names := sc_shift_used_names sc ∪ {[req_operator req]};
              sc_control_operators := set_add (req_operator req) (sc_control_operators sc);
              sc_dormitory_operators := sc_dormitory_operators sc;
              sc_results := sc_results sc |}
    end
  else Ok sc.

(** The same for a dormitory requirement. *)
Definition admit_dormitory (sc : Sched) (req : DormitoryRequirement) : outcome Sched :=
  if negb (bool_decide (req_operator req ∈ sc_shift_used_names sc))
     && (usage_of (sc_operator_usage sc) (req_operator req) <? 2)%Z
  then
    match sc_operator_usage sc !! req_operator req with
    | None => Raise (KeyError (req_operator req))
    | Some count =>
        Ok {| sc_operator_usage :=
                <[req_operator req := (count + 1)%Z]> (sc_operator_usage sc);
              sc_shift_used_names := sc_shift_used_names sc ∪ {[req_operator req]};
              sc_control_operators := sc_control_operators sc;
              sc_dormitory_operators :=
                set_add (req_operator req) (sc_dormitory_operators sc);
              sc_results := sc_results sc |}
    end
  else Ok sc.

(** The allocator call of a loop body, with the state it leaves. *)
Definition call_allocator (sc : Sched) (workplace : Workplace)
    : outcome (AssignmentResult * Sched) :=
  r ← optimize_workplace self workplace (sc_operator_usage sc) (sc_shift_used_names sc);
  Ok (r.1.1,
      {| sc_operator_usage := r.1.2;
         sc_shift_used_names := r.2;
         sc_control_operators := sc_control_operators sc;
         sc_dormitory_operators := sc_dormitory_operators sc;
         sc_results := sc_results sc ++ [r.1.1] |}).

(** The body of the loops over trading and over manufacturing stations. *)
Definition optimize_station (acc : list Room * Sched) (workplace : Workplace)
    : outcome (list Room * Sched) :=
  r ← call_allocator acc.2 workplace;
  let room := room_of r.1 (Some (wp_current_product workplace)) in
  sc1 ← for_each admit_control (res_control_center_requirements r.1) r.2;
  sc2 ← for_each admit_dormitory (res_dormitory_requirements r.1) sc1;
  Ok (acc.1 ++ [room], sc2).

(** The body of the loop over power stations, and the meeting room. *)
Definition optimize_plain (acc : list Room * Sched) (workplace : Workplace)
    : outcome (list Room * Sched) :=
  r ← call_allocator acc.2 workplace;
  Ok (acc.1 ++ [room_of r.1 None], r.2).

Definition shift_start (usage : gmap string Z) : Sched :=
  {| sc_operator_usage := usage;
     sc_shift_used_names := ∅;
     sc_control_operators := [];
     sc_dormitory_operators := [];
     sc_results := [] |}.

(** One pass of [for shift in range(3)]: the plan, and the locals at the
    end of the pass. *)
Definition run_shift (fiammetta_enable : bool) (shift : nat) (usage : gmap string Z)
    : outcome (Plan * Sched) :=
  let targets := fiammetta_targets self in
  let current_target :=
    match targets with
    | [] => ""
    | _ => default "" (targets !! (shift mod length targets)%nat)
    end in
  tr ← for_each optimize_station (trading_stations (workplaces self))
         ([], shift_start usage);
  mf ← for_each optimize_station (manufacturing_stations (workplaces self))
         ([], tr.2);
  let control := list_of_set (sc_control_operators mf.2) in
  let dormitory :=
    match sc_dormitory_operators mf.2 with
    | [] => replicate 4 None
    | _ => Some (list_of_set (sc_dormitory_operators mf.2)) :: replicate 3 None
    end in
  meeting_wp ← match meeting_room (workplaces self) with
               | w :: _ => Ok w
               | [] => Raise IndexError
               end;
  mt ← call_allocator mf.2 meeting_wp;
  pw ← for_each optimize_plain (power_station (workplaces self)) ([], mt.2);
  Ok ({| plan_name := "第" +:+ pretty (S shift) +:+ "班";
         plan_description := "自动优化第" +:+ pretty (S shift) +:+ "班";
         plan_Fiammetta_enable := fiammetta_enable;
         plan_Fiammetta_target := current_target;
         plan_trading := tr.1;
         plan_manufacture := mf.1;
         plan_control := control;
         plan_power := pw.1;
         plan_meeting := room_of mt.1 None;
         plan_dormitory := dormitory |},
      pw.2).

(** The three passes: the plans, the locals of each pass at its end, and
    [operator_usage] after the last pass. *)
Definition run_shifts (fiammetta_enable : bool) (usage : gmap string Z)
    : outcome (list (Plan * Sched) * gmap string Z) :=
  for_each (fun acc shift =>
    r ← run_shift fiammetta_enable shift acc.2;
    Ok (acc.1 ++ [r], sc_operator_usage r.2)) (range 3) ([], usage).
End scheduler.

(** The part of [get_optimal_assignments] before the loop over shifts:
    the quota-boost targets and the products of the period are stored in
    [self]. *)
Definition prepare (self : WorkplaceOptimizer)
    (product_requirements : option ProductRequirements)
    : outcome (WorkplaceOptimizer * bool) :=
  let product_requirements :=
    match product_requirements with
    | Some p => p
    | None => default default_product_requirements
                (cfg_product_requirements (config_data self))
    end in
  let fiammetta_config :=
    default (mkFiammettaConfig (Some false)) (cfg_Fiammetta (config_data self)) in
  let fiammetta_enable := default false (fc_enable fiammetta_config) in
  let fiammetta_available :=
    if fiammetta_enable then check_fiammetta_available self else false in
  targets ← (if fiammetta_available then select_fiammetta_targets self else Ok []);
  let fiammetta_enable :=
    match targets with [] => false | _ => fiammetta_enable end in
  trading ← getitem product_requirements "trading_stations";
  let trading_products := expand_products trading in
  manufacturing ← getitem product_requirements "manufacturing_stations";
  let manufacturing_products := expand_products manufacturing in
  Ok ({| efficiency_data := efficiency_data self;
         config_data := config_data self;
         operators := operators self;
         efficiency_rules := efficiency_rules self;
         workplaces :=
           {| trading_stations :=
                set_current_products trading_products
                  (trading_stations (workplaces self));
              manufacturing_stations :=
                set_current_products manufacturing_products
                  (manufacturing_stations (workplaces self));
              meeting_room := meeting_room (workplaces self);
              power_station := power_station (workplaces self) |};
         fiammetta_targets := targets |},
      fiammetta_enable).

(** [{op.name: 0 for op in self.get_available_operators()}] *)
Definition initial_usage (self : WorkplaceOptimizer) : gmap string Z :=
  foldl (fun d op => <[op_name op := 0%Z]> d) ∅ (get_available_operators self).

(** The whole cycle: [self] as the call leaves it, the plan and the
    locals of each pass, and the usage budget at [return]. *)
Definition run_cycle (list_of_set : list string -> list string)
    (self : WorkplaceOptimizer) (product_requirements : option ProductRequirements)
    : outcome (WorkplaceOptimizer * list (Plan * Sched) * gmap string Z) :=
  p ← prepare self product_requirements;
  r ← run_shifts list_of_set p.1 p.2 (initial_usage p.1);
  Ok (p.1, r.1, r.2).

(** The ["plans"] of the dict that [get_optimal_assignments] returns. *)
Definition get_optimal_assignments (list_of_set : list string -> list string)
    (self : WorkplaceOptimizer) (product_requirements : option ProductRequirements)
    : outcome (list Plan) :=
  r ← run_cycle list_of_set self product_requirements;
  Ok (List.map fst r.1.2).

(** * Example inputs *)

Definition rule_data (combo : list string) (efficiency : Q) : RuleData :=
  mkRuleData (Some combo) (Some efficiency) None None None None None None.

Definition operator (name : string) (elite : Z) (own : bool) : Operator :=
  mkOperator name name elite 1 own 0 5.

Definition meeting_data : WorkplaceData := mkWorkplaceData "meeting_room" "会客室" 1 100.

Definition config (trading manufacturing : Z) (fiammetta_enable : bool) : ConfigData :=
  mkConfigData (Some trading) (Some manufacturing) None
    (Some (mkFiammettaConfig (Some fiammetta_enable))).

(** One trading station; the only rule belongs to the system ["S"] and
    asks for [D] in a dormitory; [D] is in the catalog but not owned. *)
Definition unmet_dormitory_data : EfficiencyData :=
  mkEfficiencyData
    (Some [("trading_station",
            [("S", SysList [mkRuleData (Some ["A"]) (Some 10%Q) None (Some ["D"])
                              None None None None])])])
    (mkWorkplacesData [] [] meeting_data []).

Definition unmet_dormitory_operators : list Operator :=
  [operator "A" 0 true; operator "D" 0 false].

(** One trading station; the only rule has an empty combination. *)
Definition empty_combo_data : EfficiencyData :=
  mkEfficiencyData (Some [("trading_station", [("S", SysList [rule_data [] 10])])])
    (mkWorkplacesData [] [] meeting_data []).

(** One trading station and one [apply_each] rule over [A] and [B], filed
    under the system name [key]. *)
Definition apply_each_data (key : string) : EfficiencyData :=
  mkEfficiencyData
    (Some [("trading_station",
            [(key, SysList [mkRuleData (Some ["A"; "B"]) (Some 10%Q) None None None
                              (Some true) None None])])])
    (mkWorkplacesData [] [] meeting_data []).

Definition apply_each_operators : list Operator :=
  [operator "A" 0 true; operator "B" 0 true].

(** One trading station; a two-operator rule of the system ["S"] worth 10
    and a single-operator generic rule worth 20. *)
Definition mixed_data : EfficiencyData :=
  mkEfficiencyData
    (Some [("trading_station",
            [("S", SysList [rule_data ["A"; "B"] 10]);
             ("通用", SysList [rule_data ["C"] 20])])])
    (mkWorkplacesData [] [] meeting_data []).

Definition mixed_operators : list Operator :=
  [operator "A" 0 true; operator "B" 0 true; operator "C" 0 true].

(** One trading and one manufacturing station with one slot each; the
    quota-boost mechanic is on and selects the one preferred operator
    that is owned at tier 2. *)
Definition boost_data : EfficiencyData :=
  mkEfficiencyData
    (Some [("trading_station",
            [("通用", SysList [rule_data ["W"] 100; rule_data ["巫恋"] 50])]);
           ("manufacturing_station", [("通用", SysList [rule_data ["巫恋"] 10])])])
    (mkWorkplacesData [mkWorkplaceData "" "" 1 100] [mkWorkplaceData "" "" 1 100]
       meeting_data []).

Definition boost_operators : list Operator :=
  [operator "菲亚梅塔" 2 true; operator "巫恋" 2 true; operator "W" 0 true].

(** One trading station; the only rule asks for two operators in the
    control center. *)
Definition control_data : EfficiencyData :=
  mkEfficiencyData
    (Some [("trading_station",
            [("通用", SysList [mkRuleData (Some ["A"]) (Some 10%Q) (Some ["C1"; "C2"])
                                 None None None None None])])])
    (mkWorkplacesData [] [] meeting_data []).

Definition control_operators : list Operator :=
  [operator "A" 0 true; operator "C1" 0 true; operator "C2" 0 true].

(** The optimizers that [init] builds from the example inputs (see
    [init_examples]). *)

Definition example_self (data : EfficiencyData) (operator_data : list Operator)
    (config_data : ConfigData) (rules : list OperatorEfficiency) : WorkplaceOptimizer :=
  {| efficiency_data := data;
     config_data := config_data;
     operators := load_operators operator_data;
     efficiency_rules := rules;
     workplaces := load_workplaces data
                     (default 3%Z (cfg_trading_stations_count config_data))
                     (default 3%Z (cfg_manufacturing_stations_count config_data));
     fiammetta_targets := [] |}.

Definition plain_rule (operators : list string) (workplace_type : string)
    (synergy : Q) (description : string) : OperatorEfficiency :=
  mkRule operators workplace_type 0 synergy description ∅ [] [] [] false 0 [].

Definition unmet_dormitory_rule : OperatorEfficiency :=
  mkRule ["A"] "trading_station" 0 10 "S - A" ∅ [] [mkRequirement "D" 0] [] false 0 [].

Definition unmet_dormitory_self : WorkplaceOptimizer :=
  example_self unmet_dormitory_data unmet_dormitory_operators (config 1 0 false)
    [unmet_dormitory_rule].

Definition empty_combo_self : WorkplaceOptimizer :=
  example_self empty_combo_data [] (config 1 0 false)
    [plain_rule [] "trading_station" 10 "S - "].

Definition apply_each_rule : OperatorEfficiency :=
  mkRule ["A"; "B"] "trading_station" 0 10 generic_single ∅ [] [] [] true 0 [].

Definition apply_each_self (key : string) : WorkplaceOptimizer :=
  example_self (apply_each_data key) apply_each_operators (config 1 0 false)
    [apply_each_rule].

Definition mixed_self : WorkplaceOptimizer :=
  example_self mixed_data mixed_operators (config 1 0 false)
    [plain_rule ["C"] "trading_station" 20 "通用 - C";
     plain_rule ["A"; "B"] "trading_station" 10 "S - A, B"].

Definition boost_self : WorkplaceOptimizer :=
  example_self boost_data boost_operators (config 1 1 true)
    [plain_rule ["W"] "trading_station" 100 "通用 - W";
     plain_rule ["巫恋"] "trading_station" 50 "通用 - 巫恋";
     plain_rule ["巫恋"] "manufacturing_station" 10 "通用 - 巫恋"].

Definition control_self : WorkplaceOptimizer :=
  example_self control_data control_operators (config 1 0 false)
    [mkRule ["A"] "trading_station" 0 10 "通用 - A" ∅
       [mkRequirement "C1" 0; mkRequirement "C2" 0] [] [] false 0 []].

(** One trading and one manufacturing station; each rule lists an
    operator more than once. *)
Definition repeated_data : EfficiencyData :=
  mkEfficiencyData
    (Some [("trading_station", [("通用", SysList [rule_data ["A"; "B"; "B"] 100])]);
           ("manufacturing_station", [("通用", SysList [rule_data ["A"; "A"; "A"] 100])])])
    (mkWorkplacesData [] [] meeting_data []).

Definition repeated_operators : list Operator :=
  [operator "A" 0 true; operator "B" 0 true].

Definition repeated_self : WorkplaceOptimizer :=
  example_self repeated_data repeated_operators (config 1 1 false)
    [plain_rule ["A"; "B"; "B"] "trading_station" 100 "通用 - A, B, B";
     plain_rule ["A"; "A"; "A"] "manufacturing_station" 100 "通用 - A, A, A"].

(** The first trading station, as [load_workplaces] names it, with three
    slots. *)
Definition trading_1 : Workplace := mkWorkplace "trading_1" "贸易站1" 3 100 [] "".

(** [P] holds of the value that [o] returns, if it returns one. *)
Definition on_Ok {A : Type} (o : outcome A) (P : A -> Prop) : Prop :=
  match o with
  | Ok a => P a
  | _ => True
  end.

(** * Properties *)

(** ** Arithmetic on efficiencies *)

Lemma Qltb_lt (a b : Q) : Qltb a b = true <-> (a < b)%Q.
Proof.
  unfold Qltb. rewrite negb_true_iff, <- not_true_iff_false, Qle_bool_iff.
  split; [apply Qnot_le_lt | apply Qlt_not_le].
Qed.


(** ** The stable descending sort *)

Section sort_reverse_facts.
Context {A : Type} (gt : A -> A -> bool).
Hypothesis gt_asym : forall x y, gt x y = true -> gt y x = false.
Hypothesis gt_negtrans : forall x y z, gt x y = false -> gt y z = false -> gt x z = false.

(** [x] may stand before [y]: the key of [y] is not greater. *)
Definition ge_of (x y : A) : Prop := gt y x = false.

Lemma insert_reverse_perm x l : insert_reverse gt x l ≡ₚ x :: l.
Proof.
  induction l as [|y l IH]; simpl; [done|].
  destruct (gt y x); [|done].
  rewrite IH. apply Permutation_swap.
Qed.

Lemma sort_reverse_perm l : sort_reverse gt l ≡ₚ l.
Proof.
  induction l as [|x l IH]; simpl; [done|].
  by rewrite insert_reverse_perm, IH.
Qed.

Lemma insert_reverse_sorted x l :
  StronglySorted ge_of l -> StronglySorted ge_of (insert_reverse gt x l).
Proof.
  induction l as [|y l IH]; simpl; intros Hs.
  - repeat constructor.
  - apply StronglySorted_cons in Hs as [Hy Hl].
    destruct (gt y x) eqn:Hyx.
    + apply StronglySorted_cons. split; [|by apply IH].
      rewrite insert_reverse_perm. constructor; [|done].
      by apply gt_asym.
    + apply StronglySorted_cons. split.
      * constructor; [done|].
        eapply Forall_impl; [exact Hy|]. intros z Hz.
        unfold ge_of in *. by eapply gt_negtrans.
      * by apply StronglySorted_cons.
Qed.

Lemma sort_reverse_sorted l : StronglySorted ge_of (sort_reverse gt l).
Proof.
  induction l as [|x l IH]; simpl; [constructor|].
  by apply insert_reverse_sorted.
Qed.

(** Elements that no key separates keep their order. *)
Lemma insert_reverse_stable (P : A -> bool) x l :
  (forall a b, P a = true -> P b = true -> gt a b = false) ->
  List.filter P (insert_reverse gt x l) = List.filter P (x :: l).
Proof.
  intros HP. induction l as [|y l IH]; [done|].
  simpl. destruct (gt y x) eqn:Hyx; [|done].
  simpl. rewrite IH. simpl.
  destruct (P y) eqn:Py, (P x) eqn:Px; try done.
  by rewrite (HP y x) in Hyx.
Qed.

Lemma sort_reverse_stable (P : A -> bool) l :
  (forall a b, P a = true -> P b = true -> gt a b = false) ->
  List.filter P (sort_reverse gt l) = List.filter P l.
Proof.
  intros HP. induction l as [|x l IH]; [done|].
  simpl. rewrite insert_reverse_stable by done. simpl. by rewrite IH.
Qed.
End sort_reverse_facts.

Lemma StronglySorted_weaken {A : Type} (R1 R2 : A -> A -> Prop) (l : list A) :
  (forall a b, R1 a b -> R2 a b) -> StronglySorted R1 l -> StronglySorted R2 l.
Proof.
  intros HR. induction 1 as [|x l Hl IH Hx]; constructor; [done|].
  eapply Forall_impl; [exact Hx|]. intros y. apply HR.
Qed.

(** ** The order on rule keys *)

(** [(a.priority, a.synergy_efficiency) >= (b.priority, b.synergy_efficiency)] *)
Definition rule_key_ge (a b : OperatorEfficiency) : Prop :=
  (rule_priority b < rule_priority a)%Z
  \/ (rule_priority a = rule_priority b
      /\ (rule_synergy_efficiency b <= rule_synergy_efficiency a)%Q).

(** Equal priority and equal synergy. *)
Definition rule_key_same (a b : OperatorEfficiency) : Prop :=
  rule_priority a = rule_priority b
  /\ (rule_synergy_efficiency a == rule_synergy_efficiency b)%Q.

Lemma rule_key_gt_true a b :
  rule_key_gt a b = true <->
  (rule_priority b < rule_priority a)%Z
  \/ (rule_priority a = rule_priority b
      /\ (rule_synergy_efficiency b < rule_synergy_efficiency a)%Q).
Proof.
  unfold rule_key_gt.
  rewrite orb_true_iff, andb_true_iff, Z.ltb_lt, Z.eqb_eq, Qltb_lt. tauto.
Qed.

Lemma rule_key_gt_false a b : rule_key_gt b a = false <-> rule_key_ge a b.
Proof.
  unfold rule_key_ge. rewrite <- not_true_iff_false, rule_key_gt_true. split.
  - intros Hn.
    destruct (Z.lt_trichotomy (rule_priority a) (rule_priority b)) as [H|[H|H]];
      [tauto| |by left].
    right. split; [done|]. apply Qnot_lt_le. intros Hlt. apply Hn. right. by split.
  - intros [H|[H1 H2]] [H'|[H1' H2']]; try lia.
    by apply Qlt_not_le in H2'.
Qed.

Lemma rule_key_eq_same a b : rule_key_eq a b = true <-> rule_key_same a b.
Proof.
  unfold rule_key_eq, rule_key_same.
  by rewrite andb_true_iff, Z.eqb_eq, Qeq_bool_iff.
Qed.

Lemma rule_key_gt_asym x y : rule_key_gt x y = true -> rule_key_gt y x = false.
Proof.
  rewrite rule_key_gt_true, rule_key_gt_false. unfold rule_key_ge.
  intros [H|[H1 H2]]; [by left|]. right. split; [done|]. by apply Qlt_le_weak.
Qed.

Lemma rule_key_gt_negtrans x y z :
  rule_key_gt x y = false -> rule_key_gt y z = false -> rule_key_gt x z = false.
Proof.
  rewrite !rule_key_gt_false. unfold rule_key_ge.
  intros [H|[H1 H2]] [H'|[H1' H2']]; try (left; lia).
  right. split; [congruence|]. by eapply Qle_trans.
Qed.

Lemma rule_key_same_not_gt r a b :
  rule_key_eq r a = true -> rule_key_eq r b = true -> rule_key_gt a b = false.
Proof.
  rewrite !rule_key_eq_same, rule_key_gt_false. unfold rule_key_same, rule_key_ge.
  intros [H1 H2] [H1' H2']. right. split; [congruence|].
  rewrite <- H2, <- H2'. apply Qle_refl.
Qed.

(** ** Outcomes and loops *)

Lemma bind_Ok {A B : Type} (m : outcome A) (f : A -> outcome B) (b : B) :
  m ≫= f = Ok b <-> exists a, m = Ok a /\ f a = Ok b.
Proof.
  destruct m as [a| |]; simpl; split; try (intros; discriminate).
  - intros H. by exists a.
  - by intros (? & [= <-] & H).
  - by intros (? & ? & _).
  - by intros (? & ? & _).
Qed.

Lemma bind_not_Timeout {A B : Type} (m : outcome A) (f : A -> outcome B) :
  m <> Timeout -> (forall a, m = Ok a -> f a <> Timeout) -> m ≫= f <> Timeout.
Proof. destruct m; simpl; intros H1 H2; [by apply H2|done|done]. Qed.

Ltac bind_inv H :=
  let a := fresh "r" in
  let Ha := fresh "E" in
  apply bind_Ok in H as (a & Ha & H).

(** Case analysis on the condition of the [if] at the head of [H]. *)
Ltac if_inv H Hc :=
  match type of H with
  | (if ?c then _ else _) = _ => destruct c eqn:Hc
  | (if ?c then _ else _) ≫= _ = _ => destruct c eqn:Hc
  end.

(** An invariant of the loop body is an invariant of the loop. *)
Lemma for_each_inv {A S : Type} (P : S -> Prop) (body : S -> A -> outcome S)
    (l : list A) (s s' : S) :
  (forall s x s', x ∈ l -> P s -> body s x = Ok s' -> P s') ->
  P s -> for_each body l s = Ok s' -> P s'.
Proof.
  revert s. induction l as [|x l IH]; simpl; intros s Hbody Hs H.
  - by injection H as <-.
  - bind_inv H. apply (IH r); [|by eapply Hbody; [left|..]|done].
    intros s1 y s2 Hy. apply Hbody. by right.
Qed.

(** A preorder that each pass of the body respects relates the state
    before the loop to the state after it. *)
Lemma for_each_rel {A S : Type} (R : S -> S -> Prop) (body : S -> A -> outcome S)
    (l : list A) (s s' : S) :
  (forall s, R s s) -> (forall s1 s2 s3, R s1 s2 -> R s2 s3 -> R s1 s3) ->
  (forall s x s', x ∈ l -> body s x = Ok s' -> R s s') ->
  for_each body l s = Ok s' -> R s s'.
Proof.
  intros Hrefl Htrans Hbody H.
  apply (for_each_inv (R s) body l s s'); [|done|done].
  intros s1 x s2 Hx Hs1 Hb. eapply Htrans; [done|]. by eapply Hbody.
Qed.


Lemma for_each_not_Timeout {A S : Type} (body : S -> A -> outcome S)
    (l : list A) (s : S) :
  (forall s x, body s x <> Timeout) -> for_each body l s <> Timeout.
Proof.
  intros Hb. revert s. induction l as [|x l IH]; simpl; intros s; [done|].
  apply bind_not_Timeout; [apply Hb|]. intros a _. apply IH.
Qed.

(** ** Dicts keyed by operator name *)

Lemma dict_by_name_key (l : list Operator) (n : string) (op : Operator) :
  dict_by_name l !! n = Some op -> op_name op = n.
Proof.
  unfold dict_by_name.
  assert (forall d : gmap string Operator,
            (forall n op, d !! n = Some op -> op_name op = n) ->
            forall n op, foldl (fun d op => <[op_name op := op]> d) d l !! n = Some op ->
                         op_name op = n) as Hgen.
  { clear n op. induction l as [|o l IH]; simpl; intros d Hd n op; [apply Hd|].
    apply IH. intros n' op'. rewrite lookup_insert_Some.
    intros [[<- <-]|[_ H]]; [done|by apply Hd]. }
  apply Hgen. intros n' op'. by rewrite lookup_empty.
Qed.

(** ** Candidates of the allocator *)

Lemma py_div_Ok (a q : Q) (n : nat) :
  py_div a n = Ok q -> (1 <= n)%nat /\ q = (a / inject_Z (Z.of_nat n))%Q.
Proof. destruct n; simpl; [done|]. intros [= <-]. split; [lia|done]. Qed.

Lemma filter_nil_Forall {A : Type} (f : A -> bool) (l : list A) :
  List.filter f l = [] -> Forall (fun x => f x = false) l.
Proof.
  induction l as [|x l IH]; simpl; [constructor|].
  destruct (f x) eqn:Hx; [done|]. intros H. constructor; auto.
Qed.

Lemma existsb_false_Forall {A : Type} (f : A -> bool) (l : list A) :
  existsb f l = false -> Forall (fun x => f x = false) l.
Proof.
  induction l as [|x l IH]; simpl; [constructor|].
  rewrite orb_false_iff. intros [H1 H2]. constructor; auto.
Qed.

Lemma group_append_elem (name : string) (rule r : OperatorEfficiency)
    (groups : list (string * list OperatorEfficiency)) (g : string * list OperatorEfficiency) :
  g ∈ group_append name rule groups -> r ∈ g.2 ->
  r = rule \/ exists g', g' ∈ groups /\ r ∈ g'.2.
Proof.
  induction groups as [|g0 groups IH]; simpl.
  - intros ->%list_elem_of_singleton. simpl. intros ->%list_elem_of_singleton. by left.
  - destruct (String.eqb g0.1 name).
    + intros [->|Hg]%elem_of_cons; simpl.
      * intros [Hr| ->%list_elem_of_singleton]%elem_of_app; [|by left].
        right. exists g0. split; [left|done].
      * intros Hr. right. exists g. split; [by right|done].
    + intros [->|Hg]%elem_of_cons Hr.
      * right. exists g0. split; [left|done].
      * destruct (IH Hg Hr) as [->|(g' & Hg' & Hr')]; [by left|].
        right. exists g'. split; [by right|done].
Qed.

Lemma assoc_get_elem {V : Type} (k : string) (d : list (string * V)) (v : V) :
  assoc_get k d = Some v -> exists k', (k', v) ∈ d.
Proof.
  induction d as [|[k' v'] d IH]; simpl; [done|].
  destruct (String.eqb k' k).
  - intros [= <-]. exists k'. left.
  - intros (k'' & H)%IH. exists k''. by right.
Qed.

Section allocator_facts.
Context (self : WorkplaceOptimizer) (workplace : Workplace).

Lemma all_rules_elem (r : OperatorEfficiency) :
  r ∈ all_rules self workplace -> r ∈ efficiency_rules self.
Proof.
  unfold all_rules. rewrite !list_elem_of_In, filter_In. tauto.
Qed.

Lemma system_groups_elem groups g r :
  system_groups self workplace = Ok groups -> g ∈ groups -> r ∈ g.2 ->
  r ∈ all_rules self workplace.
Proof.
  unfold system_groups. intros H Hg Hr. bind_inv H. injection H as <-.
  apply list_elem_of_In, in_map_iff in Hg as (g0 & <- & Hg0%list_elem_of_In).
  simpl in Hr.
  rewrite (sort_reverse_perm rule_key_gt (g0.2)) in Hr.
  revert g0 Hg0 Hr.
  refine (for_each_inv
            (fun gs => forall g0, g0 ∈ gs -> r ∈ g0.2 -> r ∈ all_rules self workplace)
            _ _ _ _ _ _ E).
  - intros gs rule gs' Hrule IH Hb g0 Hg0 Hr0. bind_inv Hb. injection Hb as <-.
    destruct (group_append_elem _ _ _ _ _ Hg0 Hr0) as [->|(g' & Hg' & Hr')]; [done|].
    by eapply IH.
  - intros g0 Hg0. by apply elem_of_nil in Hg0.
Qed.

(** What the search has checked about a candidate it keeps. *)
Definition cand_ok (st : Alloc) (c : Candidate) : Prop :=
  Forall (fun n => unavailable self workplace st n = false) (cand_required c)
  /\ (1 <= cand_slots_used c)%Z
  /\ cand_rule c ∈ efficiency_rules self
  /\ (cand_required c = rule_operators (cand_rule c) \/ exists n, cand_required c = [n]).

Definition best_ok (st : Alloc) (best : Best) : Prop :=
  forall c, best.1 = Some c -> cand_ok st c.

Lemma improve_ok st best q c :
  best_ok st best -> cand_ok st c -> best_ok st (improve best q c).
Proof.
  unfold improve. intros Hb Hc. destruct (Qltb best.2 q); [|done].
  by intros c' [= <-].
Qed.

Lemma best_ok_init st : best_ok st (None, (-1)%Q).
Proof. by intros c. Qed.

Lemma eval_system_rule_ok st rule best best' :
  rule ∈ efficiency_rules self -> best_ok st best ->
  eval_system_rule self workplace st rule best = Ok best' -> best_ok st best'.
Proof.
  unfold eval_system_rule. intros Hr Hb H.
  destruct (List.filter _ _) eqn:Hf; [|by injection H as <-].
  if_inv H Hs; [by injection H as <-|].
  bind_inv H.
  do 4 (let Hc := fresh in if_inv H Hc; [by injection H as <-|]).
  bind_inv H. injection H as <-. apply improve_ok; [done|].
  apply py_div_Ok in E0 as [Hlen _].
  split; [by apply filter_nil_Forall|]. simpl. split; [lia|]. split; [done|by left].
Qed.

Lemma eval_system_rules_ok st rules best best' :
  (forall r, r ∈ rules -> r ∈ efficiency_rules self) -> best_ok st best ->
  eval_system_rules self workplace st rules best = Ok best' -> best_ok st best'.
Proof.
  revert best. induction rules as [|rule rules IH]; simpl; intros best Hr Hb H.
  - by injection H as <-.
  - destruct (_ <=? _)%Z; [by injection H as <-|].
    bind_inv H. apply (IH r); [|eapply eval_system_rule_ok; eauto; apply Hr; left|done].
    intros r' Hr'. apply Hr. by right.
Qed.

Lemma unavailable_false st n :
  unavailable self workplace st n = false <->
  is_Some (op_by_name self !! n) /\ (n ∉ used_names st) /\ (n ∉ shift_used_names st)
  /\ (usage_of (operator_usage st) n < max_usage self workplace n)%Z.
Proof.
  unfold unavailable.
  rewrite !orb_false_iff, negb_false_iff, bool_decide_eq_true, !bool_decide_eq_false,
    Z.leb_gt. tauto.
Qed.

Lemma eval_generic_each_op_ok st rule best op_name best' :
  rule ∈ efficiency_rules self -> best_ok st best ->
  eval_generic_each_op self workplace st rule best op_name = Ok best' -> best_ok st best'.
Proof.
  unfold eval_generic_each_op. intros Hr Hb H.
  if_inv H Hu; [by injection H as <-|].
  bind_inv H. if_inv H Hc; [by injection H as <-|].
  injection H as <-. apply improve_ok; [done|].
  rewrite !orb_false_iff, negb_false_iff, bool_decide_eq_true, !bool_decide_eq_false,
    !Z.leb_gt in Hu.
  split; [|simpl; split; [lia|split; [done|right; by eexists]]].
  simpl. constructor; [|constructor]. apply unavailable_false. tauto.
Qed.

Lemma eval_generic_rule_ok st rule best best' :
  rule ∈ efficiency_rules self -> best_ok st best ->
  eval_generic_rule self workplace st rule best = Ok best' -> best_ok st best'.
Proof.
  unfold eval_generic_rule. intros Hr Hb H.
  if_inv H Hu; [by injection H as <-|].
  bind_inv H. if_inv H Hc; [by injection H as <-|].
  bind_inv H. injection H as <-. apply improve_ok; [done|].
  apply orb_false_iff in Hu as [Hu _]. apply py_div_Ok in E0 as [Hlen _].
  split; [by apply existsb_false_Forall|]. simpl. split; [lia|]. split; [done|by left].
Qed.

Lemma eval_generic_rules_ok st rules best best' :
  (forall r, r ∈ rules -> r ∈ efficiency_rules self) -> best_ok st best ->
  eval_generic_rules self workplace st rules best = Ok best' -> best_ok st best'.
Proof.
  revert best. induction rules as [|rule rules IH]; simpl; intros best Hr Hb H.
  - by injection H as <-.
  - destruct (_ <=? _)%Z; [by injection H as <-|].
    bind_inv H. apply (IH r); [intros r' Hr'; apply Hr; by right| |done].
    assert (rule ∈ efficiency_rules self) as Hrule by (apply Hr; left).
    destruct (rule_apply_each rule).
    + revert E. apply for_each_inv; [|done].
      intros b n b' _ Hb0. by apply eval_generic_each_op_ok.
    + by eapply eval_generic_rule_ok.
Qed.

Lemma first_pass_select_ok st best :
  first_pass_select self workplace st = Ok best -> best_ok st best.
Proof.
  unfold first_pass_select. intros H. bind_inv H. bind_inv H.
  assert (best_ok st r0) as Hr0.
  { revert E0. apply for_each_inv; [|apply best_ok_init].
    intros b g b' Hg Hb Hev. destruct (String.eqb _ _); [by injection Hev as <-|].
    revert Hev. apply eval_system_rules_ok; [|done].
    intros r' Hr'. eapply all_rules_elem, system_groups_elem; eauto. }
  revert H. apply eval_generic_rules_ok; [|done].
  intros r' Hr'. destruct (assoc_get generic r) as [rs|] eqn:Hg; simpl in Hr'.
  - apply assoc_get_elem in Hg as (k & Hg).
    eapply all_rules_elem, system_groups_elem; eauto.
  - by apply elem_of_nil in Hr'.
Qed.

Lemma eval_each_op_ok st rule best op_name best' :
  rule ∈ efficiency_rules self -> best_ok st best ->
  eval_each_op self workplace st rule best op_name = Ok best' -> best_ok st best'.
Proof.
  unfold eval_each_op. intros Hr Hb H.
  if_inv H Hu; [by injection H as <-|].
  bind_inv H. if_inv H Hc; [by injection H as <-|].
  injection H as <-. apply improve_ok; [done|].
  rewrite !orb_false_iff, negb_false_iff, bool_decide_eq_true, !bool_decide_eq_false,
    !Z.leb_gt in Hu.
  split; [|simpl; split; [lia|split; [done|right; by eexists]]].
  simpl. constructor; [|constructor]. apply unavailable_false. tauto.
Qed.

Lemma eval_normal_rule_ok st rule best best' :
  rule ∈ efficiency_rules self -> best_ok st best ->
  eval_normal_rule self workplace st rule best = Ok best' -> best_ok st best'.
Proof.
  unfold eval_normal_rule. intros Hr Hb H.
  if_inv H Hs; [by injection H as <-|].
  if_inv H Hu; [by injection H as <-|].
  bind_inv H. if_inv H Hc; [by injection H as <-|].
  bind_inv H. injection H as <-. apply improve_ok; [done|].
  apply py_div_Ok in E0 as [Hlen _].
  split; [by apply existsb_false_Forall|]. simpl. split; [lia|]. split; [done|by left].
Qed.

Lemma fill_select_ok st best :
  fill_select self workplace st = Ok best -> best_ok st best.
Proof.
  unfold fill_select. apply for_each_inv; [|apply best_ok_init].
  intros b rule b' Hrule%all_rules_elem Hb. destruct (rule_apply_each rule).
  - apply for_each_inv; [|done]. intros b0 n b1 _ Hb0. by apply eval_each_op_ok.
  - by apply eval_normal_rule_ok.
Qed.

Lemma accepted_ok st best c : best_ok st best -> accepted best = Some c -> cand_ok st c.
Proof.
  unfold accepted. intros Hb H. destruct best.1 as [c'|] eqn:Hc; [|done].
  destruct (Qltb 0 best.2); [|done]. injection H as <-. by apply Hb.
Qed.

(** *** Applying a candidate *)

Definition names_of (l : list Operator) : list string := op_name <$> l.

Definition rules_nodup : Prop :=
  Forall (fun r => NoDup (rule_operators r)) (efficiency_rules self).

Lemma usage_of_insert (u : gmap string Z) (n x : string) (v : Z) :
  usage_of (<[n := v]> u) x = if decide (x = n) then v else usage_of u x.
Proof.
  unfold usage_of. destruct (decide (x = n)) as [->|Hne].
  - by rewrite lookup_insert_eq.
  - by rewrite lookup_insert_ne.
Qed.

Lemma assign_ops_Ok required st st' :
  for_each (assign_op self) required st = Ok st' ->
  names_of (assigned_ops st') = names_of (assigned_ops st) ++ required
  /\ used_names st' = used_names st ∪ list_to_set required
  /\ shift_used_names st' = shift_used_names st ∪ list_to_set required
  /\ (forall x, usage_of (operator_usage st') x
                = (usage_of (operator_usage st) x
                   + Z.of_nat (count_occ String.string_dec required x))%Z)
  /\ remaining_slots st' = remaining_slots st
  /\ total_synergy st' = total_synergy st
  /\ applied_combinations st' = applied_combinations st
  /\ applied_control_center_reqs st' = applied_control_center_reqs st
  /\ applied_dormitory_reqs st' = applied_dormitory_reqs st
  /\ applied_power_station_reqs st' = applied_power_station_reqs st.
Proof.
  revert st. induction required as [|n required IH]; simpl; intros st H.
  - injection H as <-. rewrite app_nil_r. repeat split; try set_solver. intros x. lia.
  - bind_inv H. unfold assign_op in E.
    destruct (op_by_name self !! n) as [op|] eqn:Hop; [|done].
    destruct (operator_usage st !! n) as [c|] eqn:Hc; [|done].
    injection E as <-.
    destruct (IH _ H) as (H1 & H2 & H3 & H4 & H5 & H6 & H7 & H8 & H9 & H10).
    simpl in *. repeat split; try done.
    + rewrite H1. unfold names_of. rewrite fmap_app. simpl.
      rewrite (dict_by_name_key _ _ _ Hop). by rewrite <- app_assoc.
    + rewrite H2. set_solver.
    + rewrite H3. set_solver.
    + intros x. rewrite H4, usage_of_insert.
      destruct (String.string_dec n x) as [->|Hne].
      * rewrite decide_True by done. unfold usage_of. rewrite Hc. simpl. lia.
      * rewrite decide_False by done. lia.
Qed.

Lemma apply_candidate_Ok st c st' :
  apply_candidate self st c = Ok st' ->
  names_of (assigned_ops st') = names_of (assigned_ops st) ++ cand_required c
  /\ used_names st' = used_names st ∪ list_to_set (cand_required c)
  /\ shift_used_names st' = shift_used_names st ∪ list_to_set (cand_required c)
  /\ (forall x, usage_of (operator_usage st') x
                = (usage_of (operator_usage st) x
                   + Z.of_nat (count_occ String.string_dec (cand_required c) x))%Z)
  /\ remaining_slots st' = (remaining_slots st - cand_slots_used c)%Z
  /\ total_synergy st' = (total_synergy st + cand_efficiency c)%Q
  /\ (exists d, applied_combinations st' = applied_combinations st ++ [d])
  /\ applied_control_center_reqs st'
     = applied_control_center_reqs st ++ rule_requires_control_center (cand_rule c)
  /\ applied_dormitory_reqs st'
     = applied_dormitory_reqs st ++ rule_requires_dormitory (cand_rule c).
Proof.
  unfold apply_candidate. intros H. bind_inv H. injection H as <-.
  destruct (assign_ops_Ok _ _ _ E) as (H1 & H2 & H3 & H4 & H5 & H6 & H7 & H8 & H9 & H10).
  simpl. rewrite H5, H6, H7, H8, H9. repeat split; try done. by eexists.
Qed.

(** What one allocator call may change in the shared objects: it appends
    [names] to the assigned operators, adds them to both sets, and counts
    each occurrence in the usage budget; every name was outside both sets
    and under its cap when it was chosen. *)
Definition grows (st st' : Alloc) : Prop :=
  exists names,
    names_of (assigned_ops st') = names_of (assigned_ops st) ++ names
    /\ used_names st' = used_names st ∪ list_to_set names
    /\ shift_used_names st' = shift_used_names st ∪ list_to_set names
    /\ Forall (fun x => (x ∉ used_names st) /\ (x ∉ shift_used_names st)
                        /\ (usage_of (operator_usage st) x
                            < max_usage self workplace x)%Z) names
    /\ (forall x, usage_of (operator_usage st') x
                  = (usage_of (operator_usage st) x
                     + Z.of_nat (count_occ String.string_dec names x))%Z)
    /\ (rules_nodup -> NoDup names).

Lemma grows_refl st : grows st st.
Proof.
  exists []. rewrite app_nil_r. repeat split; try set_solver.
  - intros x. simpl. lia.
  - intros _. constructor.
Qed.

Lemma grows_trans st1 st2 st3 : grows st1 st2 -> grows st2 st3 -> grows st1 st3.
Proof.
  intros (n1 & A1 & U1 & S1 & F1 & C1 & D1) (n2 & A2 & U2 & S2 & F2 & C2 & D2).
  exists (n1 ++ n2). repeat split.
  - by rewrite A2, A1, app_assoc.
  - rewrite U2, U1. set_solver.
  - rewrite S2, S1. set_solver.
  - apply Forall_app. split; [done|].
    eapply Forall_impl; [exact F2|]. intros x (Hu & Hs & Hc).
    rewrite U1 in Hu. rewrite S1 in Hs. rewrite C1 in Hc.
    repeat split; [set_solver|set_solver|lia].
  - intros x. rewrite C2, C1, count_occ_app. lia.
  - intros Hn. apply NoDup_app. split; [by apply D1|]. split; [|by apply D2].
    intros x Hx1 Hx2. rewrite Forall_forall in F2.
    destruct (F2 x Hx2) as (Hu & _). rewrite U1 in Hu. set_solver.
Qed.

Lemma apply_candidate_grows st c st' :
  cand_ok st c -> apply_candidate self st c = Ok st' -> grows st st'.
Proof.
  intros (Hav & _ & Hrule & Hreq) H.
  destruct (apply_candidate_Ok _ _ _ H) as (H1 & H2 & H3 & H4 & _).
  exists (cand_required c). repeat split; try done.
  - eapply Forall_impl; [exact Hav|]. intros x Hx.
    apply unavailable_false in Hx. tauto.
  - intros Hn. destruct Hreq as [->|[n ->]].
    + unfold rules_nodup in Hn. rewrite Forall_forall in Hn. by apply Hn.
    + apply NoDup_singleton.
Qed.

(** *** The remaining-slot loop *)

Lemma fill_step_Some st st' :
  fill_step self workplace st = Ok (Some st') ->
  exists c, cand_ok st c /\ apply_candidate self st c = Ok st'.
Proof.
  unfold fill_step. intros H. bind_inv H.
  destruct (accepted r) as [c|] eqn:Hc; [|done].
  bind_inv H. injection H as <-. exists c. split; [|done].
  eapply accepted_ok; [|done]. by apply fill_select_ok.
Qed.

Lemma fill_step_decreases st st' :
  fill_step self workplace st = Ok (Some st') ->
  (remaining_slots st' < remaining_slots st)%Z.
Proof.
  intros (c & (_ & Hs & _) & H)%fill_step_Some.
  destruct (apply_candidate_Ok _ _ _ H) as (_ & _ & _ & _ & -> & _). lia.
Qed.

Lemma fill_step_grows st st' :
  fill_step self workplace st = Ok (Some st') -> grows st st'.
Proof.
  intros (c & Hc & H)%fill_step_Some. by eapply apply_candidate_grows.
Qed.

Lemma fill_loop_grows fuel st st' :
  fill_loop self workplace fuel st = Ok st' -> grows st st'.
Proof.
  revert st. induction fuel as [|fuel IH]; simpl; intros st H.
  - destruct (0 <? remaining_slots st)%Z; [done|]. injection H as <-. apply grows_refl.
  - destruct (0 <? remaining_slots st)%Z; [|injection H as <-; apply grows_refl].
    bind_inv H. destruct r as [st1|]; [|injection H as <-; apply grows_refl].
    eapply grows_trans; [by apply fill_step_grows|by apply IH].
Qed.

Lemma op_objs_of_not_Timeout l : op_objs_of self l <> Timeout.
Proof.
  unfold op_objs_of. apply for_each_not_Timeout. intros ? ?. by case_match.
Qed.

Lemma py_div_not_Timeout a n : py_div a n <> Timeout.
Proof. by destruct n. Qed.

Ltac not_Timeout :=
  repeat first
    [ done
    | apply op_objs_of_not_Timeout
    | apply py_div_not_Timeout
    | apply bind_not_Timeout; [|intros ? _]
    | match goal with
      | |- (if ?c then _ else _) <> Timeout => destruct c
      | |- match ?x with _ => _ end <> Timeout => destruct x
      end ].

Lemma apply_candidate_not_Timeout st c : apply_candidate self st c <> Timeout.
Proof.
  unfold apply_candidate. apply bind_not_Timeout; [|done].
  apply for_each_not_Timeout. intros s x. unfold assign_op. not_Timeout.
Qed.

Lemma fill_select_not_Timeout st : fill_select self workplace st <> Timeout.
Proof.
  unfold fill_select. apply for_each_not_Timeout.
  intros b rule. destruct (rule_apply_each rule).
  - apply for_each_not_Timeout. intros b0 n. unfold eval_each_op. not_Timeout.
  - unfold eval_normal_rule. not_Timeout.
Qed.

Lemma fill_step_not_Timeout st : fill_step self workplace st <> Timeout.
Proof.
  unfold fill_step. apply bind_not_Timeout; [apply fill_select_not_Timeout|].
  intros b _. destruct (accepted b); [|done].
  apply bind_not_Timeout; [apply apply_candidate_not_Timeout|done].
Qed.

Lemma fill_loop_not_Timeout fuel st :
  (Z.to_nat (remaining_slots st) <= fuel)%nat ->
  fill_loop self workplace fuel st <> Timeout.
Proof.
  revert st. induction fuel as [|fuel IH]; simpl; intros st Hf.
  - destruct (0 <? remaining_slots st)%Z eqn:Hr; [|done].
    apply Z.ltb_lt in Hr. lia.
  - destruct (0 <? remaining_slots st)%Z eqn:Hr; [|done].
    apply Z.ltb_lt in Hr.
    apply bind_not_Timeout; [apply fill_step_not_Timeout|].
    intros [st1|] Hs; [|done].
    apply IH. apply fill_step_decreases in Hs. lia.
Qed.

(** *** One allocator call *)

Lemma first_pass_grows st st' : first_pass self workplace st = Ok st' -> grows st st'.
Proof.
  unfold first_pass. intros H. bind_inv H.
  destruct (accepted r) as [c|] eqn:Hc; [|injection H as <-; apply grows_refl].
  eapply apply_candidate_grows; [|done].
  eapply accepted_ok; [|done]. by apply first_pass_select_ok.
Qed.

Lemma fill_remaining_grows st st' :
  fill_remaining self workplace st = Ok st' -> grows st st'.
Proof.
  unfold fill_remaining, optimize_workplace_recursive. intros H.
  destruct (0 <? remaining_slots st)%Z; [|injection H as <-; apply grows_refl].
  bind_inv H. injection H as <-.
  apply fill_loop_grows in E as (names & A & U & S & F & C & D).
  exists names. simpl in *. rewrite app_nil_r. done.
Qed.

(** The contract of [optimize_workplace] on the shared usage budget and
    exclusivity set. *)
Lemma optimize_workplace_spec usage shift_used res usage' shift_used' :
  optimize_workplace self workplace usage shift_used = Ok (res, usage', shift_used') ->
  res_workplace res = workplace
  /\ shift_used' = shift_used ∪ list_to_set (names_of (res_optimal_operators res))
  /\ Forall (fun x => (x ∉ shift_used)
                      /\ (usage_of usage x < max_usage self workplace x)%Z)
            (names_of (res_optimal_operators res))
  /\ (forall x, usage_of usage' x
                = (usage_of usage x
                   + Z.of_nat (count_occ String.string_dec
                                 (names_of (res_optimal_operators res)) x))%Z)
  /\ (rules_nodup -> NoDup (names_of (res_optimal_operators res))).
Proof.
  unfold optimize_workplace. intros H. bind_inv H. bind_inv H.
  injection H as <- <- <-.
  apply first_pass_grows in E. apply fill_remaining_grows in E0.
  destruct (grows_trans _ _ _ E E0) as (names & A & U & S & F & C & D).
  simpl in *. subst names. repeat split; try done.
  eapply Forall_impl; [exact F|]. simpl. tauto.
Qed.

Lemma max_usage_bound x :
  (max_usage self workplace x <= 3)%Z
  /\ ((2 < max_usage self workplace x)%Z ->
      x ∈ fiammetta_targets self /\ get_workplace_type workplace = trading_station).
Proof.
  unfold max_usage, workplace_type.
  destruct (bool_decide _ && _) eqn:Hc; [|lia].
  apply andb_true_iff in Hc as [Ht%bool_decide_eq_true He%String.eqb_eq]. split; [lia|done].
Qed.

(** Outside the trading category the cap is 2 for every operator: a call
    places no operator that already counts 2. *)
Lemma relaxed_cap_needs_trading usage shift_used res usage' shift_used' x :
  optimize_workplace self workplace usage shift_used = Ok (res, usage', shift_used') ->
  get_workplace_type workplace <> trading_station ->
  x ∈ names_of (res_optimal_operators res) -> (usage_of usage x < 2)%Z.
Proof.
  intros H Hty Hx. apply optimize_workplace_spec in H as (_ & _ & Hf & _).
  rewrite Forall_forall in Hf. destruct (Hf x Hx) as [_ Hlt].
  destruct (max_usage_bound x) as [_ Hm].
  destruct (Z.lt_ge_cases 2 (max_usage self workplace x)) as [Hgt|Hle]; [|lia].
  by destruct (Hm Hgt).
Qed.

(** *** Synergy is earned by applied rules only *)

Definition quiet (st : Alloc) : Prop :=
  applied_combinations st = [] -> (total_synergy st == 0)%Q.

Lemma apply_candidate_quiet st c st' :
  apply_candidate self st c = Ok st' -> quiet st'.
Proof.
  intros H. destruct (apply_candidate_Ok _ _ _ H) as (_ & _ & _ & _ & _ & _ & [d Hd] & _).
  intros Hnil. rewrite Hd in Hnil. by destruct (applied_combinations st).
Qed.

Lemma fill_loop_quiet fuel st st' :
  quiet st -> fill_loop self workplace fuel st = Ok st' -> quiet st'.
Proof.
  revert st. induction fuel as [|fuel IH]; simpl; intros st Hq H.
  - destruct (0 <? remaining_slots st)%Z; [done|]. by injection H as <-.
  - destruct (0 <? remaining_slots st)%Z; [|by injection H as <-].
    bind_inv H. destruct r as [st1|]; [|by injection H as <-].
    apply (IH st1); [|done].
    apply fill_step_Some in E as (c & _ & E). by eapply apply_candidate_quiet.
Qed.

Lemma first_pass_quiet st st' :
  quiet st -> first_pass self workplace st = Ok st' -> quiet st'.
Proof.
  unfold first_pass. intros Hq H. bind_inv H.
  destruct (accepted r); [by eapply apply_candidate_quiet|by injection H as <-].
Qed.

Lemma fill_remaining_quiet st st' :
  quiet st -> fill_remaining self workplace st = Ok st' -> quiet st'.
Proof.
  unfold fill_remaining, optimize_workplace_recursive. intros Hq H.
  destruct (0 <? remaining_slots st)%Z; [|by injection H as <-].
  bind_inv H. injection H as <-.
  apply fill_loop_quiet in E; [|by intros _].
  intros Hnil. simpl in *. apply app_eq_nil in Hnil as [H1 H2].
  rewrite (Hq H1), (E H2). reflexivity.
Qed.

(** *** The loop ends where the source says it does *)

Lemma fill_loop_exit fuel st st' :
  fill_loop self workplace fuel st = Ok st' ->
  (remaining_slots st' <= 0)%Z \/ fill_step self workplace st' = Ok None.
Proof.
  revert st. induction fuel as [|fuel IH]; simpl; intros st H.
  - destruct (0 <? remaining_slots st)%Z eqn:Hr; [done|].
    injection H as <-. left. by apply Z.ltb_ge.
  - destruct (0 <? remaining_slots st)%Z eqn:Hr;
      [|injection H as <-; left; by apply Z.ltb_ge].
    bind_inv H. destruct r as [st1|]; [by apply (IH st1)|].
    injection H as <-. by right.
Qed.

(** *** The loop raises nothing on well-formed rules *)

Definition rules_nonempty : Prop :=
  forall r, r ∈ efficiency_rules self -> rule_operators r <> [].

(** Every owned operator has an entry in the usage budget. *)
Definition usage_keys (st : Alloc) : Prop :=
  forall n, is_Some (op_by_name self !! n) -> is_Some (operator_usage st !! n).

Lemma for_each_Ok {A S : Type} (P : S -> Prop) (body : S -> A -> outcome S)
    (l : list A) (s : S) :
  (forall s x, x ∈ l -> P s -> exists s', body s x = Ok s' /\ P s') ->
  P s -> exists s', for_each body l s = Ok s' /\ P s'.
Proof.
  revert s. induction l as [|x l IH]; simpl; intros s Hb Hs; [by exists s|].
  destruct (Hb s x) as (s1 & -> & Hs1); [left|done|]. simpl.
  apply IH; [|done]. intros s2 y Hy. apply Hb. by right.
Qed.

Lemma op_objs_of_Ok l :
  Forall (fun n => is_Some (op_by_name self !! n)) l ->
  exists objs, op_objs_of self l = Ok objs.
Proof.
  intros Hl. unfold op_objs_of.
  destruct (for_each_Ok (fun _ => True)
              (fun acc op_name => match op_by_name self !! op_name with
                                  | Some op => Ok (acc ++ [op])
                                  | None => Raise (KeyError op_name)
                                  end) l []) as (objs & H & _); [|done|by exists objs].
  intros acc n Hn _. rewrite Forall_forall in Hl.
  destruct (Hl n Hn) as [op ->]. by eexists.
Qed.

Lemma eval_each_op_Ok st rule best n :
  exists best', eval_each_op self workplace st rule best n = Ok best'.
Proof.
  unfold eval_each_op.
  destruct (_ || _ || _ || _) eqn:Hu; [by eexists|].
  rewrite !orb_false_iff, negb_false_iff, bool_decide_eq_true in Hu.
  destruct Hu as [[[_ _] [op ->]] _]. simpl.
  destruct (_ || _); by eexists.
Qed.

Lemma eval_normal_rule_Ok st rule best :
  rule_operators rule <> [] ->
  exists best', eval_normal_rule self workplace st rule best = Ok best'.
Proof.
  unfold eval_normal_rule. intros Hne.
  destruct (_ <? _)%Z; [by eexists|].
  destruct (existsb _ _) eqn:Hu; [by eexists|].
  apply existsb_false_Forall in Hu.
  destruct (op_objs_of_Ok (rule_operators rule)) as [objs ->].
  { eapply Forall_impl; [exact Hu|]. intros n Hn. apply unavailable_false in Hn. tauto. }
  simpl. destruct (_ || _); [by eexists|].
  destruct (rule_operators rule); [done|]. simpl. by eexists.
Qed.

Lemma fill_select_Ok st :
  rules_nonempty -> exists best, fill_select self workplace st = Ok best.
Proof.
  intros Hne. unfold fill_select.
  destruct (for_each_Ok (fun _ => True)
              (fun best rule =>
                 if rule_apply_each rule
                 then for_each (eval_each_op self workplace st rule) (rule_operators rule) best
                 else eval_normal_rule self workplace st rule best)
              (all_rules self workplace) (None, (-1)%Q)) as (b & H & _);
    [|done|by exists b].
  intros best rule Hrule%all_rules_elem _. destruct (rule_apply_each rule).
  - apply for_each_Ok; [|done]. intros b n _ _.
    destruct (eval_each_op_Ok st rule b n) as [b' ->]. by eexists.
  - destruct (eval_normal_rule_Ok st rule best) as [b' ->]; [by apply Hne|by eexists].
Qed.

Lemma apply_candidate_keys st c :
  cand_ok st c -> usage_keys st ->
  exists st', apply_candidate self st c = Ok st' /\ usage_keys st'.
Proof.
  intros (Hav & _) Hk. unfold apply_candidate.
  assert (Forall (fun n => is_Some (op_by_name self !! n)) (cand_required c)) as Hop.
  { eapply Forall_impl; [exact Hav|]. intros n Hn. apply unavailable_false in Hn. tauto. }
  destruct (for_each_Ok usage_keys (assign_op self) (cand_required c) st)
    as (st1 & -> & Hk1); [|done|].
  - intros s n Hn Hs. unfold assign_op. rewrite Forall_forall in Hop.
    destruct (Hop n Hn) as [op Hop']. rewrite Hop'.
    destruct (Hs n) as [cnt ->]; [by eexists|].
    eexists. split; [done|]. intros m Hm. simpl.
    rewrite lookup_insert_is_Some. destruct (decide (n = m)); [by left|right].
    split; [done|]. by apply Hs.
  - simpl. eexists. split; [done|]. done.
Qed.

Lemma fill_loop_Ok fuel st :
  rules_nonempty -> usage_keys st -> (Z.to_nat (remaining_slots st) <= fuel)%nat ->
  exists st', fill_loop self workplace fuel st = Ok st'.
Proof.
  intros Hne. revert st. induction fuel as [|fuel IH]; simpl; intros st Hk Hf.
  - destruct (0 <? remaining_slots st)%Z eqn:Hr; [|by eexists].
    apply Z.ltb_lt in Hr. lia.
  - destruct (0 <? remaining_slots st)%Z eqn:Hr; [|by eexists].
    apply Z.ltb_lt in Hr. unfold fill_step.
    destruct (fill_select_Ok st Hne) as [best Hb]. rewrite Hb. simpl.
    destruct (accepted best) as [c|] eqn:Hc; simpl; [|by eexists].
    assert (cand_ok st c) as Hok by (eapply accepted_ok; [by apply fill_select_ok|done]).
    destruct (apply_candidate_keys st c Hok Hk) as (st1 & Ha & Hk1). rewrite Ha. simpl.
    apply IH; [done|].
    destruct (apply_candidate_Ok _ _ _ Ha) as (_ & _ & _ & _ & -> & _).
    destruct Hok as (_ & Hs & _). lia.
Qed.

(** *** The allocator never runs out of passes *)

Lemma first_pass_select_not_Timeout st : first_pass_select self workplace st <> Timeout.
Proof.
  unfold first_pass_select, system_groups.
  apply bind_not_Timeout.
  - apply bind_not_Timeout; [|done]. apply for_each_not_Timeout.
    intros gs rule. unfold system_name_of, require_key. not_Timeout.
  - intros groups _. apply bind_not_Timeout.
    + apply for_each_not_Timeout. intros b g. destruct (String.eqb _ _); [done|].
      generalize b. induction g.2 as [|rule rules IH]; simpl; intros b0; [done|].
      destruct (_ <=? _)%Z; [done|]. apply bind_not_Timeout; [|intros; apply IH].
      unfold eval_system_rule. not_Timeout.
    + intros b _. generalize b.
      induction (default [] (assoc_get generic groups)) as [|rule rules IH];
        simpl; intros b0; [done|].
      destruct (_ <=? _)%Z; [done|]. apply bind_not_Timeout; [|intros; apply IH].
      destruct (rule_apply_each rule).
      * apply for_each_not_Timeout. intros b1 n. unfold eval_generic_each_op. not_Timeout.
      * unfold eval_generic_rule. not_Timeout.
Qed.

Lemma optimize_workplace_not_Timeout usage shift_used :
  optimize_workplace self workplace usage shift_used <> Timeout.
Proof.
  unfold optimize_workplace. apply bind_not_Timeout.
  - unfold first_pass. apply bind_not_Timeout; [apply first_pass_select_not_Timeout|].
    intros b _. destruct (accepted b); [apply apply_candidate_not_Timeout|done].
  - intros st1 _. apply bind_not_Timeout; [|done].
    unfold fill_remaining, optimize_workplace_recursive.
    destruct (_ <? _)%Z; [|done]. apply bind_not_Timeout; [|done].
    by apply fill_loop_not_Timeout.
Qed.

End allocator_facts.

(** ** The scheduler's invariants *)

Definition result_names (r : AssignmentResult) : list string :=
  names_of (res_optimal_operators r).

(** The rooms of a plan that hold the result of an allocator call, in
    call order. *)
Definition plan_rooms (p : Plan) : list Room :=
  plan_trading p ++ plan_manufacture p ++ [plan_meeting p] ++ plan_power p.

(** [x] is a quota-boost target that some call placed in a workplace of
    the trading category. *)
Definition boosted (targets : list string) (results : list AssignmentResult)
    (x : string) : Prop :=
  x ∈ targets
  /\ exists r, r ∈ results
               /\ get_workplace_type (res_workplace r) = trading_station
               /\ x ∈ result_names r.

Definition usage_inv (targets : list string) (results : list AssignmentResult)
    (usage : gmap string Z) : Prop :=
  forall x, (usage_of usage x <= 3)%Z
            /\ ((2 < usage_of usage x)%Z -> boosted targets results x).

(** The exclusivity set holds exactly the names placed in this shift, and
    no two calls of the shift placed the same name. *)
Definition excl_inv (sc : Sched) : Prop :=
  sc_shift_used_names sc
  = list_to_set (concat (result_names <$> sc_results sc))
    ∪ list_to_set (sc_control_operators sc)
    ∪ list_to_set (sc_dormitory_operators sc)
  /\ forall i j r1 r2, (i < j)%nat ->
       sc_results sc !! i = Some r1 -> sc_results sc !! j = Some r2 ->
       forall x, x ∈ result_names r1 -> x ∉ result_names r2.

Lemma boosted_mono targets results results' x :
  (forall r, r ∈ results -> r ∈ results') ->
  boosted targets results x -> boosted targets results' x.
Proof. intros Hsub (Ht & r & Hr & Hty & Hx). split; [done|]. exists r. auto. Qed.

Lemma initial_usage_zero (self : WorkplaceOptimizer) (x : string) :
  usage_of (initial_usage self) x = 0%Z.
Proof.
  unfold initial_usage.
  assert (forall (l : list Operator) (d : gmap string Z),
            (forall x, usage_of d x = 0%Z) ->
            forall x, usage_of (foldl (fun d op => <[op_name op := 0%Z]> d) d l) x = 0%Z)
    as Hgen.
  { clear x. induction l as [|o l IH]; simpl; intros d Hd x; [done|].
    apply IH. intros y. rewrite usage_of_insert. by case_decide. }
  apply Hgen. intros y. unfold usage_of. by rewrite lookup_empty.
Qed.

Section scheduler_facts.
Context (self : WorkplaceOptimizer).

(** The invariant of one pass over the shifts; [prev] are the results of
    the passes before it. *)
Definition sched_inv (prev : list AssignmentResult) (sc : Sched) : Prop :=
  excl_inv sc
  /\ (rules_nodup self ->
      usage_inv (fiammetta_targets self) (prev ++ sc_results sc) (sc_operator_usage sc)).

Lemma call_allocator_inv prev sc workplace res sc' :
  sched_inv prev sc -> call_allocator self sc workplace = Ok (res, sc') ->
  sched_inv prev sc' /\ sc_results sc' = sc_results sc ++ [res].
Proof.
  intros [[Hset Hdisj] Huse] H. unfold call_allocator in H. bind_inv H.
  destruct r as [[res0 usage'] shift']. simpl in H. injection H as <- <-.
  apply optimize_workplace_spec in E as (Hw & Hs & Hf & Hc & Hn).
  split; [|done]. split; [split|]; simpl.
  - rewrite Hs, Hset, fmap_app, concat_app. simpl. rewrite app_nil_r.
    fold (result_names res0). set_solver.
  - intros i j r1 r2 Hij H1 H2 x Hx1 Hx2.
    apply lookup_app_Some in H2 as [H2|[Hlen H2]].
    + rewrite lookup_app_l in H1 by (apply lookup_lt_Some in H2; lia).
      exact (Hdisj i j r1 r2 Hij H1 H2 x Hx1 Hx2).
    + apply list_lookup_singleton_Some in H2 as [Hj <-].
      rewrite lookup_app_l in H1 by lia.
      rewrite Forall_forall in Hf. destruct (Hf x Hx2) as [Hx _]. apply Hx.
      rewrite Hset. apply elem_of_union_l, elem_of_union_l, elem_of_list_to_set.
      apply list_elem_of_In, in_concat. exists (result_names r1).
      split; apply list_elem_of_In; [|done].
      apply list_elem_of_fmap. exists r1. split; [done|]. by eapply list_elem_of_lookup_2.
  - intros Hnd. specialize (Huse Hnd). specialize (Hn Hnd). intros x.
    destruct (Huse x) as [Hle Hb]. rewrite Hc.
    assert (count_occ String.string_dec (names_of (res_optimal_operators res0)) x <= 1)%nat
      as Hcnt
      by exact (proj1 (NoDup_count_occ String.string_dec _) (proj1 (NoDup_ListNoDup _) Hn) x).
    destruct (decide (x ∈ result_names res0)) as [Hin|Hnin].
    + rewrite Forall_forall in Hf. destruct (Hf x Hin) as [_ Hlt].
      destruct (max_usage_bound self workplace x) as [Hm3 Hm2].
      split; [lia|]. intros Hgt. destruct Hm2 as [Ht Hty]; [lia|].
      split; [done|]. exists res0. split; [|by rewrite Hw].
      apply elem_of_app. right. apply elem_of_app. right. by left.
    + assert (count_occ String.string_dec (names_of (res_optimal_operators res0)) x = 0)%nat
        as -> by (apply count_occ_not_In; by rewrite <- list_elem_of_In).
      rewrite Z.add_0_r. split; [done|]. intros Hgt.
      eapply boosted_mono; [|by apply Hb]. intros r Hr.
      rewrite app_assoc. apply elem_of_app. by left.
Qed.

Lemma list_to_set_set_add (x : string) (l : list string) :
  list_to_set (C := gset string) (set_add x l) = {[x]} ∪ list_to_set l.
Proof.
  unfold set_add. case_bool_decide as Hx.
  - apply (elem_of_list_to_set (C := gset string)) in Hx. set_solver.
  - rewrite list_to_set_app_L. simpl. set_solver.
Qed.

(** Admission to a support room: the name enters the exclusivity set, and
    its count stays at most 2. *)
Lemma admit_inv prev sc x c control dormitory :
  sched_inv prev sc ->
  sc_operator_usage sc !! x = Some c -> (usage_of (sc_operator_usage sc) x <? 2)%Z = true ->
  list_to_set (C := gset string) control ∪ list_to_set dormitory
  = {[x]} ∪ list_to_set (sc_control_operators sc)
    ∪ list_to_set (sc_dormitory_operators sc) ->
  sched_inv prev
    {| sc_operator_usage := <[x := (c + 1)%Z]> (sc_operator_usage sc);
       sc_shift_used_names := sc_shift_used_names sc ∪ {[x]};
       sc_control_operators := control;
       sc_dormitory_operators := dormitory;
       sc_results := sc_results sc |}.
Proof.
  intros [[Hset Hdisj] Huse] Hc Hlt Hsets. apply Z.ltb_lt in Hlt.
  split; [split|]; simpl.
  - rewrite Hset, <- (assoc_L (∪) _ (list_to_set control)), Hsets.
    clear. set_solver.
  - done.
  - intros Hnd y. destruct (Huse Hnd y) as [Hle Hb].
    rewrite usage_of_insert. case_decide as Hy; [|done].
    subst y. unfold usage_of in Hlt. rewrite Hc in Hlt. simpl in Hlt. split; lia.
Qed.

Lemma admit_control_inv prev sc req sc' :
  sched_inv prev sc -> admit_control sc req = Ok sc' ->
  sched_inv prev sc' /\ sc_results sc' = sc_results sc.
Proof.
  unfold admit_control. intros Hinv H.
  if_inv H Hc; [|by injection H as <-].
  apply andb_true_iff in Hc as [_ Hlt].
  destruct (sc_operator_usage sc !! req_operator req) as [c|] eqn:Hu; [|done].
  injection H as <-. split; [|done].
  apply admit_inv; [done..|]. rewrite list_to_set_set_add. set_solver.
Qed.

Lemma admit_dormitory_inv prev sc req sc' :
  sched_inv prev sc -> admit_dormitory sc req = Ok sc' ->
  sched_inv prev sc' /\ sc_results sc' = sc_results sc.
Proof.
  unfold admit_dormitory. intros Hinv H.
  if_inv H Hc; [|by injection H as <-].
  apply andb_true_iff in Hc as [_ Hlt].
  destruct (sc_operator_usage sc !! req_operator req) as [c|] eqn:Hu; [|done].
  injection H as <-. split; [|done].
  apply admit_inv; [done..|]. rewrite list_to_set_set_add. set_solver.
Qed.

(** The rooms built so far list the operators of the results after the
    first [base] calls of the shift. *)
Definition rooms_sync (base : list (list string)) (acc : list Room * Sched) : Prop :=
  result_names <$> sc_results acc.2 = base ++ (room_operators <$> acc.1).

Lemma optimize_station_inv prev base acc workplace acc' :
  sched_inv prev acc.2 -> rooms_sync base acc ->
  optimize_station self acc workplace = Ok acc' ->
  sched_inv prev acc'.2 /\ rooms_sync base acc'.
Proof.
  unfold optimize_station. intros Hinv Hsync H.
  bind_inv H. destruct r as [res sc1].
  apply (call_allocator_inv prev) in E as [Hinv1 Hres1]; [|done].
  bind_inv H. bind_inv H. injection H as <-. simpl in *.
  assert (sched_inv prev r /\ sc_results r = sc_results sc1) as [Hinv2 Hres2].
  { refine (for_each_inv (fun s => sched_inv prev s /\ sc_results s = sc_results sc1)
              _ _ _ _ _ _ E); [|split; [exact Hinv1|done]].
    intros s req s' _ [Hs Hr] Ha. apply (admit_control_inv prev) in Ha as [? ?]; [|done].
    split; [done|congruence]. }
  assert (sched_inv prev r0 /\ sc_results r0 = sc_results r) as [Hinv3 Hres3].
  { refine (for_each_inv (fun s => sched_inv prev s /\ sc_results s = sc_results r)
              _ _ _ _ _ _ E0); [|split; [exact Hinv2|done]].
    intros s req s' _ [Hs Hr] Ha. apply (admit_dormitory_inv prev) in Ha as [? ?]; [|done].
    split; [done|congruence]. }
  split; [done|]. unfold rooms_sync in *. simpl.
  rewrite Hres3, Hres2, Hres1, !fmap_app, Hsync, <- app_assoc. done.
Qed.

Lemma optimize_plain_inv prev base acc workplace acc' :
  sched_inv prev acc.2 -> rooms_sync base acc ->
  optimize_plain self acc workplace = Ok acc' ->
  sched_inv prev acc'.2 /\ rooms_sync base acc'.
Proof.
  unfold optimize_plain. intros Hinv Hsync H.
  bind_inv H. destruct r as [res sc1]. injection H as <-.
  apply (call_allocator_inv prev) in E as [Hinv1 Hres1]; [|done].
  split; [done|]. unfold rooms_sync in *. simpl.
  rewrite Hres1, !fmap_app, Hsync, <- app_assoc. done.
Qed.

Lemma shift_start_inv prev usage :
  (rules_nodup self -> usage_inv (fiammetta_targets self) prev usage) ->
  sched_inv prev (shift_start usage).
Proof.
  intros Hu. split; [split|]; simpl.
  - set_solver.
  - intros i j r1 r2 _ H1. by rewrite lookup_nil in H1.
  - rewrite app_nil_r. done.
Qed.

Lemma run_shift_inv list_of_set prev enable shift usage plan sc :
  (rules_nodup self -> usage_inv (fiammetta_targets self) prev usage) ->
  run_shift list_of_set self enable shift usage = Ok (plan, sc) ->
  sched_inv prev sc
  /\ room_operators <$> plan_rooms plan = result_names <$> sc_results sc.
Proof.
  unfold run_shift. intros Hu H.
  bind_inv H. bind_inv H. bind_inv H. bind_inv H. bind_inv H. injection H as <- <-.
  assert (sched_inv prev r.2 /\ rooms_sync [] r) as [Hi1 Hs1].
  { refine (for_each_inv (fun a => sched_inv prev a.2 /\ rooms_sync [] a)
              _ _ _ _ _ _ E); [|split; [by apply shift_start_inv|done]].
    intros acc w acc' _ [Hi Hs]. by apply optimize_station_inv. }
  assert (sched_inv prev r0.2 /\ rooms_sync (room_operators <$> r.1) r0) as [Hi2 Hs2].
  { refine (for_each_inv
              (fun a => sched_inv prev a.2 /\ rooms_sync (room_operators <$> r.1) a)
              _ _ _ _ _ _ E0); [|].
    - intros acc w acc' _ [Hi Hs]. by apply optimize_station_inv.
    - split; [done|]. unfold rooms_sync in *. simpl. by rewrite app_nil_r. }
  destruct r2 as [res sc3].
  apply (call_allocator_inv prev) in E2 as [Hi3 Hr3]; [|done].
  assert (sched_inv prev r3.2
          /\ rooms_sync ((room_operators <$> r.1) ++ (room_operators <$> r0.1)
                         ++ [result_names res]) r3) as [Hi4 Hs4].
  { refine (for_each_inv
              (fun a => sched_inv prev a.2
                        /\ rooms_sync ((room_operators <$> r.1) ++ (room_operators <$> r0.1)
                                       ++ [result_names res]) a)
              _ _ _ _ _ _ E3); [|].
    - intros acc w acc' _ [Hi Hs]. by apply optimize_plain_inv.
    - split; [done|]. unfold rooms_sync in *. simpl.
      rewrite Hr3, fmap_app, Hs2, app_nil_r, <- app_assoc. done. }
  split; [done|]. unfold plan_rooms, rooms_sync in *. simpl.
  rewrite Hs4, !fmap_app, <- !app_assoc. done.
Qed.

(** The results of all allocator calls of the passes in [l]. *)
Definition all_results (l : list (Plan * Sched)) : list AssignmentResult :=
  concat ((fun ps => sc_results ps.2) <$> l).

Definition shift_ok (ps : Plan * Sched) : Prop :=
  excl_inv ps.2
  /\ room_operators <$> plan_rooms ps.1 = result_names <$> sc_results ps.2.

Definition cycle_inv (acc : list (Plan * Sched) * gmap string Z) : Prop :=
  (rules_nodup self -> usage_inv (fiammetta_targets self) (all_results acc.1) acc.2)
  /\ Forall shift_ok acc.1.

Lemma run_shifts_inv list_of_set enable usage shifts usage' :
  (rules_nodup self -> usage_inv (fiammetta_targets self) [] usage) ->
  run_shifts list_of_set self enable usage = Ok (shifts, usage') ->
  cycle_inv (shifts, usage').
Proof.
  unfold run_shifts. intros Hu H.
  refine (for_each_inv cycle_inv _ _ _ _ _ _ H); [|by split].
  intros acc shift acc' _ [Hinv Hall] Hb. bind_inv Hb. injection Hb as <-.
  destruct r as [plan sc].
  apply (run_shift_inv _ (all_results acc.1)) in E as [[Hex Huse] Hrooms]; [|done].
  split; simpl.
  - unfold all_results. rewrite fmap_app, concat_app. simpl. by rewrite app_nil_r.
  - apply Forall_app. split; [done|]. constructor; [by split|constructor].
Qed.

End scheduler_facts.

Lemma prepare_rules self product_requirements self' enable :
  prepare self product_requirements = Ok (self', enable) ->
  efficiency_rules self' = efficiency_rules self.
Proof.
  unfold prepare. intros H. bind_inv H. bind_inv H. bind_inv H.
  by injection H as <- <-.
Qed.

Lemma run_cycle_inv list_of_set self product_requirements self' shifts usage :
  run_cycle list_of_set self product_requirements = Ok (self', shifts, usage) ->
  efficiency_rules self' = efficiency_rules self /\ cycle_inv self' (shifts, usage).
Proof.
  unfold run_cycle. intros H. bind_inv H. bind_inv H.
  destruct r as [self1 enable], r0 as [shifts0 usage0]. injection H as <- <- <-.
  split; [by eapply prepare_rules|].
  eapply run_shifts_inv; [|done].
  intros _ x. rewrite initial_usage_zero. split; [lia|lia].
Qed.


Lemma excl_rooms_disjoint (plan : Plan) (sc : Sched) :
  shift_ok (plan, sc) ->
  forall i j room1 room2 x, i <> j ->
    plan_rooms plan !! i = Some room1 -> plan_rooms plan !! j = Some room2 ->
    x ∈ room_operators room1 -> x ∉ room_operators room2.
Proof.
  intros [[_ Hdisj] Hrooms] i j room1 room2 x Hij H1 H2 Hx1 Hx2. simpl in *.
  assert (forall k room, plan_rooms plan !! k = Some room ->
            exists res, sc_results sc !! k = Some res
                        /\ result_names res = room_operators room) as Hres.
  { intros k room Hk.
    assert ((room_operators <$> plan_rooms plan) !! k = Some (room_operators room)) as Hk'
      by (by rewrite list_lookup_fmap, Hk).
    rewrite Hrooms, list_lookup_fmap in Hk'.
    destruct (sc_results sc !! k) as [res|]; [|done].
    injection Hk' as Hk'. by exists res. }
  destruct (Hres i room1 H1) as (res1 & Hr1 & Hn1).
  destruct (Hres j room2 H2) as (res2 & Hr2 & Hn2).
  rewrite <- Hn1 in Hx1. rewrite <- Hn2 in Hx2.
  destruct (Nat.lt_total i j) as [Hlt|[Heq|Hgt]]; [|done|].
  - exact (Hdisj i j res1 res2 Hlt Hr1 Hr2 x Hx1 Hx2).
  - exact (Hdisj j i res2 res1 Hgt Hr2 Hr1 x Hx2 Hx1).
Qed.

(** ** The scheduler never runs out of passes *)

Lemma call_allocator_not_Timeout self sc workplace :
  call_allocator self sc workplace <> Timeout.
Proof.
  unfold call_allocator. apply bind_not_Timeout; [|done].
  apply optimize_workplace_not_Timeout.
Qed.

Lemma admit_not_Timeout sc req :
  admit_control sc req <> Timeout /\ admit_dormitory sc req <> Timeout.
Proof.
  unfold admit_control, admit_dormitory.
  split; destruct (_ && _); try done; by destruct (sc_operator_usage sc !! _).
Qed.

Lemma run_shift_not_Timeout list_of_set self enable shift usage :
  run_shift list_of_set self enable shift usage <> Timeout.
Proof.
  assert (forall acc w, optimize_station self acc w <> Timeout) as Hstation.
  { intros acc w. unfold optimize_station.
    apply bind_not_Timeout; [apply call_allocator_not_Timeout|]. intros r _.
    apply bind_not_Timeout;
      [apply for_each_not_Timeout; intros; apply admit_not_Timeout|]. intros sc1 _.
    apply bind_not_Timeout; [|done].
    apply for_each_not_Timeout. intros. apply admit_not_Timeout. }
  unfold run_shift.
  apply bind_not_Timeout; [by apply for_each_not_Timeout|]. intros tr _.
  apply bind_not_Timeout; [by apply for_each_not_Timeout|]. intros mf _.
  apply bind_not_Timeout; [by destruct (meeting_room _)|]. intros w _.
  apply bind_not_Timeout; [apply call_allocator_not_Timeout|]. intros mt _.
  apply bind_not_Timeout; [|done].
  apply for_each_not_Timeout. intros acc p. unfold optimize_plain.
  apply bind_not_Timeout; [apply call_allocator_not_Timeout|done].
Qed.

(** The bound on the passes of the filler is never what ends a run. *)
Lemma get_optimal_assignments_not_Timeout list_of_set self product_requirements :
  get_optimal_assignments list_of_set self product_requirements <> Timeout.
Proof.
  unfold get_optimal_assignments, run_cycle.
  apply bind_not_Timeout; [|done]. apply bind_not_Timeout.
  - unfold prepare. apply bind_not_Timeout.
    + match goal with |- (if ?c then _ else _) <> _ => destruct c end; [|done].
      unfold select_fiammetta_targets.
      match goal with |- (if ?c then _ else _) <> _ => destruct c end; [done|]. apply bind_not_Timeout; [|done].
      apply for_each_not_Timeout. intros sc rule. apply for_each_not_Timeout.
      intros sc1 op.
      match goal with |- (if ?c then _ else _) <> _ => destruct c end; [|done].
      apply bind_not_Timeout; [apply py_div_not_Timeout|done].
    + intros targets _. unfold getitem.
      apply bind_not_Timeout; [by destruct (assoc_get _ _)|]. intros tp _.
      apply bind_not_Timeout; [by destruct (assoc_get _ _)|done].
  - intros p _. apply bind_not_Timeout; [|done]. unfold run_shifts.
    apply for_each_not_Timeout. intros acc shift.
    apply bind_not_Timeout; [apply run_shift_not_Timeout|done].
Qed.

(** ** The plans and the order in which sets are listed *)

(** A plan with its two set-derived lists listed by [f]. *)
Definition plan_with_lists (f : list string -> list string) (p : Plan) : Plan :=
  {| plan_name := plan_name p;
     plan_description := plan_description p;
     plan_Fiammetta_enable := plan_Fiammetta_enable p;
     plan_Fiammetta_target := plan_Fiammetta_target p;
     plan_trading := plan_trading p;
     plan_manufacture := plan_manufacture p;
     plan_control := f (plan_control p);
     plan_power := plan_power p;
     plan_meeting := plan_meeting p;
     plan_dormitory := List.map (option_map f) (plan_dormitory p) |}.

(** Two plans that differ at most in the order of the control-center list
    and of the dormitory lists. *)
Definition plan_same (p q : Plan) : Prop :=
  plan_name p = plan_name q
  /\ plan_description p = plan_description q
  /\ plan_Fiammetta_enable p = plan_Fiammetta_enable q
  /\ plan_Fiammetta_target p = plan_Fiammetta_target q
  /\ plan_trading p = plan_trading q
  /\ plan_manufacture p = plan_manufacture q
  /\ plan_control p ≡ₚ plan_control q
  /\ plan_power p = plan_power q
  /\ plan_meeting p = plan_meeting q
  /\ Forall2 (option_Forall2 Permutation) (plan_dormitory p) (plan_dormitory q).

Lemma fmap_bind_outcome {A B C : Type} (m : outcome A) (k : A -> outcome B) (g : B -> C) :
  g <$> (m ≫= k) = m ≫= (fun a => g <$> k a).
Proof. by destruct m. Qed.

Lemma for_each_fmap {A S T : Type} (g : S -> T) (body : S -> A -> outcome S)
    (body' : T -> A -> outcome T) (l : list A) (s : S) :
  (forall s x, body' (g s) x = g <$> body s x) ->
  for_each body' l (g s) = g <$> for_each body l s.
Proof.
  intros Hb. revert s. induction l as [|x l IH]; simpl; intros s; [done|].
  rewrite Hb. destruct (body s x) as [s1| |]; simpl; [apply IH|done|done].
Qed.

Lemma run_shift_listing list_of_set self enable shift usage :
  run_shift list_of_set self enable shift usage
  = (fun r => (plan_with_lists list_of_set r.1, r.2))
    <$> run_shift (fun l => l) self enable shift usage.
Proof.
  unfold run_shift.
  destruct (for_each _ (trading_stations _) _) as [tr| |]; simpl; try done.
  destruct (for_each _ (manufacturing_stations _) _) as [mf| |]; simpl; try done.
  destruct (meeting_room (workplaces self)) as [|w ?]; simpl; try done.
  destruct (call_allocator self mf.2 w) as [mt| |]; simpl; try done.
  destruct (for_each _ (power_station _) _) as [pw| |]; simpl; try done.
  unfold plan_with_lists. simpl. do 3 f_equal.
  by destruct (sc_dormitory_operators mf.2).
Qed.

Definition shifts_with_lists (f : list string -> list string)
    (acc : list (Plan * Sched) * gmap string Z) : list (Plan * Sched) * gmap string Z :=
  ((fun ps => (plan_with_lists f ps.1, ps.2)) <$> acc.1, acc.2).

Lemma run_shifts_listing list_of_set self enable usage :
  run_shifts list_of_set self enable usage
  = shifts_with_lists list_of_set <$> run_shifts (fun l => l) self enable usage.
Proof.
  unfold run_shifts.
  change ([], usage) with (shifts_with_lists list_of_set ([], usage)) at 1.
  apply for_each_fmap. intros acc shift. simpl.
  rewrite run_shift_listing.
  destruct (run_shift _ self enable shift acc.2) as [r| |]; simpl; [|done|done].
  unfold shifts_with_lists. simpl. by rewrite fmap_app.
Qed.

Lemma map_fst_shifts_with_lists (f : list string -> list string)
    (l : list (Plan * Sched)) :
  List.map fst ((fun ps => (plan_with_lists f ps.1, ps.2)) <$> l)
  = List.map (plan_with_lists f) (List.map fst l).
Proof. induction l as [|ps l IH]; simpl; [done|]. by f_equal. Qed.

(** The plans depend on the listing order only through the two lists. *)
Lemma get_optimal_assignments_listing list_of_set self product_requirements :
  get_optimal_assignments list_of_set self product_requirements
  = List.map (plan_with_lists list_of_set)
    <$> get_optimal_assignments (fun l => l) self product_requirements.
Proof.
  unfold get_optimal_assignments, run_cycle.
  destruct (prepare self product_requirements) as [p| |]; simpl; try done.
  rewrite run_shifts_listing.
  destruct (run_shifts _ p.1 p.2 (initial_usage p.1)) as [r| |]; simpl; try done.
  f_equal. apply map_fst_shifts_with_lists.
Qed.

Lemma plan_with_lists_same (f g : list string -> list string) (p : Plan) :
  (forall l, f l ≡ₚ l) -> (forall l, g l ≡ₚ l) ->
  plan_same (plan_with_lists f p) (plan_with_lists g p).
Proof.
  intros Hf Hg. unfold plan_same, plan_with_lists. simpl.
  repeat split; try done.
  - by rewrite Hf, Hg.
  - induction (plan_dormitory p) as [|[d|] l IH]; simpl; constructor; try done.
    all: constructor; by rewrite ?Hf, ?Hg.
Qed.

(** ** The candidate search as a scan for the first maximum *)




Section first_pass_facts.
Context (self : WorkplaceOptimizer) (workplace : Workplace).



















End first_pass_facts.

(** * The claims *)

Lemma on_Ok_intro {A : Type} (o : outcome A) (P : A -> Prop) :
  (forall a, o = Ok a -> P a) -> on_Ok o P.
Proof. intros H. destruct o; simpl; [by apply H|done|done]. Qed.

(** The example optimizers are what [init] returns on the example
    inputs. *)
Lemma init_examples :
  init unmet_dormitory_data unmet_dormitory_operators (config 1 0 false)
  = Ok unmet_dormitory_self
  /\ init empty_combo_data [] (config 1 0 false) = Ok empty_combo_self
  /\ init (apply_each_data generic_single) apply_each_operators (config 1 0 false)
     = Ok (apply_each_self generic_single)
  /\ init (apply_each_data generic) apply_each_operators (config 1 0 false)
     = Ok (apply_each_self generic)
  /\ init mixed_data mixed_operators (config 1 0 false) = Ok mixed_self
  /\ init boost_data boost_operators (config 1 1 true) = Ok boost_self
  /\ init control_data control_operators (config 1 0 false) = Ok control_self.
Proof. split_and!; vm_compute; reflexivity. Qed.

(** ** The rule compiler *)

(** C8: whenever the nested rule specification expands without error,
    [load_efficiency_rules] returns the expanded rules reordered so that
    keys (priority, synergy) never increase along the list, and rules with
    equal priority and equal synergy stand in the order in which they
    were produced; an error of the expansion is the error of the compiler. *)
Theorem load_efficiency_rules_sorted_stable (data : EfficiencyData) :
  match expand_rules data with
  | Ok expanded_rules =>
      exists rules,
        load_efficiency_rules data = Ok rules
        /\ rules ≡ₚ expanded_rules
        /\ StronglySorted rule_key_ge rules
        /\ forall r, List.filter (rule_key_eq r) rules
                     = List.filter (rule_key_eq r) expanded_rules
  | Raise e => load_efficiency_rules data = Raise e
  | Timeout => load_efficiency_rules data = Timeout
  end.
Proof.
  unfold load_efficiency_rules.
  destruct (expand_rules data) as [expanded| |]; simpl; [|done|done].
  eexists. split; [done|]. split_and!.
  - apply sort_reverse_perm.
  - eapply StronglySorted_weaken;
      [|apply (sort_reverse_sorted rule_key_gt rule_key_gt_asym rule_key_gt_negtrans)].
    intros a b. apply rule_key_gt_false.
  - intros r. apply sort_reverse_stable. apply rule_key_same_not_gt.
Qed.

(** ** Results of the allocator *)

(** C10: in every [AssignmentResult] that [optimize_workplace] returns,
    the total efficiency is the workplace's base efficiency plus the
    operator efficiency; when no rule was applied the operator efficiency
    is 0 and the total is the base efficiency. *)
Theorem total_is_base_plus_synergy
    (self : WorkplaceOptimizer) (workplace : Workplace) (usage : gmap string Z)
    (shift_used : gset string) :
  on_Ok (optimize_workplace self workplace usage shift_used) (fun r =>
    let res := r.1.1 in
    res_total_efficiency res
    = (wp_base_efficiency (res_workplace res) + res_operator_efficiency res)%Q
    /\ (res_applied_combinations res = [] ->
        (res_operator_efficiency res == 0)%Q
        /\ (res_total_efficiency res == wp_base_efficiency (res_workplace res))%Q)).
Proof.
  apply on_Ok_intro. intros [[res usage'] shift_used'] H.
  unfold optimize_workplace in H. bind_inv H. bind_inv H.
  injection H as <- <- <-. split; [done|]. intros Hnil. simpl in *.
  assert (quiet r0) as Hq.
  { eapply fill_remaining_quiet; [|done].
    eapply first_pass_quiet; [|done]. by intros _. }
  split; [by apply Hq|]. rewrite (Hq Hnil). apply Qplus_0_r.
Qed.

(** ** Termination of the remaining-slot filler *)

(** What C9 says of the loop started in [st] with [fuel] passes allowed:
    a pass that applies a candidate applies one that uses at least one
    slot, and leaves fewer slots; the loop does not run out of passes;
    when it returns, no slot is left or the search of the last pass kept
    no candidate with a score above zero; and it returns (raises
    nothing) when every owned operator has an entry in the usage
    budget. *)
Definition filler_terminates (self : WorkplaceOptimizer) (workplace : Workplace)
    (fuel : nat) (st : Alloc) : Prop :=
  (forall st1 st2, fill_step self workplace st1 = Ok (Some st2) ->
     exists c, apply_candidate self st1 c = Ok st2
               /\ (1 <= cand_slots_used c)%Z
               /\ remaining_slots st2 = (remaining_slots st1 - cand_slots_used c)%Z
               /\ (remaining_slots st2 < remaining_slots st1)%Z)
  /\ fill_loop self workplace fuel st <> Timeout
  /\ (forall st', fill_loop self workplace fuel st = Ok st' ->
        (remaining_slots st' <= 0)%Z
        \/ exists best, fill_select self workplace st' = Ok best /\ accepted best = None)
  /\ (usage_keys self st -> exists st', fill_loop self workplace fuel st = Ok st').

(** C9: when every compiled rule has a non-empty core group, the loop of
    [optimize_workplace_recursive] terminates within [remaining_slots]
    passes, for every workplace, usage budget and exclusivity set. *)
Theorem fill_loop_terminates
    (self : WorkplaceOptimizer) (workplace : Workplace) (fuel : nat) (st : Alloc) :
  rules_nonempty self ->
  (Z.to_nat (remaining_slots st) <= fuel)%nat ->
  filler_terminates self workplace fuel st.
Proof.
  intros Hne Hfuel. split_and!.
  - intros st1 st2 H. destruct (fill_step_Some _ _ _ _ H) as (c & (_ & Hs & _) & Ha).
    exists c. destruct (apply_candidate_Ok _ _ _ _ Ha) as (_ & _ & _ & _ & Hr & _).
    split_and!; [done|done|done|lia].
  - by apply fill_loop_not_Timeout.
  - intros st' H. destruct (fill_loop_exit _ _ _ _ _ H) as [Hr|Hs]; [by left|right].
    unfold fill_step in Hs. bind_inv Hs. exists r. split; [done|].
    destruct (accepted r); [|done]. by bind_inv Hs.
  - intros Hk. by apply fill_loop_Ok.
Qed.

Lemma fill_loop_terminates_witness :
  rules_nonempty mixed_self
  /\ (Z.to_nat (remaining_slots (initial_alloc trading_1 (initial_usage mixed_self) ∅))
      <= 3)%nat
  /\ filler_terminates mixed_self trading_1 3
       (initial_alloc trading_1 (initial_usage mixed_self) ∅).
Proof.
  assert (rules_nonempty mixed_self) as Hne.
  { intros r Hr. cbn in Hr.
    repeat (apply elem_of_cons in Hr as [->|Hr]; [done|]). by apply elem_of_nil in Hr. }
  assert (Z.to_nat (remaining_slots (initial_alloc trading_1 (initial_usage mixed_self) ∅))
          <= 3)%nat as Hfuel by (simpl; lia).
  exact (conj Hne (conj Hfuel (fill_loop_terminates _ _ _ _ Hne Hfuel))).
Defined.

(** ** The usage budget *)

#[global] Instance rules_nodup_dec (self : WorkplaceOptimizer) :
  Decision (rules_nodup self).
Proof. unfold rules_nodup. apply _. Defined.









(** Without the hypothesis on repeated names the bound is lost: the
    availability test runs over the whole combination before any of its
    names is counted, so a name listed three times is counted three times
    by one application.  Here [A] ends at 4 with no quota-boost target. *)
Lemma repeated_name_overshoots :
  init repeated_data repeated_operators (config 1 1 false) = Ok repeated_self
  /\ ~ rules_nodup repeated_self
  /\ (fun r => (fiammetta_targets r.1.1, usage_of r.2 "A"))
     <$> run_cycle (fun l => l) repeated_self None
     = Ok ([], 4%Z).
Proof.
  split_and!; [vm_compute; reflexivity| |vm_compute; reflexivity].
  apply (bool_decide_eq_false_1 (rules_nodup repeated_self)). vm_compute. reflexivity.
Qed.

(** ** Exclusivity within a shift *)

(** No two rooms of the plan list the same operator, and the exclusivity
    set at the end of the shift holds the names placed in this shift and
    nothing else: what earlier shifts placed was dropped at the boundary. *)
Definition shift_exclusive (ps : Plan * Sched) : Prop :=
  (forall i j room1 room2 x, i <> j ->
     plan_rooms ps.1 !! i = Some room1 -> plan_rooms ps.1 !! j = Some room2 ->
     x ∈ room_operators room1 -> x ∉ room_operators room2)
  /\ sc_shift_used_names ps.2
     = list_to_set (concat (room_operators <$> plan_rooms ps.1))
       ∪ list_to_set (sc_control_operators ps.2)
       ∪ list_to_set (sc_dormitory_operators ps.2).

(** C4: in every plan that the scheduler returns, no operator name is in
    the operator list of two workplaces, whatever the usage budget
    allows; each shift starts from an empty exclusivity set. *)
Theorem shift_exclusivity
    (list_of_set : list string -> list string) (self : WorkplaceOptimizer)
    (product_requirements : option ProductRequirements) :
  on_Ok (run_cycle list_of_set self product_requirements) (fun r =>
    get_optimal_assignments list_of_set self product_requirements
    = Ok (List.map fst r.1.2)
    /\ Forall shift_exclusive r.1.2).
Proof.
  apply on_Ok_intro. intros [[self' shifts] usage] H. simpl. split.
  - unfold get_optimal_assignments. by rewrite H.
  - apply run_cycle_inv in H as [_ [_ Hall]]. simpl in Hall.
    eapply Forall_impl; [exact Hall|]. intros [plan sc] Hok. split.
    + by apply (excl_rooms_disjoint plan sc).
    + destruct Hok as [[Hset _] Hrooms]. simpl in *. by rewrite Hrooms.
Qed.

(** The rooms of the three shifts of the quota-boost example: the
    operators of the trading station, the manufacturing station and the
    meeting room. *)
Lemma boost_rooms :
  (fun r => List.map (fun ps => room_operators <$> plan_rooms ps.1) r.1.2)
  <$> run_cycle (fun l => l) boost_self None
  = Ok [[["W"]; ["巫恋"]; []]; [["W"]; ["巫恋"]; []]; [["巫恋"]; []; []]].
Proof. vm_compute. reflexivity. Qed.

(** ** Determinism *)

(** Two runs end alike: with the same error, or with plans that differ at
    most in the order of the control-center and dormitory lists. *)
Definition same_outcome (o1 o2 : outcome (list Plan)) : Prop :=
  match o1, o2 with
  | Ok plans1, Ok plans2 => Forall2 plan_same plans1 plans2
  | Raise e1, Raise e2 => e1 = e2
  | Timeout, Timeout => True
  | _, _ => False
  end.

(** C7, amended: two runs on the same inputs end alike, whatever order
    each run lists its sets in; the plans agree in every field except
    that the control-center list and the dormitory lists of one run may
    be permutations of those of the other. *)
Theorem plans_determined_up_to_listing
    (listing1 listing2 : list string -> list string) (self : WorkplaceOptimizer)
    (product_requirements : option ProductRequirements) :
  (forall l, listing1 l ≡ₚ l) -> (forall l, listing2 l ≡ₚ l) ->
  same_outcome (get_optimal_assignments listing1 self product_requirements)
               (get_optimal_assignments listing2 self product_requirements).
Proof.
  intros H1 H2.
  rewrite (get_optimal_assignments_listing listing1),
    (get_optimal_assignments_listing listing2).
  destruct (get_optimal_assignments _ self product_requirements) as [plans| |];
    simpl; [|done|done].
  induction plans as [|p plans IH]; simpl; constructor; [|done].
  by apply plan_with_lists_same.
Qed.

Lemma plans_determined_up_to_listing_witness :
  (forall l : list string, l ≡ₚ l)
  /\ (forall l : list string, reverse l ≡ₚ l)
  /\ same_outcome (get_optimal_assignments (fun l => l) control_self None)
                  (get_optimal_assignments reverse control_self None).
Proof.
  assert (forall l : list string, l ≡ₚ l) as H1 by done.
  assert (forall l : list string, reverse l ≡ₚ l) as H2 by apply reverse_Permutation.
  exact (conj H1 (conj H2 (plans_determined_up_to_listing _ _ control_self None H1 H2))).
Defined.

(** The control-center list of the first plan of a run. *)
Definition first_control (o : outcome (list Plan)) : list string :=
  match o with
  | Ok (p :: _) => plan_control p
  | _ => []
  end.

(** C7 fails as stated: a run that lists a set in insertion order and a
    run that lists it in the opposite order return different plans. *)
Lemma plans_not_identical :
  init control_data control_operators (config 1 0 false) = Ok control_self
  /\ (forall l : list string, reverse l ≡ₚ l)
  /\ get_optimal_assignments (fun l => l) control_self None
     <> get_optimal_assignments reverse control_self None.
Proof.
  split; [vm_compute; reflexivity|]. split; [apply reverse_Permutation|].
  intros E. apply (f_equal first_control) in E. vm_compute in E. discriminate E.
Qed.

(** ** The candidate search *)






(** ** Defects *)

(** What a caller sees of an allocator result: the names placed, the
    descriptions of the applied rules, and the synergy. *)
Definition summary (r : AssignmentResult * gmap string Z * gset string)
    : list string * list string * Q :=
  (result_names r.1.1, res_applied_combinations r.1.1, Qred (res_operator_efficiency r.1.1)).

(** C1 fails on the code: the rule's dormitory requirement names an
    operator that is not owned; the first pass, which files the rule
    under its named system, rejects it, and the remaining-slot filler,
    which checks the control-center requirements only, applies it. *)
Theorem filler_applies_rule_with_unmet_dormitory :
  init unmet_dormitory_data unmet_dormitory_operators (config 1 0 false)
  = Ok unmet_dormitory_self
  /\ check_dormitory_requirements unmet_dormitory_self
       (rule_requires_dormitory unmet_dormitory_rule) = false
  /\ first_pass_select unmet_dormitory_self trading_1
       (initial_alloc trading_1 (initial_usage unmet_dormitory_self) ∅)
     = Ok (None, (-1)%Q)
  /\ summary <$> optimize_workplace unmet_dormitory_self trading_1
                   (initial_usage unmet_dormitory_self) ∅
     = Ok (["A"], [rule_description unmet_dormitory_rule], 10%Q).
Proof. split_and!; vm_compute; reflexivity. Qed.

(** C5 fails on the code: the unchecked dormitory requirement reaches
    the scheduler, which admits the operator and increments a usage count
    that does not exist; and a rule with an empty combination divides by
    its length. *)
Theorem cycle_raises :
  init unmet_dormitory_data unmet_dormitory_operators (config 1 0 false)
  = Ok unmet_dormitory_self
  /\ get_optimal_assignments (fun l => l) unmet_dormitory_self None
     = Raise (KeyError "D")
  /\ init empty_combo_data [] (config 1 0 false) = Ok empty_combo_self
  /\ get_optimal_assignments (fun l => l) empty_combo_self None
     = Raise ZeroDivisionError.
Proof. split_and!; vm_compute; reflexivity. Qed.

(** The rule, the operators and the slot cost of the candidate that the
    first pass keeps. *)
Definition kept (best : Best) : option (OperatorEfficiency * list string * Z) :=
  (fun c => (cand_rule c, cand_required c, cand_slots_used c)) <$> best.1.

(** C6 fails on the code: an [apply_each] rule whose description contains
    the name of its system is evaluated by the first pass as one group,
    at the cost of one slot per listed operator and with the synergy
    earned once; filed under the generic group, the same rule is applied
    once per operator. *)
Theorem apply_each_rule_taken_whole :
  init (apply_each_data generic_single) apply_each_operators (config 1 0 false)
  = Ok (apply_each_self generic_single)
  /\ rule_apply_each apply_each_rule = true
  /\ kept <$> first_pass_select (apply_each_self generic_single) trading_1
                (initial_alloc trading_1 (initial_usage (apply_each_self generic_single)) ∅)
     = Ok (Some (apply_each_rule, ["A"; "B"], 2%Z))
  /\ summary <$> optimize_workplace (apply_each_self generic_single) trading_1
                   (initial_usage (apply_each_self generic_single)) ∅
     = Ok (["A"; "B"], [generic_single], 10%Q)
  /\ summary <$> optimize_workplace (apply_each_self generic) trading_1
                   (initial_usage (apply_each_self generic)) ∅
     = Ok (["A"; "B"], ["通用单人(A)"; "通用单人(B)"], 20%Q).
Proof. split_and!; vm_compute; reflexivity. Qed.

(** * Further properties *)

(** ** Tokens of the rule file *)


(** Every character of [s] is a decimal digit. *)
Fixpoint all_digits (s : string) : Prop :=
  match s with
  | EmptyString => True
  | String a s' => is_Some (digit_of a) /\ all_digits s'
  end.








Lemma pretty_N_char_digit (m : N) :
  (m < 10)%N ->
  digit_of (pretty_N_char m) = Some (Z.of_N m)
  /\ Ascii.eqb (pretty_N_char m) "_"%char = false.
Proof.
  intros Hm.
  assert (m = 0 \/ m = 1 \/ m = 2 \/ m = 3 \/ m = 4 \/ m = 5 \/ m = 6 \/ m = 7
          \/ m = 8 \/ m = 9)%N as H by lia.
  repeat (destruct H as [->|H]; [by vm_compute|]). subst. by vm_compute.
Qed.

(** The digits that [pretty] writes in front of [s]. *)
Lemma pretty_N_go_digits (x : N) (s : string) :
  all_digits s -> all_digits (pretty_N_go x s).
Proof.
  revert s. induction (N.lt_wf_0 x) as [x _ IH]; intros s Hs.
  assert (x = 0 \/ 0 < x)%N as [->|Hx] by lia; [by rewrite pretty_N_go_0|].
  rewrite pretty_N_go_step by done. apply IH; [by apply N.div_lt|].
  simpl. split; [|done].
  destruct (pretty_N_char_digit (x `mod` 10)) as [-> _]; [|by eexists].
  by apply N.mod_lt.
Qed.


Lemma pretty_N_digits (n : N) : all_digits (pretty n).
Proof.
  unfold pretty, pretty_N. case_decide; [|by apply pretty_N_go_digits].
  split; [by eexists|done].
Qed.






(** ** The rule compiler *)

(** A core group with its tier overrides: every override is above 0 and
    names a member of the group. *)
Definition overrides_ok (operators : list string) (overrides : gmap string Z) : Prop :=
  forall n t, overrides !! n = Some t -> (0 < t)%Z /\ n ∈ operators.

Lemma parse_combo_overrides tokens init parsed :
  overrides_ok init.1 init.2 ->
  parse_combo tokens init = Ok parsed -> overrides_ok parsed.1 parsed.2.
Proof.
  unfold parse_combo. intros Hinit Hp.
  refine (for_each_inv (fun acc => overrides_ok acc.1 acc.2) _ _ _ _ _ Hinit Hp).
  intros acc tok acc' _ Hacc H. bind_inv H. injection H as <-. simpl.
  intros n t. destruct (0 <? r.2)%Z eqn:Hpos.
  - rewrite lookup_insert_Some. intros [[<- <-]|[_ Hn]].
    + split; [by apply Z.ltb_lt|]. apply elem_of_app. right. by left.
    + destruct (Hacc n t Hn) as [? ?]. split; [done|]. apply elem_of_app. by left.
  - intros Hn. destruct (Hacc n t Hn) as [? ?]. split; [done|].
    apply elem_of_app. by left.
Qed.

(** The entries of a system that the compiler turns into rules. *)
Definition system_entries (system_data : SystemData) : list RuleData :=
  match system_data with
  | SysList rules => rules
  | SysDict _ _ rules => default [] rules
  | SysOther => []
  end.

(** All rule entries of the file, in file order. *)
Definition rule_entries (efficiency_data : EfficiencyData) : list (string * RuleData) :=
  wt ← default [] (ed_combination_rules efficiency_data);
  sys ← wt.2;
  (fun rd => (wt.1, rd)) <$> system_entries sys.2.

(** What a compiled rule takes over from its entry unchanged. *)
Definition entry_summary (e : string * RuleData) : string * option Q * Z * bool :=
  (e.1, rd_efficiency e.2, default 0%Z (rd_priority e.2),
   default false (rd_apply_each e.2)).

Definition rule_summary (r : OperatorEfficiency) : string * option Q * Z * bool :=
  (rule_workplace_type r, Some (rule_synergy_efficiency r), rule_priority r,
   rule_apply_each r).

Definition rule_wf (r : OperatorEfficiency) : Prop :=
  overrides_ok (rule_operators r) (rule_elite_requirements r)
  /\ rule_base_efficiency r = 0%Q.

Lemma overrides_ok_empty : overrides_ok [] ∅.
Proof. intros n t. by rewrite lookup_empty. Qed.

Lemma expand_list_rule_Ok wt name rd r :
  expand_list_rule wt name rd = Ok r ->
  rule_wf r /\ rule_summary r = entry_summary (wt, rd).
Proof.
  unfold expand_list_rule. intros H. do 6 bind_inv H. injection H as <-.
  split; [split; [|done]|].
  - simpl. eapply parse_combo_overrides; [|done]. apply overrides_ok_empty.
  - unfold rule_summary, entry_summary. simpl.
    destruct (rd_efficiency rd); [|done]. by injection E4 as <-.
Qed.

Lemma expand_dict_rule_Ok wt name base products rd r :
  overrides_ok base.1 base.2 ->
  expand_dict_rule wt name base products rd = Ok r ->
  rule_wf r /\ rule_summary r = entry_summary (wt, rd).
Proof.
  unfold expand_dict_rule. intros Hbase H. do 5 bind_inv H. injection H as <-.
  split; [split; [|done]|].
  - simpl. by eapply parse_combo_overrides.
  - unfold rule_summary, entry_summary. simpl.
    destruct (rd_efficiency rd); [|done]. by injection E3 as <-.
Qed.

(** The compiled rules so far are well formed and match the entries read
    so far, one for one and in order. *)
Definition compiled (entries : list (string * RuleData))
    (rules : list OperatorEfficiency) : Prop :=
  Forall rule_wf rules /\ rule_summary <$> rules = entry_summary <$> entries.

Lemma for_each_entries {E : Type} (body : list OperatorEfficiency -> E -> outcome (list OperatorEfficiency))
    (entries_of : E -> list (string * RuleData)) (l : list E) :
  (forall done_entries acc x acc',
     compiled done_entries acc -> body acc x = Ok acc' ->
     compiled (done_entries ++ entries_of x) acc') ->
  forall done_entries acc acc',
    compiled done_entries acc -> for_each body l acc = Ok acc' ->
    compiled (done_entries ++ (x ← l; entries_of x)) acc'.
Proof.
  intros Hbody. induction l as [|x l IH]; simpl; intros done_entries acc acc' Hacc H.
  - injection H as <-. by rewrite app_nil_r.
  - bind_inv H. rewrite app_assoc. eapply IH; [|done]. by eapply Hbody.
Qed.

Lemma compiled_snoc entries rules e r :
  compiled entries rules -> rule_wf r -> rule_summary r = entry_summary e ->
  compiled (entries ++ [e]) (rules ++ [r]).
Proof.
  intros [Hwf Hsum] Hr He. split.
  - apply Forall_app. split; [done|]. by constructor.
  - rewrite !fmap_app, Hsum. simpl. by rewrite He.
Qed.

Lemma fmap_as_bind {A B : Type} (f : A -> B) (l : list A) :
  f <$> l = (x ← l; [f x]).
Proof. induction l as [|x l IH]; simpl; [done|]. by f_equal. Qed.

Lemma expand_system_Ok wt entry done_entries acc acc' :
  compiled done_entries acc -> expand_system wt acc entry = Ok acc' ->
  compiled (done_entries ++ ((fun rd => (wt, rd)) <$> system_entries entry.2)) acc'.
Proof.
  unfold expand_system. rewrite fmap_as_bind.
  destruct entry.2 as [rules|base product rules|]; cbn [system_entries].
  - revert done_entries acc acc'. apply for_each_entries.
    intros d a rd a' Ha Hb. bind_inv Hb. injection Hb as <-.
    apply expand_list_rule_Ok in E as [? ?]. by apply compiled_snoc.
  - intros Hacc H. bind_inv H.
    assert (overrides_ok r.1 r.2) as Hbase.
    { destruct base as [tokens|].
      - eapply parse_combo_overrides; [|done]. apply overrides_ok_empty.
      - injection E as <-. apply overrides_ok_empty. }
    revert done_entries acc acc' Hacc H. apply for_each_entries.
    intros d a rd a' Ha Hb. bind_inv Hb. injection Hb as <-.
    apply expand_dict_rule_Ok in E0 as [? ?]; [|done]. by apply compiled_snoc.
  - intros Hacc H. injection H as <-. simpl. by rewrite app_nil_r.
Qed.

Lemma expand_rules_Ok data rules :
  expand_rules data = Ok rules -> compiled (rule_entries data) rules.
Proof.
  unfold expand_rules, rule_entries. intros H.
  change (compiled ([] ++ (wt ← default [] (ed_combination_rules data);
                            sys ← wt.2; (fun rd => (wt.1, rd)) <$> system_entries sys.2))
            rules).
  revert H. apply for_each_entries; [|by split].
  intros d a wt a'. apply for_each_entries.
  intros d' b sys b'. apply expand_system_Ok.
Qed.

(** X2: in every compiled rule, each tier override is above 0 and names
    an operator of the rule's core group, and the rule's own base
    efficiency is 0. *)
Theorem compiled_rules_well_formed (data : EfficiencyData) :
  on_Ok (load_efficiency_rules data) (fun rules =>
    Forall (fun r =>
      (forall n t, rule_elite_requirements r !! n = Some t ->
                   (0 < t)%Z /\ n ∈ rule_operators r)
      /\ rule_base_efficiency r = 0%Q) rules).
Proof.
  unfold load_efficiency_rules.
  destruct (expand_rules data) as [rules| |] eqn:E; simpl; [|done|done].
  apply expand_rules_Ok in E as [Hwf _].
  by rewrite (sort_reverse_perm rule_key_gt rules).
Qed.

(** X3: the compiler returns one rule for each rule entry of the file:
    the rule carries the entry's workplace type and efficiency, its
    priority (0 when absent) and its per-operator flag (false when
    absent).  No entry is dropped and no efficiency is made up: when an
    entry has no efficiency the compiler does not return. *)
Theorem one_rule_per_entry (data : EfficiencyData) :
  on_Ok (load_efficiency_rules data) (fun rules =>
    rule_summary <$> rules ≡ₚ entry_summary <$> rule_entries data).
Proof.
  unfold load_efficiency_rules.
  destruct (expand_rules data) as [rules| |] eqn:E; simpl; [|done|done].
  apply expand_rules_Ok in E as [_ <-].
  by rewrite (sort_reverse_perm rule_key_gt rules).
Qed.





(** ** The catalog and the eligibility checks *)

(** The operators of [l] that are called [n]. *)
Definition named (n : string) (l : list Operator) : list Operator :=
  List.filter (fun op => bool_decide (op_name op = n)) l.

Lemma dict_by_name_lookup (l : list Operator) (n : string) :
  dict_by_name l !! n = last (named n l).
Proof.
  unfold dict_by_name.
  assert (forall d : gmap string Operator,
            foldl (fun d op => <[op_name op := op]> d) d l !! n
            = match last (named n l) with Some op => Some op | None => d !! n end) as Hgen.
  { induction l as [|o l IH]; intros d; simpl; [done|].
    rewrite IH. case_bool_decide as Hn.
    - rewrite <- Hn, lookup_insert_eq, last_cons.
      by destruct (last (named (op_name o) l)).
    - rewrite lookup_insert_ne by done. done. }
  rewrite Hgen, lookup_empty. by destruct (last (named n l)).
Qed.

Lemma dict_by_name_elem (l : list Operator) (n : string) (op : Operator) :
  dict_by_name l !! n = Some op -> op ∈ l.
Proof.
  rewrite dict_by_name_lookup. intros H%last_Some_elem_of.
  apply list_elem_of_In, filter_In in H as [H _]. by apply list_elem_of_In.
Qed.

Lemma named_nil (l : list Operator) (n : string) :
  n ∉ op_name <$> l -> named n l = [].
Proof.
  induction l as [|o l IH]; simpl; [done|]. intros Hn.
  rewrite bool_decide_eq_false_2 by set_solver. apply IH. set_solver.
Qed.

Lemma dict_by_name_NoDup (l : list Operator) (op : Operator) :
  NoDup (op_name <$> l) -> op ∈ l -> dict_by_name l !! op_name op = Some op.
Proof.
  rewrite dict_by_name_lookup. induction l as [|o l IH]; simpl.
  - intros _ H. by apply elem_of_nil in H.
  - intros [Ho Hl]%NoDup_cons [->|Hop]%elem_of_cons.
    + rewrite bool_decide_eq_true_2 by done. by rewrite (named_nil l (op_name o) Ho).
    + case_bool_decide as Hn.
      * exfalso. apply Ho. rewrite Hn. apply list_elem_of_fmap. by exists op.
      * by apply IH.
Qed.

(** X5: the catalog maps a name to the last operator of the operator
    file that bears it; a name that no operator bears is not a key. *)
Theorem load_operators_lookup (operator_data : list Operator) (name : string) :
  load_operators operator_data !! name
  = last (List.filter (fun op => bool_decide (op_name op = name)) operator_data).
Proof. apply dict_by_name_lookup. Qed.

(** The keys of the catalog are the names of its operators, as in a
    catalog that [load_operators] built. *)
Definition keyed_by_name (self : WorkplaceOptimizer) : Prop :=
  forall k op, operators self !! k = Some op -> op_name op = k.

Lemma load_operators_keyed (operator_data : list Operator) (k : string) (op : Operator) :
  load_operators operator_data !! k = Some op -> op_name op = k.
Proof. apply dict_by_name_key. Qed.

Lemma available_names_NoDup (self : WorkplaceOptimizer) :
  keyed_by_name self -> NoDup (op_name <$> get_available_operators self).
Proof.
  intros Hk. unfold get_available_operators.
  assert (NoDup (op_name <$> (snd <$> map_to_list (operators self)))) as Hnd.
  { rewrite <- list_fmap_compose.
    rewrite (list_fmap_ext (op_name ∘ snd) fst (map_to_list (operators self))).
    - apply NoDup_fst_map_to_list.
    - intros i [k op] Hi. simpl. apply Hk.
      apply elem_of_map_to_list. by eapply list_elem_of_lookup_2. }
  revert Hnd. generalize (snd <$> map_to_list (operators self)). intros l.
  induction l as [|o l IH]; [done|]. rewrite fmap_cons, filter_cons.
  intros [Ho Hl]%NoDup_cons. case_decide; [|by apply IH]. rewrite fmap_cons.
  apply NoDup_cons. split; [|by apply IH].
  intros Hin. apply Ho. apply list_elem_of_fmap in Hin as (o' & -> & Ho').
  apply list_elem_of_fmap. exists o'. split; [done|].
  by apply list_elem_of_filter in Ho' as [_ Ho'].
Qed.

Lemma available_elem (self : WorkplaceOptimizer) (op : Operator) :
  op ∈ get_available_operators self <->
  (exists k, operators self !! k = Some op) /\ op_own op = true.
Proof.
  unfold get_available_operators.
  rewrite list_elem_of_filter, list_elem_of_fmap. split.
  - intros [Hown ([k o] & -> & Hko%elem_of_map_to_list)]. split; [by exists k|done].
  - intros [[k Hk] Hown]. split; [done|]. exists (k, op). split; [done|].
    by apply elem_of_map_to_list.
Qed.

Lemma op_by_name_lookup (self : WorkplaceOptimizer) (name : string) (op : Operator) :
  keyed_by_name self ->
  op_by_name self !! name = Some op <->
  operators self !! name = Some op /\ op_own op = true.
Proof.
  intros Hk. unfold op_by_name. split.
  - intros H. pose proof (dict_by_name_key _ _ _ H) as Hn.
    apply dict_by_name_elem, available_elem in H as [[k Hop] Hown].
    split; [|done]. by rewrite <- Hn, (Hk _ _ Hop).
  - intros [Hop Hown]. rewrite <- (Hk _ _ Hop).
    apply dict_by_name_NoDup; [by apply available_names_NoDup|].
    apply available_elem. split; [by exists name|done].
Qed.

(** X6: when the catalog is keyed by operator name, the index the
    allocator looks operators up in holds exactly the owned operators of
    the catalog, under their names. *)
Theorem op_by_name_owned (self : WorkplaceOptimizer) (name : string) (op : Operator) :
  keyed_by_name self ->
  op_by_name self !! name = Some op <->
  operators self !! name = Some op /\ op_own op = true.
Proof. apply op_by_name_lookup. Qed.

Lemma op_by_name_owned_witness :
  keyed_by_name mixed_self
  /\ (op_by_name mixed_self !! "A" = Some (operator "A" 0 true) <->
      operators mixed_self !! "A" = Some (operator "A" 0 true)
      /\ op_own (operator "A" 0 true) = true).
Proof.
  assert (keyed_by_name mixed_self) as H
    by (intros k op; apply load_operators_keyed).
  exact (conj H (op_by_name_owned mixed_self "A" (operator "A" 0 true) H)).
Defined.

(** X7: for a crew with pairwise distinct names, the tier check passes
    exactly when every member that has an override is at or above it;
    an override for an operator outside the crew is ignored. *)
Theorem check_elite_requirements_spec (crew : list Operator)
    (elite_requirements : gmap string Z) :
  NoDup (op_name <$> crew) ->
  check_elite_requirements crew elite_requirements = true <->
  forall op t, op ∈ crew -> elite_requirements !! op_name op = Some t ->
               (t <= op_elite op)%Z.
Proof.
  intros Hnd. unfold check_elite_requirements. rewrite forallb_forall. split.
  - intros H op t Hop Ht.
    specialize (H (op_name op, t)). simpl in H.
    rewrite (dict_by_name_NoDup crew op Hnd Hop) in H.
    apply Z.ltb_ge. apply negb_true_iff. apply H.
    by apply list_elem_of_In, elem_of_map_to_list.
  - intros H [n t] Hnt%list_elem_of_In%elem_of_map_to_list. simpl.
    destruct (dict_by_name crew !! n) as [op|] eqn:Hop; [|done].
    pose proof (dict_by_name_key _ _ _ Hop) as <-.
    apply negb_true_iff, Z.ltb_ge. apply H; [|done]. by eapply dict_by_name_elem.
Qed.

Lemma check_elite_requirements_spec_witness :
  NoDup (op_name <$> [operator "A" 1 true])
  /\ (check_elite_requirements [operator "A" 1 true] {[ "A" := 2%Z ]} = true <->
      forall op t, op ∈ [operator "A" 1 true] ->
                   ({[ "A" := 2%Z ]} : gmap string Z) !! op_name op = Some t ->
                   (t <= op_elite op)%Z).
Proof.
  assert (NoDup (op_name <$> [operator "A" 1 true])) as H
    by (apply NoDup_singleton).
  exact (conj H (check_elite_requirements_spec _ _ H)).
Defined.

(** ** The workplaces the loader creates *)

Lemma prefix_digits (needle : string) (a : ascii) (s : string) :
  digit_of a = None -> all_digits s -> String.prefix (String a needle) s = false.
Proof.
  intros Ha Hs. destruct s as [|b s]; simpl; [done|].
  destruct (ascii_dec a b) as [<-|]; [|done].
  destruct Hs as [[d Hd] _]. congruence.
Qed.

Lemma str_in_digits (needle : string) (a : ascii) (s : string) :
  digit_of a = None -> all_digits s -> str_in (String a needle) s = false.
Proof.
  intros Ha. induction s as [|b s IH]; intros Hs.
  - done.
  - change (str_in (String a needle) (String b s))
      with (if String.prefix (String a needle) (String b s) then true
            else str_in (String a needle) s).
    rewrite (prefix_digits needle a (String b s) Ha Hs). apply IH. by destruct Hs.
Qed.

Lemma pretty_nat_digits (n : nat) : all_digits (pretty n).
Proof. apply pretty_N_digits. Qed.

Lemma trading_id_type (i : nat) (name : string) (n : Z) (e : Q) (ps : list string)
    (p : string) :
  get_workplace_type (mkWorkplace ("trading_" +:+ pretty i) name n e ps p)
  = trading_station.
Proof. done. Qed.

Lemma manufacturing_id_type (i : nat) (name : string) (n : Z) (e : Q)
    (ps : list string) (p : string) :
  get_workplace_type (mkWorkplace ("manufacturing_" +:+ pretty i) name n e ps p)
  = "manufacturing_station".
Proof.
  unfold get_workplace_type. cbn [wp_id].
  assert (str_in "trading" ("manufacturing_" +:+ pretty i) = false) as ->; [|done].
  pose proof (str_in_digits "rading" "t" (pretty i) eq_refl (pretty_nat_digits i)) as H.
  revert H. generalize (pretty i). intros s Hs. cbn. exact Hs.
Qed.

(** The station that the created stations copy: the first one listed in
    the data file, or one with 3 slots and base efficiency 100. *)
Definition first_station (listed : list WorkplaceData) : WorkplaceData :=
  default default_station (head listed).

(** A workplace of the category [category] with the slots and the base
    efficiency of [d]. *)
Definition station_like (category : string) (d : WorkplaceData) (w : Workplace) : Prop :=
  get_workplace_type w = category
  /\ wp_max_operators w = wd_max_operators d
  /\ wp_base_efficiency w = wd_base_efficiency d.

(** X8: the loader creates as many trading and manufacturing stations as
    the configuration counts say (none for a count below 1) and exactly
    one meeting room; the stations copy the slots and base efficiency of
    the first station listed in the data file, or 3 and 100 when none is
    listed; their ids are pairwise distinct, and [get_workplace_type]
    files each of them under its own category. *)
Theorem load_workplaces_stations (data : EfficiencyData)
    (trading_count manufacturing_count : Z) :
  length (trading_stations (load_workplaces data trading_count manufacturing_count))
  = Z.to_nat trading_count
  /\ length (manufacturing_stations
               (load_workplaces data trading_count manufacturing_count))
     = Z.to_nat manufacturing_count
  /\ length (meeting_room (load_workplaces data trading_count manufacturing_count))
     = 1%nat
  /\ Forall (station_like trading_station
               (first_station (wsd_trading_stations (ed_workplaces data))))
       (trading_stations (load_workplaces data trading_count manufacturing_count))
  /\ Forall (station_like "manufacturing_station"
               (first_station (wsd_manufacturing_stations (ed_workplaces data))))
       (manufacturing_stations (load_workplaces data trading_count manufacturing_count))
  /\ NoDup (wp_id <$>
             trading_stations (load_workplaces data trading_count manufacturing_count)
             ++ manufacturing_stations
                  (load_workplaces data trading_count manufacturing_count)).
Proof.
  unfold load_workplaces, range, station_like, first_station.
  cbn [trading_stations manufacturing_stations meeting_room].
  split_and!.
  - by rewrite length_fmap, length_seq.
  - by rewrite length_fmap, length_seq.
  - done.
  - apply Forall_fmap, Forall_forall. intros i _. cbn. done.
  - apply Forall_fmap, Forall_forall. intros i _.
    split; [apply manufacturing_id_type|done].
  - rewrite fmap_app, <- !list_fmap_compose. apply NoDup_app. split_and!.
    + apply NoDup_fmap_2_strong; [|apply NoDup_seq].
      intros i j _ _ H. cbn in H. injection H as H.
      apply pretty_nat_inj in H. lia.
    + intros id (i & -> & _)%list_elem_of_fmap (j & H & _)%list_elem_of_fmap.
      cbn in H. discriminate.
    + apply NoDup_fmap_2_strong; [|apply NoDup_seq].
      intros i j _ _ H. cbn in H. injection H as H.
      apply pretty_nat_inj in H. lia.
Qed.

(** ** The optimizer that [init] builds *)

Lemma expand_rules_no_table (data : EfficiencyData) :
  ed_combination_rules data = None -> load_efficiency_rules data = Ok [].
Proof. unfold load_efficiency_rules, expand_rules. by intros ->. Qed.

(** X9: the optimizer that the constructor builds has a catalog keyed
    by operator name, exactly one meeting room, as many trading and
    manufacturing stations as the configuration says (3 of each by
    default) and no quota-boost target yet; and if it has any rule, its
    data file has the rule table.  So on such an optimizer the scheduler
    finds its meeting room and the allocator its rule table. *)
Theorem init_well_formed (data : EfficiencyData) (catalog : list Operator)
    (settings : ConfigData) :
  on_Ok (init data catalog settings) (fun self =>
    keyed_by_name self
    /\ length (meeting_room (workplaces self)) = 1%nat
    /\ length (trading_stations (workplaces self))
       = Z.to_nat (default 3%Z (cfg_trading_stations_count settings))
    /\ length (manufacturing_stations (workplaces self))
       = Z.to_nat (default 3%Z (cfg_manufacturing_stations_count settings))
    /\ fiammetta_targets self = []
    /\ match efficiency_rules self with
       | [] => True
       | _ :: _ => is_Some (ed_combination_rules (efficiency_data self))
       end).
Proof.
  unfold init.
  destruct (load_efficiency_rules data) as [rules| |] eqn:E; simpl; [|done|done].
  split_and!; try done.
  - intros k op. apply load_operators_keyed.
  - unfold range. by rewrite length_fmap, length_seq.
  - unfold range. by rewrite length_fmap, length_seq.
  - destruct rules as [|r rules]; [done|].
    destruct (ed_combination_rules data) as [cr|] eqn:Hcr; [by eexists|].
    rewrite (expand_rules_no_table _ Hcr) in E. done.
Qed.

(** ** What an allocator call returns *)

Section allocator_results.
Context (self : WorkplaceOptimizer) (workplace : Workplace).

(** [objs] are the entries of the allocator's index for the names
    [required], in order. *)
Definition objs_of (required : list string) (objs : list Operator) : Prop :=
  Forall2 (fun n op => op_by_name self !! n = Some op) required objs.

Lemma op_objs_of_objs required objs :
  op_objs_of self required = Ok objs -> objs_of required objs.
Proof.
  unfold op_objs_of, objs_of.
  assert (forall acc objs,
            for_each (fun acc op_name =>
                        match op_by_name self !! op_name with
                        | Some op => Ok (acc ++ [op])
                        | None => Raise (KeyError op_name)
                        end) required acc = Ok objs ->
            exists new, objs = acc ++ new
                        /\ Forall2 (fun n op => op_by_name self !! n = Some op) required new)
    as Hgen.
  { clear objs. induction required as [|n required IH]; simpl; intros acc objs H.
    - injection H as <-. exists []. by rewrite app_nil_r.
    - bind_inv H. destruct (op_by_name self !! n) as [op|] eqn:Hop; [|done].
      injection E as <-. apply IH in H as (new & -> & Hnew).
      exists (op :: new). rewrite <- app_assoc. split; [done|]. by constructor. }
  intros H. by apply Hgen in H as (new & -> & Hnew).
Qed.

(** The operators that [required] names meet the tier overrides that
    [rule] has for them. *)
Definition tiers_met (rule : OperatorEfficiency) (required : list string) : Prop :=
  forall n op t, n ∈ required -> op_by_name self !! n = Some op ->
    rule_elite_requirements rule !! n = Some t -> (t <= op_elite op)%Z.

Lemma objs_of_elem required objs o :
  objs_of required objs -> o ∈ objs ->
  op_name o ∈ required /\ op_by_name self !! op_name o = Some o.
Proof.
  induction 1 as [|n op required objs Hop _ IH]; [by intros ?%elem_of_nil|].
  intros [->|Ho]%elem_of_cons.
  - unfold op_by_name in *. rewrite (dict_by_name_key _ _ _ Hop). split; [left|done].
  - destruct (IH Ho). split; [by right|done].
Qed.

Lemma objs_of_lookup required objs n op :
  objs_of required objs -> n ∈ required -> op_by_name self !! n = Some op ->
  dict_by_name objs !! n = Some op.
Proof.
  intros Hobjs Hn Hop. rewrite dict_by_name_lookup.
  assert (op ∈ objs) as Hin.
  { clear -Hobjs Hn Hop. induction Hobjs as [|m o required objs Hm _ IH].
    - by apply elem_of_nil in Hn.
    - apply elem_of_cons in Hn as [->|Hn]; [|right; by apply IH].
      rewrite Hop in Hm. injection Hm as <-. left. }
  assert (op_name op = n) as Hname by (by eapply dict_by_name_key).
  destruct (last (named n objs)) as [o|] eqn:Hlast.
  - apply last_Some_elem_of, list_elem_of_In, filter_In in Hlast as [Ho Hno].
    apply bool_decide_eq_true in Hno. apply list_elem_of_In in Ho.
    destruct (objs_of_elem _ _ _ Hobjs Ho) as [_ Ho']. rewrite Hno in Ho'. congruence.
  - apply last_None in Hlast.
    assert (op ∈ named n objs) as Hop'.
    { apply list_elem_of_In, filter_In. split; [by apply list_elem_of_In|].
      by apply bool_decide_eq_true. }
    rewrite Hlast in Hop'. by apply elem_of_nil in Hop'.
Qed.

Lemma check_elite_tiers rule required objs :
  objs_of required objs ->
  check_elite_requirements objs (rule_elite_requirements rule) = true ->
  tiers_met rule required.
Proof.
  intros Hobjs Hc n op t Hn Hop Ht. unfold check_elite_requirements in Hc.
  rewrite forallb_forall in Hc. specialize (Hc (n, t)). simpl in Hc.
  rewrite (objs_of_lookup _ _ _ _ Hobjs Hn Hop) in Hc.
  apply Z.ltb_ge, negb_true_iff, Hc. by apply list_elem_of_In, elem_of_map_to_list.
Qed.

Lemma check_elite_single rule n op :
  op_by_name self !! n = Some op ->
  check_elite_requirements [op]
    {[ n := default 0%Z (rule_elite_requirements rule !! n) ]} = true ->
  tiers_met rule [n].
Proof.
  intros Hop Hc m op' t ->%list_elem_of_singleton Hop' Ht.
  rewrite Hop in Hop'. injection Hop' as <-.
  unfold check_elite_requirements in Hc. rewrite map_to_list_singleton in Hc.
  cbn [forallb fst snd] in Hc. rewrite dict_by_name_lookup in Hc.
  unfold named in Hc. cbn [List.filter] in Hc.
  rewrite bool_decide_eq_true_2 in Hc by (by eapply dict_by_name_key).
  rewrite Ht, andb_true_r in Hc. by apply Z.ltb_ge, negb_true_iff.
Qed.

(** What the search has checked about a candidate it keeps, beyond
    [cand_ok]: it takes one slot for each operator it names and fits in
    the slots that remain, the control-center requirements of its rule
    are satisfied, and its operators meet the rule's tier overrides. *)
Definition cand_fit (st : Alloc) (c : Candidate) : Prop :=
  cand_slots_used c = Z.of_nat (length (cand_required c))
  /\ (cand_slots_used c <= remaining_slots st)%Z
  /\ check_control_center_requirements self
       (rule_requires_control_center (cand_rule c)) = true
  /\ tiers_met (cand_rule c) (cand_required c).

(** The candidate kept so far is sound, and its synergy is above 0 when
    its score is. *)
Definition best_fit (st : Alloc) (best : Best) : Prop :=
  forall c, best.1 = Some c ->
    cand_fit st c /\ ((0 < best.2)%Q -> (0 < cand_efficiency c)%Q).

Lemma best_fit_init st : best_fit st (None, (-1)%Q).
Proof. by intros c. Qed.

Lemma improve_fit st best q c :
  best_fit st best -> cand_fit st c -> ((0 < q)%Q -> (0 < cand_efficiency c)%Q) ->
  best_fit st (improve best q c).
Proof.
  unfold improve. intros Hb Hc Hq. destruct (Qltb best.2 q); [|done].
  by intros c' [= <-].
Qed.

Lemma per_slot_positive (a q : Q) (n : nat) :
  py_div a n = Ok q -> (0 < q)%Q -> (0 < a)%Q.
Proof.
  intros [Hn ->]%py_div_Ok Hq.
  assert (0 < inject_Z (Z.of_nat n))%Q as Hpos.
  { change 0%Q with (inject_Z 0). rewrite <- Zlt_Qlt. lia. }
  assert (a == a / inject_Z (Z.of_nat n) * inject_Z (Z.of_nat n))%Q as ->.
  { rewrite Qmult_comm, Qmult_div_r; [reflexivity|]. intros H. rewrite H in Hpos.
    by apply Qlt_irrefl in Hpos. }
  rewrite <- (Qmult_0_l (inject_Z (Z.of_nat n))). by apply Qmult_lt_compat_r.
Qed.

Lemma negb_orb_false (a b : bool) : negb a || negb b = false -> a = true /\ b = true.
Proof. by destruct a, b. Qed.

Lemma eval_system_rule_fit st rule best best' :
  best_fit st best ->
  eval_system_rule self workplace st rule best = Ok best' -> best_fit st best'.
Proof.
  unfold eval_system_rule. intros Hb H.
  destruct (List.filter _ _) eqn:Hf; [|by injection H as <-].
  if_inv H Hs; [by injection H as <-|].
  bind_inv H.
  if_inv H Hel; [by injection H as <-|].
  if_inv H Hcc; [by injection H as <-|].
  do 2 (let Hc := fresh in if_inv H Hc; [by injection H as <-|]).
  bind_inv H. injection H as <-.
  apply negb_false_iff in Hel, Hcc. apply Z.ltb_ge in Hs.
  apply improve_fit; [done| |simpl; by eapply per_slot_positive].
  split_and!; simpl; [done|done|done|].
  eapply check_elite_tiers; [by apply op_objs_of_objs|done].
Qed.

Lemma eval_system_rules_fit st rules best best' :
  best_fit st best ->
  eval_system_rules self workplace st rules best = Ok best' -> best_fit st best'.
Proof.
  revert best. induction rules as [|rule rules IH]; simpl; intros best Hb H.
  - by injection H as <-.
  - destruct (_ <=? _)%Z; [by injection H as <-|].
    bind_inv H. apply (IH r); [|done]. by eapply eval_system_rule_fit.
Qed.

Lemma eval_generic_each_op_fit st rule best op_name best' :
  best_fit st best ->
  eval_generic_each_op self workplace st rule best op_name = Ok best' -> best_fit st best'.
Proof.
  unfold eval_generic_each_op. intros Hb H.
  if_inv H Hu; [by injection H as <-|].
  bind_inv H. if_inv H Hc; [by injection H as <-|].
  injection H as <-. apply negb_orb_false in Hc as [Hel Hcc].
  rewrite !orb_false_iff in Hu. destruct Hu as [[[[Hrem _] _] _] _].
  apply Z.leb_gt in Hrem.
  apply improve_fit; [done| |done].
  split_and!; simpl; [done|lia|done|].
  destruct (op_by_name self !! op_name) as [op|] eqn:Hop; [|done].
  injection E as <-. by eapply check_elite_single.
Qed.

Lemma eval_generic_rule_fit st rule best best' :
  best_fit st best ->
  eval_generic_rule self workplace st rule best = Ok best' -> best_fit st best'.
Proof.
  unfold eval_generic_rule. intros Hb H.
  if_inv H Hu; [by injection H as <-|].
  bind_inv H. if_inv H Hc; [by injection H as <-|].
  bind_inv H. injection H as <-. apply negb_orb_false in Hc as [Hel Hcc].
  apply orb_false_iff in Hu as [_ Hs%Z.ltb_ge].
  apply improve_fit; [done| |simpl; by eapply per_slot_positive].
  split_and!; simpl; [done|done|done|].
  eapply check_elite_tiers; [by apply op_objs_of_objs|done].
Qed.

Lemma eval_generic_rules_fit st rules best best' :
  best_fit st best ->
  eval_generic_rules self workplace st rules best = Ok best' -> best_fit st best'.
Proof.
  revert best. induction rules as [|rule rules IH]; simpl; intros best Hb H.
  - by injection H as <-.
  - destruct (_ <=? _)%Z; [by injection H as <-|].
    bind_inv H. apply (IH r); [|done].
    destruct (rule_apply_each rule).
    + revert E. apply for_each_inv; [|done].
      intros b n b' _ Hb0. by apply eval_generic_each_op_fit.
    + by eapply eval_generic_rule_fit.
Qed.

Lemma first_pass_select_fit st best :
  first_pass_select self workplace st = Ok best -> best_fit st best.
Proof.
  unfold first_pass_select. intros H. bind_inv H. bind_inv H.
  assert (best_fit st r0) as Hr0.
  { revert E0. apply for_each_inv; [|apply best_fit_init].
    intros b g b' Hg Hb Hev. destruct (String.eqb _ _); [by injection Hev as <-|].
    revert Hev. by apply eval_system_rules_fit. }
  revert H. by apply eval_generic_rules_fit.
Qed.

Lemma eval_each_op_fit st rule best op_name best' :
  (0 < remaining_slots st)%Z -> best_fit st best ->
  eval_each_op self workplace st rule best op_name = Ok best' -> best_fit st best'.
Proof.
  unfold eval_each_op. intros Hrem Hb H.
  if_inv H Hu; [by injection H as <-|].
  bind_inv H. if_inv H Hc; [by injection H as <-|].
  injection H as <-. apply negb_orb_false in Hc as [Hel Hcc].
  apply improve_fit; [done| |done].
  split_and!; simpl; [done|lia|done|].
  destruct (op_by_name self !! op_name) as [op|] eqn:Hop; [|done].
  injection E as <-. by eapply check_elite_single.
Qed.

Lemma eval_normal_rule_fit st rule best best' :
  best_fit st best ->
  eval_normal_rule self workplace st rule best = Ok best' -> best_fit st best'.
Proof.
  unfold eval_normal_rule. intros Hb H.
  if_inv H Hs; [by injection H as <-|].
  if_inv H Hu; [by injection H as <-|].
  bind_inv H. if_inv H Hc; [by injection H as <-|].
  bind_inv H. injection H as <-. apply negb_orb_false in Hc as [Hel Hcc].
  apply Z.ltb_ge in Hs.
  apply improve_fit; [done| |simpl; by eapply per_slot_positive].
  split_and!; simpl; [done|done|done|].
  eapply check_elite_tiers; [by apply op_objs_of_objs|done].
Qed.

Lemma fill_select_fit st best :
  (0 < remaining_slots st)%Z ->
  fill_select self workplace st = Ok best -> best_fit st best.
Proof.
  unfold fill_select. intros Hrem. apply for_each_inv; [|apply best_fit_init].
  intros b rule b' _ Hb. destruct (rule_apply_each rule).
  - apply for_each_inv; [|done]. intros b0 n b1 _ Hb0. by apply eval_each_op_fit.
  - by apply eval_normal_rule_fit.
Qed.

Lemma accepted_fit st best c :
  best_fit st best -> accepted best = Some c ->
  cand_fit st c /\ (0 < cand_efficiency c)%Q.
Proof.
  unfold accepted. intros Hb H. destruct best.1 as [c'|] eqn:Hc; [|done].
  destruct (Qltb 0 best.2) eqn:Hq; [|done]. injection H as <-.
  destruct (Hb c' Hc) as [Hfit Hpos]. split; [done|]. by apply Hpos, Qltb_lt.
Qed.

(** *** The effect of a call on its accumulators *)

Lemma assign_ops_objs required st st' :
  for_each (assign_op self) required st = Ok st' ->
  exists new, assigned_ops st' = assigned_ops st ++ new /\ objs_of required new.
Proof.
  revert st. induction required as [|n required IH]; simpl; intros st H.
  - injection H as <-. exists []. split; [by rewrite app_nil_r|constructor].
  - bind_inv H. unfold assign_op in E.
    destruct (op_by_name self !! n) as [op|] eqn:Hop; [|done].
    destruct (operator_usage st !! n) as [cnt|]; [|done]. injection E as <-.
    apply IH in H as (new & -> & Hnew). simpl.
    exists (op :: new). rewrite <- app_assoc. split; [done|]. by constructor.
Qed.

(** A dormitory requirement that some compiled rule states. *)
Definition from_rule (req : DormitoryRequirement) : Prop :=
  exists r, r ∈ efficiency_rules self /\ req ∈ rule_requires_dormitory r.

(** What the state [st'] has gained over [st]: operators of the index,
    one description at least if any operator, a synergy above 0 if any
    operator, and control-center requirements that are satisfied; the
    new operators have taken their slots from those that remained. *)
Definition gains (st st' : Alloc) : Prop :=
  exists (new : list Operator) (descs : list string) (gain : Q)
         (ccs : list ControlCenterRequirement) (ds : list DormitoryRequirement),
    assigned_ops st' = assigned_ops st ++ new
    /\ applied_combinations st' = applied_combinations st ++ descs
    /\ (total_synergy st' == total_synergy st + gain)%Q
    /\ applied_control_center_reqs st' = applied_control_center_reqs st ++ ccs
    /\ applied_dormitory_reqs st' = applied_dormitory_reqs st ++ ds
    /\ remaining_slots st' = (remaining_slots st - Z.of_nat (length new))%Z
    /\ Forall (fun op => op ∈ get_available_operators self) new
    /\ check_control_center_requirements self ccs = true
    /\ Forall from_rule ds
    /\ (new = [] -> descs = [] /\ (gain == 0)%Q)
    /\ (new <> [] -> descs <> [] /\ (0 < gain)%Q /\ (0 <= remaining_slots st')%Z).

Lemma check_control_center_app (reqs1 reqs2 : list ControlCenterRequirement) :
  check_control_center_requirements self (reqs1 ++ reqs2)
  = check_control_center_requirements self reqs1
    && check_control_center_requirements self reqs2.
Proof. apply forallb_app. Qed.

Lemma gains_refl st : gains st st.
Proof.
  exists [], [], 0%Q, [], []. rewrite !app_nil_r. split_and!; try done.
  - by rewrite Qplus_0_r.
  - simpl. lia.
Qed.

Lemma gains_trans st1 st2 st3 : gains st1 st2 -> gains st2 st3 -> gains st1 st3.
Proof.
  intros (n1 & d1 & g1 & c1 & m1 & A1 & D1 & G1 & C1 & M1 & R1 & F1 & K1 & L1 & E1 & N1)
         (n2 & d2 & g2 & c2 & m2 & A2 & D2 & G2 & C2 & M2 & R2 & F2 & K2 & L2 & E2 & N2).
  exists (n1 ++ n2), (d1 ++ d2), (g1 + g2)%Q, (c1 ++ c2), (m1 ++ m2). split_and!.
  - by rewrite A2, A1, app_assoc.
  - by rewrite D2, D1, app_assoc.
  - rewrite G2, G1. ring.
  - by rewrite C2, C1, app_assoc.
  - by rewrite M2, M1, app_assoc.
  - rewrite R2, R1, length_app. lia.
  - by apply Forall_app.
  - by rewrite check_control_center_app, K1, K2.
  - by apply Forall_app.
  - intros [-> ->]%app_eq_nil. destruct (E1 eq_refl) as [-> Hg1].
    destruct (E2 eq_refl) as [-> Hg2]. split; [done|]. rewrite Hg1, Hg2. reflexivity.
  - intros Hne. destruct n1 as [|o1 n1], n2 as [|o2 n2]; [done|..].
    + destruct (E1 eq_refl) as [-> Hg1]. destruct (N2 ltac:(done)) as (? & ? & ?).
      split_and!; [done| |done]. rewrite Hg1, Qplus_0_l. done.
    + destruct (E2 eq_refl) as [-> Hg2]. destruct (N1 ltac:(done)) as (? & ? & ?).
      split_and!; [by destruct d1| |].
      * rewrite Hg2, Qplus_0_r. done.
      * rewrite R2. simpl. lia.
    + destruct (N1 ltac:(done)) as (? & ? & ?). destruct (N2 ltac:(done)) as (? & ? & ?).
      split_and!; [by destruct d1| |done].
      rewrite <- (Qplus_0_r 0). by apply Qplus_lt_le_compat; [|apply Qlt_le_weak].
Qed.

Lemma objs_of_available required objs :
  objs_of required objs -> Forall (fun op => op ∈ get_available_operators self) objs.
Proof.
  induction 1 as [|n op required objs Hop _ IH]; constructor; [|done].
  by eapply dict_by_name_elem.
Qed.

Lemma apply_candidate_gains st c st' :
  cand_ok self workplace st c -> cand_fit st c -> (0 < cand_efficiency c)%Q ->
  apply_candidate self st c = Ok st' -> gains st st'.
Proof.
  intros (_ & Hone & Hrule & _) (Hslots & Hle & Hcc & _) Hpos H.
  unfold apply_candidate in H. bind_inv H. injection H as <-.
  destruct (assign_ops_objs _ _ _ E) as (new & Hnew & Hobjs).
  destruct (assign_ops_Ok _ _ _ _ E) as (_ & _ & _ & _ & Hr & Ht & Ha & Hc & Hd & _).
  assert (length new = length (cand_required c)) as Hlen
    by (symmetry; by eapply Forall2_length).
  eexists new, [_], (cand_efficiency c), (rule_requires_control_center (cand_rule c)),
    (rule_requires_dormitory (cand_rule c)).
  simpl. rewrite Hr, Ht, Ha, Hc, Hd, Hlen, <- Hslots.
  split_and!; try done.
  - by eapply objs_of_available.
  - apply Forall_forall. intros req Hreq. by exists (cand_rule c).
  - intros ->. simpl in Hlen. lia.
  - intros _. split_and!; [done|done|lia].
Qed.

Lemma first_pass_gains st st' : first_pass self workplace st = Ok st' -> gains st st'.
Proof.
  unfold first_pass. intros H. bind_inv H.
  destruct (accepted r) as [c|] eqn:Hc; [|injection H as <-; apply gains_refl].
  destruct (accepted_fit st r c) as [Hfit Hpos]; [by apply first_pass_select_fit|done|].
  eapply apply_candidate_gains; [|done|done|done].
  eapply accepted_ok; [|done]. by apply first_pass_select_ok.
Qed.

Lemma fill_loop_gains fuel st st' :
  fill_loop self workplace fuel st = Ok st' -> gains st st'.
Proof.
  revert st. induction fuel as [|fuel IH]; simpl; intros st H.
  - destruct (0 <? remaining_slots st)%Z; [done|]. injection H as <-. apply gains_refl.
  - destruct (0 <? remaining_slots st)%Z eqn:Hrem;
      [|injection H as <-; apply gains_refl].
    apply Z.ltb_lt in Hrem.
    bind_inv H. destruct r as [st1|]; [|injection H as <-; apply gains_refl].
    eapply gains_trans; [|by apply IH].
    unfold fill_step in E. bind_inv E.
    destruct (accepted r) as [c|] eqn:Hc; [|done]. bind_inv E. injection E as <-.
    destruct (accepted_fit st r c) as [Hfit Hpos]; [by apply fill_select_fit|done|].
    eapply apply_candidate_gains; [|done|done|done].
    eapply accepted_ok; [|done]. by apply fill_select_ok.
Qed.

(** The result of a call, read off its accumulators. *)
Lemma optimize_workplace_sound usage shift_used res usage' shift_used' :
  optimize_workplace self workplace usage shift_used = Ok (res, usage', shift_used') ->
  res_total_efficiency res
  = (wp_base_efficiency workplace + res_operator_efficiency res)%Q
  /\ Forall (fun op => op ∈ get_available_operators self) (res_optimal_operators res)
  /\ check_control_center_requirements self (res_control_center_requirements res) = true
  /\ Forall from_rule (res_dormitory_requirements res)
  /\ (res_optimal_operators res = [] ->
      res_applied_combinations res = [] /\ (res_operator_efficiency res == 0)%Q)
  /\ (res_optimal_operators res <> [] ->
      res_applied_combinations res <> [] /\ (0 < res_operator_efficiency res)%Q
      /\ (Z.of_nat (length (res_optimal_operators res)) <= wp_max_operators workplace)%Z).
Proof.
  unfold optimize_workplace. intros H. bind_inv H. bind_inv H.
  injection H as <- <- <-.
  apply first_pass_gains in E
    as (n1 & d1 & g1 & c1 & m1 & A1 & D1 & G1 & C1 & M1 & R1 & F1 & K1 & L1 & E1 & N1).
  simpl in A1, D1, G1, C1, M1, R1. rewrite Qplus_0_l in G1.
  assert (exists n2 d2 g2 c2 m2,
            assigned_ops r0 = n1 ++ n2
            /\ applied_combinations r0 = d1 ++ d2
            /\ (total_synergy r0 == g1 + g2)%Q
            /\ applied_control_center_reqs r0 = c1 ++ c2
            /\ applied_dormitory_reqs r0 = m1 ++ m2
            /\ Forall (fun op => op ∈ get_available_operators self) n2
            /\ check_control_center_requirements self c2 = true
            /\ Forall from_rule m2
            /\ (n2 = [] -> d2 = [] /\ (g2 == 0)%Q)
            /\ (n2 <> [] -> d2 <> [] /\ (0 < g2)%Q
                /\ (Z.of_nat (length n2) <= remaining_slots r)%Z))
    as (n2 & d2 & g2 & c2 & m2 & A2 & D2 & G2 & C2 & M2 & F2 & K2 & L2 & E2 & N2).
  { unfold fill_remaining, optimize_workplace_recursive in E0.
    destruct (0 <? remaining_slots r)%Z.
    - bind_inv E0. injection E0 as <-.
      apply fill_loop_gains in E
        as (n2 & d2 & g2 & c2 & m2 & A2 & D2 & G2 & C2 & M2 & R2 & F2 & K2 & L2 & E2 & N2).
      simpl in A2, D2, G2, C2, M2, R2. rewrite Qplus_0_l in G2.
      exists n2, d2, g2, c2, m2. simpl.
      rewrite A2, D2, G2, C2, M2, app_nil_r, A1, D1, G1, C1, M1.
      split_and!; try done. intros Hne. destruct (N2 Hne) as (? & ? & ?).
      split_and!; [done|done|lia].
    - injection E0 as <-. exists [], [], 0%Q, [], []. rewrite !app_nil_r, Qplus_0_r.
      split_and!; try done. }
  simpl. split; [done|]. rewrite A2, D2, G2, C2, M2. split_and!.
  - by apply Forall_app.
  - by rewrite check_control_center_app, K1, K2.
  - by apply Forall_app.
  - intros [-> ->]%app_eq_nil. destruct (E1 eq_refl) as [-> Hg1].
    destruct (E2 eq_refl) as [-> Hg2]. split; [done|]. rewrite Hg1, Hg2. reflexivity.
  - intros Hne. rewrite length_app.
    destruct n1 as [|o1 n1], n2 as [|o2 n2]; [done|..].
    + destruct (E1 eq_refl) as [-> Hg1]. destruct (N2 ltac:(done)) as (? & ? & ?).
      split_and!; [done| |simpl in *; lia]. rewrite Hg1, Qplus_0_l. done.
    + destruct (E2 eq_refl) as [-> Hg2]. destruct (N1 ltac:(done)) as (? & ? & ?).
      split_and!; [by destruct d1| |simpl in *; lia].
      rewrite Hg2, Qplus_0_r. done.
    + destruct (N1 ltac:(done)) as (? & ? & ?). destruct (N2 ltac:(done)) as (? & ? & ?).
      split_and!; [by destruct d1| |simpl in *; lia].
      rewrite <- (Qplus_0_r 0). by apply Qplus_lt_le_compat; [|apply Qlt_le_weak].
Qed.

End allocator_results.

(** *** The results of a call *)

Lemma check_control_center_Forall (self : WorkplaceOptimizer)
    (reqs : list ControlCenterRequirement) :
  check_control_center_requirements self reqs = true <->
  Forall (fun req => exists op, operators self !! req_operator req = Some op
                                /\ op_own op = true
                                /\ (req_elite_required req <= op_elite op)%Z) reqs.
Proof.
  unfold check_control_center_requirements.
  rewrite forallb_forall, Forall_forall. split.
  - intros H req Hreq%list_elem_of_In. specialize (H req Hreq).
    destruct (operators self !! req_operator req) as [op|]; [|done].
    exists op. apply negb_true_iff, orb_false_iff in H as [Hown%negb_false_iff Hel%Z.ltb_ge].
    done.
  - intros H req Hreq%list_elem_of_In. destruct (H req Hreq) as (op & -> & Hown & Hel).
    apply negb_true_iff, orb_false_iff. split; [by apply negb_false_iff|by apply Z.ltb_ge].
Qed.

(** X10: an allocator call never places more operators in a workplace
    than the workplace has slots, and none in a workplace without
    slots. *)
Theorem room_within_capacity (self : WorkplaceOptimizer) (workplace : Workplace)
    (usage : gmap string Z) (shift_used : gset string) :
  on_Ok (optimize_workplace self workplace usage shift_used) (fun r =>
    (Z.of_nat (length (res_optimal_operators r.1.1))
     <= Z.max 0 (wp_max_operators workplace))%Z).
Proof.
  destruct (optimize_workplace _ _ _ _) as [[[res usage'] shift']| |] eqn:E; simpl;
    [|done|done].
  apply optimize_workplace_sound in E as (_ & _ & _ & _ & _ & Hn).
  destruct (res_optimal_operators res) as [|o l] eqn:Hl; [simpl; lia|].
  destruct Hn as (_ & _ & Hn); [done|]. lia.
Qed.

(** X11: every operator an allocator call places is an entry of the
    catalog that the player owns. *)
Theorem placed_operators_are_owned (self : WorkplaceOptimizer) (workplace : Workplace)
    (usage : gmap string Z) (shift_used : gset string) :
  on_Ok (optimize_workplace self workplace usage shift_used) (fun r =>
    Forall (fun op => op_own op = true /\ exists k, operators self !! k = Some op)
           (res_optimal_operators r.1.1)).
Proof.
  destruct (optimize_workplace _ _ _ _) as [[[res usage'] shift']| |] eqn:E; simpl;
    [|done|done].
  apply optimize_workplace_sound in E as (_ & Hf & _).
  eapply Forall_impl; [exact Hf|]. intros op Hop%available_elem. tauto.
Qed.

(** X12: the control-center requirements that a result records are all
    satisfied: each names an owned operator of the catalog at or above
    the required tier.  Every evaluation path checks them, the
    remaining-slot filler included. *)
Theorem recorded_control_center_requirements_hold (self : WorkplaceOptimizer)
    (workplace : Workplace) (usage : gmap string Z) (shift_used : gset string) :
  on_Ok (optimize_workplace self workplace usage shift_used) (fun r =>
    Forall (fun req => exists op, operators self !! req_operator req = Some op
                                  /\ op_own op = true
                                  /\ (req_elite_required req <= op_elite op)%Z)
           (res_control_center_requirements r.1.1)).
Proof.
  destruct (optimize_workplace _ _ _ _) as [[[res usage'] shift']| |] eqn:E; simpl;
    [|done|done].
  apply optimize_workplace_sound in E as (_ & _ & Hc & _).
  by apply check_control_center_Forall.
Qed.


(** What both searches have checked about a candidate that is applied. *)
Definition eligible (self : WorkplaceOptimizer) (workplace : Workplace) (st : Alloc)
    (best : Best) : Prop :=
  forall c, accepted best = Some c ->
    cand_slots_used c = Z.of_nat (length (cand_required c))
    /\ (1 <= cand_slots_used c <= remaining_slots st)%Z
    /\ Forall (fun n => unavailable self workplace st n = false) (cand_required c)
    /\ Forall (fun req => exists op, operators self !! req_operator req = Some op
                                     /\ op_own op = true
                                     /\ (req_elite_required req <= op_elite op)%Z)
              (rule_requires_control_center (cand_rule c))
    /\ (forall n op t, n ∈ cand_required c -> op_by_name self !! n = Some op ->
          rule_elite_requirements (cand_rule c) !! n = Some t -> (t <= op_elite op)%Z)
    /\ (0 < cand_efficiency c)%Q.

Lemma fit_eligible self workplace st best :
  best_ok self workplace st best -> best_fit self st best ->
  eligible self workplace st best.
Proof.
  intros Hok Hfit c Hc.
  destruct (accepted_fit self st best c Hfit Hc) as [(Hs & Hle & Hcc & Ht) Hpos].
  destruct (accepted_ok self workplace st best c Hok Hc) as (Hav & Hone & _).
  split_and!; try done. by apply check_control_center_Forall.
Qed.

(** X14: a candidate that either search keeps and that is applied takes
    one slot for each operator it names and fits in the slots that
    remain; each of its operators is owned, unused in this workplace and
    this shift and under its usage cap; the control-center requirements
    of its rule are satisfied; its operators meet the rule's tier
    overrides; and its synergy is above 0. *)
Theorem applied_candidates_are_eligible (self : WorkplaceOptimizer)
    (workplace : Workplace) (st : Alloc) :
  (0 < remaining_slots st)%Z ->
  on_Ok (first_pass_select self workplace st) (eligible self workplace st)
  /\ on_Ok (fill_select self workplace st) (eligible self workplace st).
Proof.
  intros Hrem. split.
  - destruct (first_pass_select self workplace st) as [best| |] eqn:E; simpl; [|done|done].
    apply fit_eligible; [by apply first_pass_select_ok|by eapply first_pass_select_fit].
  - destruct (fill_select self workplace st) as [best| |] eqn:E; simpl; [|done|done].
    apply fit_eligible; [by apply fill_select_ok|by eapply fill_select_fit].
Qed.

Lemma applied_candidates_are_eligible_witness :
  (0 < remaining_slots (initial_alloc trading_1 (initial_usage mixed_self) ∅))%Z
  /\ on_Ok (first_pass_select mixed_self trading_1
             (initial_alloc trading_1 (initial_usage mixed_self) ∅))
       (eligible mixed_self trading_1
          (initial_alloc trading_1 (initial_usage mixed_self) ∅))
  /\ on_Ok (fill_select mixed_self trading_1
             (initial_alloc trading_1 (initial_usage mixed_self) ∅))
       (eligible mixed_self trading_1
          (initial_alloc trading_1 (initial_usage mixed_self) ∅)).
Proof.
  assert (0 < remaining_slots (initial_alloc trading_1 (initial_usage mixed_self) ∅))%Z
    as H by (simpl; lia).
  exact (conj H (applied_candidates_are_eligible mixed_self trading_1 _ H)).
Defined.

(** X15: what an allocator call does to the two objects it shares with
    the scheduler.  The result is for the workplace of the call; the
    exclusivity set gains exactly the names of the operators placed; each
    of them was outside the set and under its usage cap before the call;
    and the usage count of a name grows by the number of times the
    result lists it. *)
Theorem optimize_workplace_bookkeeping (self : WorkplaceOptimizer) (workplace : Workplace)
    (usage : gmap string Z) (shift_used : gset string) :
  on_Ok (optimize_workplace self workplace usage shift_used) (fun r =>
    res_workplace r.1.1 = workplace
    /\ r.2 = shift_used ∪ list_to_set (result_names r.1.1)
    /\ Forall (fun x => (x ∉ shift_used)
                        /\ (usage_of usage x < max_usage self workplace x)%Z)
         (result_names r.1.1)
    /\ forall x, usage_of r.1.2 x
                 = (usage_of usage x
                    + Z.of_nat (count_occ String.string_dec (result_names r.1.1) x))%Z).
Proof.
  destruct (optimize_workplace _ _ _ _) as [[[res usage'] shift']| |] eqn:E; simpl;
    [|done|done].
  by apply optimize_workplace_spec in E as (? & ? & ? & ? & _).
Qed.

(** ** An allocator call returns on well-formed inputs *)

Section allocator_returns_facts.
Context (self : WorkplaceOptimizer) (workplace : Workplace).
Hypothesis rules_ok : rules_nonempty self.
Hypothesis systems_ok : is_Some (ed_combination_rules (efficiency_data self)).

Lemma system_groups_Ok : exists groups, system_groups self workplace = Ok groups.
Proof.
  unfold system_groups. destruct systems_ok as [cr Hcr].
  destruct (for_each_Ok (fun _ => True)
              (fun groups rule =>
                 system_name ← system_name_of self workplace rule;
                 Ok (group_append system_name rule groups))
              (all_rules self workplace) []) as (groups & -> & _); [|done|by eexists].
  intros groups rule _ _. unfold system_name_of. rewrite Hcr. simpl. by eexists.
Qed.

Lemma unavailable_objs st required :
  Forall (fun n => unavailable self workplace st n = false) required ->
  exists objs, op_objs_of self required = Ok objs.
Proof.
  intros Hu. apply op_objs_of_Ok.
  eapply Forall_impl; [exact Hu|]. intros n Hn. apply unavailable_false in Hn. tauto.
Qed.

Lemma eval_system_rule_Ok st rule best :
  rule_operators rule <> [] ->
  exists best', eval_system_rule self workplace st rule best = Ok best'.
Proof.
  unfold eval_system_rule. intros Hne.
  destruct (List.filter _ _) eqn:Hf; [|by eexists].
  destruct (_ <? _)%Z; [by eexists|].
  destruct (unavailable_objs st (rule_operators rule)) as [objs ->];
    [by apply filter_nil_Forall|]. simpl.
  repeat (match goal with |- context [if ?c then _ else _] => destruct c end;
          [by eexists|]).
  destruct (rule_operators rule); [done|]. simpl. by eexists.
Qed.

Lemma eval_system_rules_Ok st rules best :
  (forall r, r ∈ rules -> rule_operators r <> []) ->
  exists best', eval_system_rules self workplace st rules best = Ok best'.
Proof.
  revert best. induction rules as [|rule rules IH]; simpl; intros best Hne; [by eexists|].
  destruct (_ <=? _)%Z; [by eexists|].
  destruct (eval_system_rule_Ok st rule best) as [b ->]; [apply Hne; left|]. simpl.
  apply IH. intros r Hr. apply Hne. by right.
Qed.

Lemma eval_generic_each_op_Ok st rule best n :
  exists best', eval_generic_each_op self workplace st rule best n = Ok best'.
Proof.
  unfold eval_generic_each_op.
  destruct (_ || _ || _ || _ || _) eqn:Hu; [by eexists|].
  rewrite !orb_false_iff, negb_false_iff, bool_decide_eq_true in Hu.
  destruct Hu as [[_ [op ->]] _]. simpl.
  destruct (_ || _); by eexists.
Qed.

Lemma eval_generic_rule_Ok st rule best :
  rule_operators rule <> [] ->
  exists best', eval_generic_rule self workplace st rule best = Ok best'.
Proof.
  unfold eval_generic_rule. intros Hne.
  destruct (existsb _ _) eqn:Hu; [by eexists|]. simpl.
  destruct (_ <? _)%Z; [by eexists|].
  destruct (unavailable_objs st (rule_operators rule)) as [objs ->];
    [by apply existsb_false_Forall|]. simpl.
  destruct (_ || _); [by eexists|].
  destruct (rule_operators rule); [done|]. simpl. by eexists.
Qed.

Lemma eval_generic_rules_Ok st rules best :
  (forall r, r ∈ rules -> rule_operators r <> []) ->
  exists best', eval_generic_rules self workplace st rules best = Ok best'.
Proof.
  revert best. induction rules as [|rule rules IH]; simpl; intros best Hne; [by eexists|].
  destruct (_ <=? _)%Z; [by eexists|].
  assert (exists b, (if rule_apply_each rule
                     then for_each (eval_generic_each_op self workplace st rule)
                            (rule_operators rule) best
                     else eval_generic_rule self workplace st rule best) = Ok b)
    as [b ->].
  { destruct (rule_apply_each rule).
    - destruct (for_each_Ok (fun _ => True) (eval_generic_each_op self workplace st rule)
                  (rule_operators rule) best) as (b & Hb & _); [|done|by exists b].
      intros b n _ _. destruct (eval_generic_each_op_Ok st rule b n) as [b' ->].
      by eexists.
    - apply eval_generic_rule_Ok, Hne. left. }
  simpl. apply IH. intros r Hr. apply Hne. by right.
Qed.

Lemma first_pass_select_Ok st :
  exists best, first_pass_select self workplace st = Ok best.
Proof.
  unfold first_pass_select. destruct system_groups_Ok as [groups Hg]. rewrite Hg. simpl.
  assert (forall g r, g ∈ groups -> r ∈ g.2 -> rule_operators r <> []) as Hne.
  { intros g r Hgin Hr. apply rules_ok.
    eapply all_rules_elem, system_groups_elem; eauto. }
  destruct (for_each_Ok (fun _ => True)
              (fun best g => if String.eqb g.1 generic then Ok best
                             else eval_system_rules self workplace st g.2 best)
              groups (None, (-1)%Q)) as (b & -> & _); [|done|].
  - intros b g Hgin _. destruct (String.eqb _ _); [by eexists|].
    destruct (eval_system_rules_Ok st g.2 b) as [b' ->];
      [intros r Hr; by apply (Hne g r)|by eexists].
  - simpl. apply eval_generic_rules_Ok. intros r Hr.
    destruct (assoc_get generic groups) as [rs|] eqn:Ha; simpl in Hr.
    + apply assoc_get_elem in Ha as (k & Ha). by apply (Hne (k, rs)).
    + by apply elem_of_nil in Hr.
Qed.

Lemma first_pass_Ok st :
  usage_keys self st ->
  exists st', first_pass self workplace st = Ok st' /\ usage_keys self st'.
Proof.
  intros Hk. unfold first_pass. destruct (first_pass_select_Ok st) as [best Hb].
  rewrite Hb. simpl. destruct (accepted best) as [c|] eqn:Hc; [|by exists st].
  apply (apply_candidate_keys self workplace); [|done].
  eapply accepted_ok; [|done]. by apply first_pass_select_ok.
Qed.

Lemma fill_loop_keys fuel st st' :
  usage_keys self st -> fill_loop self workplace fuel st = Ok st' -> usage_keys self st'.
Proof.
  revert st. induction fuel as [|fuel IH]; simpl; intros st Hk H.
  - destruct (0 <? remaining_slots st)%Z; [done|]. by injection H as <-.
  - destruct (0 <? remaining_slots st)%Z; [|by injection H as <-].
    bind_inv H. destruct r as [st1|]; [|by injection H as <-].
    apply (IH st1); [|done].
    apply fill_step_Some in E as (c & Hc & Ha).
    destruct (apply_candidate_keys self workplace st c Hc Hk) as (st2 & Ha2 & Hk2).
    rewrite Ha in Ha2. by injection Ha2 as <-.
Qed.

Lemma fill_remaining_Ok st :
  usage_keys self st ->
  exists st', fill_remaining self workplace st = Ok st' /\ usage_keys self st'.
Proof.
  intros Hk. unfold fill_remaining, optimize_workplace_recursive.
  destruct (0 <? remaining_slots st)%Z; [|by exists st].
  match goal with
  | |- context [fill_loop self workplace ?fuel ?st0] =>
      destruct (fill_loop_Ok self workplace fuel st0 rules_ok) as [rec Hrec];
        [done|simpl; lia|];
      pose proof (fill_loop_keys fuel st0 rec) as Hkeys
  end.
  rewrite Hrec. simpl. eexists. split; [done|].
  intros n Hn. simpl. by apply Hkeys.
Qed.

Lemma optimize_workplace_Ok usage shift_used :
  (forall n, is_Some (op_by_name self !! n) -> is_Some (usage !! n)) ->
  exists res usage' shift_used',
    optimize_workplace self workplace usage shift_used = Ok (res, usage', shift_used')
    /\ forall n, is_Some (op_by_name self !! n) -> is_Some (usage' !! n).
Proof.
  intros Hk. unfold optimize_workplace.
  destruct (first_pass_Ok (initial_alloc workplace usage shift_used)) as (st1 & -> & Hk1);
    [done|]. simpl.
  destruct (fill_remaining_Ok st1 Hk1) as (st2 & -> & Hk2). simpl.
  by eexists _, _, _.
Qed.

End allocator_returns_facts.

Lemma initial_usage_keys (self : WorkplaceOptimizer) (n : string) :
  is_Some (op_by_name self !! n) -> is_Some (initial_usage self !! n).
Proof.
  intros [op Hop]. unfold op_by_name in Hop.
  pose proof (dict_by_name_key _ _ _ Hop) as Hn.
  apply dict_by_name_elem in Hop. unfold initial_usage.
  assert (forall (l : list Operator) (d : gmap string Z),
            op ∈ l \/ is_Some (d !! n) ->
            is_Some (foldl (fun d op => <[op_name op := 0%Z]> d) d l !! n)) as Hgen.
  { induction l as [|o l IH]; simpl; intros d [Hin|Hd].
    - by apply elem_of_nil in Hin.
    - done.
    - apply IH. apply elem_of_cons in Hin as [->|Hin]; [|by left].
      right. rewrite Hn. rewrite lookup_insert_eq. by eexists.
    - apply IH. right. rewrite lookup_insert_is_Some.
      destruct (decide (op_name o = n)); [by left|by right]. }
  apply Hgen. by left.
Qed.

(** X16: when every compiled rule has a non-empty core group, the data
    file has its rule table and the usage budget has an entry for every
    owned operator, an allocator call returns a result: it raises
    nothing and does not run out of passes. *)
Theorem optimize_workplace_returns (self : WorkplaceOptimizer) (workplace : Workplace)
    (usage : gmap string Z) (shift_used : gset string) :
  rules_nonempty self ->
  is_Some (ed_combination_rules (efficiency_data self)) ->
  (forall n, is_Some (op_by_name self !! n) -> is_Some (usage !! n)) ->
  exists r, optimize_workplace self workplace usage shift_used = Ok r.
Proof.
  intros Hne Hsys Hk.
  destruct (optimize_workplace_Ok self workplace Hne Hsys usage shift_used Hk)
    as (res & usage' & shift' & H & _).
  by eexists.
Qed.

Lemma optimize_workplace_returns_witness :
  rules_nonempty mixed_self
  /\ is_Some (ed_combination_rules (efficiency_data mixed_self))
  /\ (forall n, is_Some (op_by_name mixed_self !! n) ->
                is_Some (initial_usage mixed_self !! n))
  /\ exists r, optimize_workplace mixed_self trading_1 (initial_usage mixed_self) ∅ = Ok r.
Proof.
  assert (rules_nonempty mixed_self) as Hne.
  { intros r Hr. cbn in Hr.
    repeat (apply elem_of_cons in Hr as [->|Hr]; [done|]). by apply elem_of_nil in Hr. }
  assert (is_Some (ed_combination_rules (efficiency_data mixed_self))) as Hsys
    by (by eexists).
  pose proof (initial_usage_keys mixed_self) as Hk.
  exact (conj Hne (conj Hsys (conj Hk
           (optimize_workplace_returns mixed_self trading_1 _ ∅ Hne Hsys Hk)))).
Defined.

(** ** The quota-boost selector *)

Lemma scores_add_keys (op : string) (score : Q) (op_scores : list (string * Q)) :
  fst <$> scores_add op score op_scores
  = if bool_decide (op ∈ fst <$> op_scores) then fst <$> op_scores
    else (fst <$> op_scores) ++ [op].
Proof.
  induction op_scores as [|e l IH]; [done|]. cbn [scores_add].
  destruct (String.eqb_spec e.1 op) as [Heq|Hne]; rewrite !fmap_cons.
  - rewrite bool_decide_eq_true_2; [done|]. rewrite Heq. left.
  - rewrite IH. case_bool_decide as Hin.
    + rewrite bool_decide_eq_true_2; [done|]. by right.
    + rewrite bool_decide_eq_false_2; [done|].
      intros [?|?]%elem_of_cons; [by apply Hne|done].
Qed.

Lemma fill_targets_take (selected sorted_ops : list string) :
  (length selected < 3)%nat ->
  exists k, fill_targets selected sorted_ops = selected ++ take k sorted_ops
            /\ (length (fill_targets selected sorted_ops) <= 3)%nat.
Proof.
  revert selected. induction sorted_ops as [|op ops IH]; intros selected Hsel;
    cbn [fill_targets].
  - exists 0%nat. rewrite app_nil_r. split; [done|lia].
  - destruct (3 <=? length (selected ++ [op]))%nat eqn:Hlen.
    + exists 1%nat. split; [reflexivity|].
      rewrite length_app. cbn [length]. lia.
    + apply Nat.leb_gt in Hlen.
      destruct (IH (selected ++ [op]) Hlen) as (k & Hk & Hle). exists (S k).
      rewrite Hk in *. rewrite <- app_assoc. split; [done|].
      by rewrite <- app_assoc in Hle.
Qed.

(** The three preferred targets, in the order of the source. *)
Definition preferred_targets : list string := ["巫恋"; "龙舌兰"; "但书"].

(** The score table while it is built: its keys are pairwise distinct,
    can be boosted, and are not among the preferred targets already
    selected. *)
Definition scores_ok (self : WorkplaceOptimizer) (selected : list string)
    (op_scores : list (string * Q)) : Prop :=
  NoDup (fst <$> op_scores)
  /\ Forall (fun n => boostable self n = true /\ n ∉ selected) (fst <$> op_scores).

Lemma scores_add_ok self selected op score op_scores :
  boostable self op = true -> op ∉ selected ->
  scores_ok self selected op_scores ->
  scores_ok self selected (scores_add op score op_scores).
Proof.
  intros Hb Hs [Hnd Hf]. unfold scores_ok. rewrite scores_add_keys.
  case_bool_decide as Hin; [done|]. split.
  - apply NoDup_app. split_and!; [done| |apply NoDup_singleton].
    intros x Hx ->%list_elem_of_singleton. done.
  - apply Forall_app. split; [done|]. by repeat constructor.
Qed.

Lemma select_fiammetta_targets_Ok (self : WorkplaceOptimizer) :
  exists targets,
    select_fiammetta_targets self = Ok targets
    /\ (length targets <= 3)%nat
    /\ NoDup targets
    /\ Forall (fun n => boostable self n = true) targets
    /\ List.filter (boostable self) preferred_targets `prefix_of` targets.
Proof.
  unfold select_fiammetta_targets. fold preferred_targets.
  set (selected := List.filter (boostable self) preferred_targets).
  assert (NoDup selected) as Hnd.
  { apply NoDup_ListNoDup, List.NoDup_filter, NoDup_ListNoDup.
    unfold preferred_targets. repeat (apply NoDup_cons; split; [set_solver|]).
    apply NoDup_nil_2. }
  assert (Forall (fun n => boostable self n = true) selected) as Hb.
  { apply Forall_forall. intros n Hn%list_elem_of_In%filter_In. tauto. }
  assert (length selected <= 3)%nat as Hlen.
  { unfold selected, preferred_targets. simpl.
    repeat (destruct (boostable self _)); simpl; lia. }
  destruct (3 <=? length selected)%nat eqn:H3.
  { exists selected. by split_and!. }
  apply Nat.leb_gt in H3.
  set (body := fun (op_scores : list (string * Q)) (rule : OperatorEfficiency) =>
         for_each (fun op_scores op =>
           if boostable self op && negb (bool_decide (op ∈ selected)) then
             score ← py_div (rule_synergy_efficiency rule) (length (rule_operators rule));
             Ok (scores_add op score op_scores)
           else Ok op_scores) (rule_operators rule) op_scores).
  destruct (for_each_Ok (scores_ok self selected) body
              (List.filter (fun r => String.eqb (rule_workplace_type r) trading_station)
                 (efficiency_rules self)) []) as (op_scores & -> & Hnd' & Hf').
  { intros s rule _ Hs. unfold body. apply for_each_Ok; [|done].
    intros s' op Hop Hs'. destruct (boostable self op && _) eqn:Hc; [|by eexists].
    apply andb_true_iff in Hc as [Hbo Hsel%negb_true_iff%bool_decide_eq_false].
    destruct (rule_operators rule) as [|o l] eqn:Hl; [by apply elem_of_nil in Hop|].
    simpl. eexists. split; [done|]. by apply scores_add_ok. }
  { split; [apply NoDup_nil_2|constructor]. }
  simpl.
  set (sorted_ops := fst <$> sort_reverse (fun y x => Qltb x.2 y.2) op_scores).
  assert (sorted_ops ≡ₚ fst <$> op_scores) as Hperm.
  { unfold sorted_ops. by rewrite (sort_reverse_perm _ op_scores). }
  destruct (fill_targets_take selected sorted_ops H3) as (k & Hk & Hlen').
  eexists. split; [done|]. rewrite Hk in *. rewrite <- Hperm in Hnd', Hf'.
  assert (Forall (fun n => boostable self n = true /\ n ∉ selected) (take k sorted_ops))
    as Htake by (by apply Forall_take).
  split_and!.
  - lia.
  - apply NoDup_app. split_and!; [done| |].
    + intros x Hx Hx'. rewrite Forall_forall in Htake. by destruct (Htake x Hx').
    + rewrite <- (take_drop k sorted_ops) in Hnd'. by apply NoDup_app in Hnd' as [? _].
  - apply Forall_app. split; [done|].
    eapply Forall_impl; [exact Htake|]. by intros n [? _].
  - by apply prefix_app_r.
Qed.

(** X17: the target selection always returns, with at most three
    targets and none twice; every target is in the catalog, owned and at
    tier 2 or above; and the preferred candidates that qualify come
    first, in their fixed order. *)
Theorem select_fiammetta_targets_spec (self : WorkplaceOptimizer) :
  exists targets,
    select_fiammetta_targets self = Ok targets
    /\ (length targets <= 3)%nat
    /\ NoDup targets
    /\ Forall (fun n => exists op, operators self !! n = Some op
                                   /\ op_own op = true /\ (2 <= op_elite op)%Z) targets
    /\ List.filter (boostable self) ["巫恋"; "龙舌兰"; "但书"] `prefix_of` targets.
Proof.
  destruct (select_fiammetta_targets_Ok self) as (targets & H & Hlen & Hnd & Hb & Hp).
  exists targets. split_and!; try done.
  eapply Forall_impl; [exact Hb|]. intros n Hn. unfold boostable in Hn.
  destruct (operators self !! n) as [op|]; [|done].
  apply andb_true_iff in Hn as [? ?%Z.leb_le]. by exists op.
Qed.

(** ** The product requirements *)

Lemma count_occ_replicate (n : nat) (p x : string) :
  count_occ String.string_dec (replicate n p) x = if decide (x = p) then n else 0%nat.
Proof.
  induction n as [|n IH]; simpl; [by case_decide|].
  rewrite IH. destruct (String.string_dec p x) as [->|Hne].
  - by rewrite !decide_True.
  - by rewrite !decide_False.
Qed.

(** X18: the expanded product list holds each product of the
    requirements as many times as its count says, and not at all when
    the count is below 1 or the product is not required. *)
Theorem expand_products_count (requirements : list (string * Z)) (product : string) :
  NoDup (fst <$> requirements) ->
  count_occ String.string_dec (expand_products requirements) product
  = Z.to_nat (default 0%Z (assoc_get product requirements)).
Proof.
  unfold expand_products. induction requirements as [|[p n] d IH]; [done|].
  rewrite fmap_cons. intros [Hp Hd]%NoDup_cons. cbn [fmap list_fmap concat assoc_get].
  rewrite count_occ_app, count_occ_replicate, (IH Hd). cbn [fst snd].
  destruct (String.eqb_spec p product) as [->|Hne].
  - rewrite decide_True by done.
    assert (assoc_get product d = None) as ->; [|simpl; lia].
    destruct (assoc_get product d) as [v|] eqn:Hv; [|done].
    exfalso. apply Hp. clear -Hv. induction d as [|[k w] d IH]; [done|].
    simpl in Hv. destruct (String.eqb_spec k product) as [->|_]; [left|right; by apply IH].
  - rewrite decide_False by done. done.
Qed.

Lemma expand_products_count_witness :
  NoDup (fst <$> [("LMD", 2%Z); ("Orundum", (-1)%Z)])
  /\ count_occ String.string_dec (expand_products [("LMD", 2%Z); ("Orundum", (-1)%Z)])
       "Orundum"
     = Z.to_nat (default 0%Z (assoc_get "Orundum" [("LMD", 2%Z); ("Orundum", (-1)%Z)])).
Proof.
  assert (NoDup (fst <$> [("LMD", 2%Z); ("Orundum", (-1)%Z)])) as H.
  { cbn. apply NoDup_cons. split; [|apply NoDup_singleton].
    by intros ?%list_elem_of_singleton. }
  exact (conj H (expand_products_count _ "Orundum" H)).
Defined.

(** ** The plans of a cycle *)

(** The product requirements a call works with: its argument, or the
    configured ones, or the built-in default. *)
Definition effective_requirements (self : WorkplaceOptimizer)
    (product_requirements : option ProductRequirements) : ProductRequirements :=
  match product_requirements with
  | Some p => p
  | None => default default_product_requirements
              (cfg_product_requirements (config_data self))
  end.

(** The product tags of [n] stations: the expanded product list, then
    the empty tag. *)
Definition product_tags (products : list (string * Z)) (n : nat) : list string :=
  (fun i => default "" (expand_products products !! i)) <$> seq 0 n.

(** [imap] with the tag of station [i] given by [tag i]. *)
Definition tag_all (tag : nat -> string) (ws : list Workplace) : list Workplace :=
  imap (fun i w => mkWorkplace (wp_id w) (wp_name w) (wp_max_operators w)
                     (wp_base_efficiency w) (wp_products w) (tag i)) ws.

Lemma tag_all_cons (tag : nat -> string) (w : Workplace) (ws : list Workplace) :
  tag_all tag (w :: ws)
  = mkWorkplace (wp_id w) (wp_name w) (wp_max_operators w) (wp_base_efficiency w)
      (wp_products w) (tag 0%nat) :: tag_all (tag ∘ S) ws.
Proof. done. Qed.

Lemma tag_all_spec (tag : nat -> string) (ws : list Workplace) :
  Forall2 (fun w w' => wp_id w' = wp_id w /\ wp_name w' = wp_name w
                       /\ wp_max_operators w' = wp_max_operators w
                       /\ wp_base_efficiency w' = wp_base_efficiency w)
          ws (tag_all tag ws)
  /\ wp_current_product <$> tag_all tag ws = tag <$> seq 0 (length ws).
Proof.
  revert tag. induction ws as [|w ws IH]; intros tag; [by split; [constructor|]|].
  rewrite tag_all_cons. destruct (IH (tag ∘ S)) as [H1 H2]. split.
  - by constructor.
  - cbn [length seq]. rewrite !fmap_cons, H2. cbn [wp_current_product]. f_equal.
    by rewrite <- fmap_S_seq, <- list_fmap_compose.
Qed.

Lemma tag_all_twice (tag tag' : nat -> string) (ws : list Workplace) :
  tag_all tag' (tag_all tag ws) = tag_all tag' ws.
Proof.
  revert tag tag'. induction ws as [|w ws IH]; intros tag tag'; [done|].
  rewrite !tag_all_cons. cbn [wp_id wp_name wp_max_operators wp_base_efficiency
                               wp_products]. f_equal. apply IH.
Qed.

Lemma set_current_products_spec (products : list string) (ws : list Workplace) :
  Forall2 (fun w w' => wp_id w' = wp_id w /\ wp_name w' = wp_name w
                       /\ wp_max_operators w' = wp_max_operators w
                       /\ wp_base_efficiency w' = wp_base_efficiency w)
          ws (set_current_products products ws)
  /\ wp_current_product <$> set_current_products products ws
     = (fun i => default "" (products !! i)) <$> seq 0 (length ws).
Proof. apply (tag_all_spec (fun i => default "" (products !! i))). Qed.

Lemma set_current_products_twice (products products' : list string) (ws : list Workplace) :
  set_current_products products' (set_current_products products ws)
  = set_current_products products' ws.
Proof. apply (tag_all_twice (fun i => default "" (products !! i))). Qed.

(** [fiammetta_config.get('enable', False)] of the configuration. *)
Definition fiammetta_configured (self : WorkplaceOptimizer) : bool :=
  default false
    (fc_enable (default (mkFiammettaConfig (Some false))
                  (cfg_Fiammetta (config_data self)))).

(** What [prepare] stores in [self] and what it leaves alone. *)
Lemma prepare_Ok self product_requirements self' enable :
  prepare self product_requirements = Ok (self', enable) ->
  efficiency_data self' = efficiency_data self
  /\ config_data self' = config_data self
  /\ operators self' = operators self
  /\ efficiency_rules self' = efficiency_rules self
  /\ meeting_room (workplaces self') = meeting_room (workplaces self)
  /\ power_station (workplaces self') = power_station (workplaces self)
  /\ (exists trading manufacturing,
        assoc_get "trading_stations" (effective_requirements self product_requirements)
        = Some trading
        /\ assoc_get "manufacturing_stations"
             (effective_requirements self product_requirements) = Some manufacturing
        /\ trading_stations (workplaces self')
           = set_current_products (expand_products trading)
               (trading_stations (workplaces self))
        /\ manufacturing_stations (workplaces self')
           = set_current_products (expand_products manufacturing)
               (manufacturing_stations (workplaces self)))
  /\ Forall (fun n => boostable self n = true) (fiammetta_targets self')
  /\ (enable = true ->
      fiammetta_configured self = true
      /\ check_fiammetta_available self = true
      /\ select_fiammetta_targets self = Ok (fiammetta_targets self')
      /\ fiammetta_targets self' <> [])
  /\ (enable = false -> fiammetta_targets self' = []).
Proof.
  unfold prepare. fold (effective_requirements self product_requirements).
  fold (fiammetta_configured self). intros H. bind_inv H. bind_inv H. bind_inv H. injection H as <- <-. simpl.
  unfold getitem in E0, E1.
  destruct (assoc_get "trading_stations" _) as [tp|] eqn:Ht; [|done].
  destruct (assoc_get "manufacturing_stations" _) as [mp|] eqn:Hm; [|done].
  injection E0 as <-. injection E1 as <-.
  split_and!; try done.
  - by exists tp, mp.
  - destruct (if fiammetta_configured self then check_fiammetta_available self else false);
      [|injection E as <-; constructor].
    destruct (select_fiammetta_targets_Ok self) as (ts & Hts & _ & _ & Hb & _).
    rewrite Hts in E. by injection E as <-.
  - destruct r as [|t ts]; [done|]. intros Hen. rewrite Hen in E.
    destruct (check_fiammetta_available self); [done|]. done.
  - destruct r as [|t ts]; [done|]. intros Hen.
    rewrite Hen in E. done.
Qed.

(** A second preparation overwrites all that the first has stored. *)
Lemma prepare_again self product_requirements self' enable product_requirements' :
  prepare self product_requirements = Ok (self', enable) ->
  prepare self' product_requirements' = prepare self product_requirements'.
Proof.
  intros H.
  destruct (prepare_Ok _ _ _ _ H)
    as (Hd & Hc & Ho & Hr & Hm & Hp & (tp & mp & _ & _ & Ht & Hmf) & _).
  unfold prepare. rewrite Hc.
  assert (check_fiammetta_available self' = check_fiammetta_available self) as ->
    by (unfold check_fiammetta_available; by rewrite Ho).
  assert (select_fiammetta_targets self' = select_fiammetta_targets self) as ->.
  { unfold select_fiammetta_targets, boostable. by rewrite Ho, Hr. }
  rewrite Hd, Ho, Hr, Hm, Hp, Ht, Hmf.
  repeat (match goal with
          | |- (?m ≫= _) = (?m ≫= _) =>
              destruct m; cbn [mbind outcome_bind]; [|done|done]
          end).
  by rewrite !set_current_products_twice.
Qed.

(** *** The shape of a plan *)

(** The room that a plan holds for the workplace [w]: it is marked for
    automatic filling exactly when it lists no operator, it lists no more
    operators than [w] has slots, and every name it lists is that of an
    owned operator of the catalog. *)
Definition room_fits (self : WorkplaceOptimizer) (w : Workplace) (room : Room) : Prop :=
  room_autofill room = match room_operators room with [] => true | _ => false end
  /\ (Z.of_nat (length (room_operators room)) <= Z.max 0 (wp_max_operators w))%Z
  /\ Forall (fun n => exists k op, operators self !! k = Some op
                                   /\ op_name op = n /\ op_own op = true)
            (room_operators room).

Definition room_ok (self : WorkplaceOptimizer) (tag : Workplace -> option string)
    (w : Workplace) (room : Room) : Prop :=
  room_product room = tag w /\ room_fits self w room.

Lemma call_allocator_room self sc w res sc' tag :
  call_allocator self sc w = Ok (res, sc') -> room_ok self tag w (room_of res (tag w)).
Proof.
  unfold call_allocator. intros H. bind_inv H. destruct r as [[res0 usage'] shift'].
  injection H as <- <-. apply optimize_workplace_sound in E as (_ & Hf & _ & _ & _ & Hn).
  split; [done|]. unfold room_fits, room_of. simpl. split_and!.
  - by destruct (res_optimal_operators res0).
  - rewrite length_fmap. destruct (res_optimal_operators res0) as [|o l] eqn:Hl;
      [simpl; lia|].
    destruct Hn as (_ & _ & Hn); [done|]. lia.
  - apply Forall_fmap. eapply Forall_impl; [exact Hf|].
    intros op [[k Hk] Hown]%available_elem. simpl. by exists k, op.
Qed.

(** A loop whose body appends one item per element builds a list that
    matches the elements one for one. *)
Lemma for_each_Forall2 {A S B : Type} (body : S -> A -> outcome S) (proj : S -> list B)
    (R : A -> B -> Prop) (l : list A) (s s' : S) :
  (forall s x s', body s x = Ok s' -> exists b, proj s' = proj s ++ [b] /\ R x b) ->
  for_each body l s = Ok s' -> exists new, proj s' = proj s ++ new /\ Forall2 R l new.
Proof.
  intros Hb. revert s. induction l as [|x l IH]; simpl; intros s H.
  - injection H as <-. exists []. by rewrite app_nil_r.
  - bind_inv H. apply Hb in E as (b & Hp & HR). apply IH in H as (new & Hp' & HF).
    exists (b :: new). rewrite Hp', Hp, <- app_assoc. split; [done|]. by constructor.
Qed.

Lemma optimize_station_room self acc w acc' :
  optimize_station self acc w = Ok acc' ->
  exists room, acc'.1 = acc.1 ++ [room]
               /\ room_ok self (fun w => Some (wp_current_product w)) w room.
Proof.
  unfold optimize_station. intros H. bind_inv H. destruct r as [res sc1].
  bind_inv H. bind_inv H. injection H as <-. simpl. eexists. split; [done|].
  by eapply (call_allocator_room self _ w res sc1 (fun w => Some (wp_current_product w))).
Qed.

Lemma optimize_plain_room self acc w acc' :
  optimize_plain self acc w = Ok acc' ->
  exists room, acc'.1 = acc.1 ++ [room] /\ room_ok self (fun _ => None) w room.
Proof.
  unfold optimize_plain. intros H. bind_inv H. destruct r as [res sc1].
  injection H as <-. simpl. eexists. split; [done|].
  by eapply (call_allocator_room self _ w res sc1 (fun _ => None)).
Qed.

(** [self.fiammetta_targets[shift % len(self.fiammetta_targets)]], or
    [""] without targets. *)
Definition target_of (targets : list string) (shift : nat) : string :=
  match targets with
  | [] => ""
  | _ => default "" (targets !! (shift mod length targets)%nat)
  end.

Definition plan_ok (self : WorkplaceOptimizer) (enable : bool) (shift : nat) (p : Plan)
    : Prop :=
  plan_name p = "第" +:+ pretty (S shift) +:+ "班"
  /\ plan_description p = "自动优化第" +:+ pretty (S shift) +:+ "班"
  /\ plan_Fiammetta_enable p = enable
  /\ plan_Fiammetta_target p = target_of (fiammetta_targets self) shift
  /\ Forall2 (room_ok self (fun w => Some (wp_current_product w)))
       (trading_stations (workplaces self)) (plan_trading p)
  /\ Forall2 (room_ok self (fun w => Some (wp_current_product w)))
       (manufacturing_stations (workplaces self)) (plan_manufacture p)
  /\ (exists w, head (meeting_room (workplaces self)) = Some w
                /\ room_ok self (fun _ => None) w (plan_meeting p))
  /\ Forall2 (room_ok self (fun _ => None)) (power_station (workplaces self)) (plan_power p)
  /\ length (plan_dormitory p) = 4%nat.

Lemma run_shift_plan list_of_set self enable shift usage plan sc :
  run_shift list_of_set self enable shift usage = Ok (plan, sc) ->
  plan_ok self enable shift plan.
Proof.
  unfold run_shift. intros H. do 5 bind_inv H. injection H as <- <-.
  apply (for_each_Forall2 _ fst (room_ok self (fun w => Some (wp_current_product w))))
    in E as (tr & Htr & Ftr); [|intros ? ? ?; apply optimize_station_room].
  apply (for_each_Forall2 _ fst (room_ok self (fun w => Some (wp_current_product w))))
    in E0 as (mf & Hmf & Fmf); [|intros ? ? ?; apply optimize_station_room].
  apply (for_each_Forall2 _ fst (room_ok self (fun _ => None)))
    in E3 as (pw & Hpw & Fpw); [|intros ? ? ?; apply optimize_plain_room].
  simpl in Htr, Hmf, Hpw. destruct r2 as [res sc3].
  unfold plan_ok. simpl. rewrite Htr, Hmf, Hpw. split_and!; try done.
  - destruct (meeting_room (workplaces self)) as [|w ws]; [done|]. injection E1 as <-.
    exists w. split; [done|].
    by eapply (call_allocator_room self _ w res sc3 (fun _ => None)).
  - by destruct (sc_dormitory_operators r0.2).
Qed.

Lemma run_shifts_plans list_of_set self enable usage shifts usage' :
  run_shifts list_of_set self enable usage = Ok (shifts, usage') ->
  Forall2 (fun shift ps => plan_ok self enable shift ps.1) (range 3) shifts.
Proof.
  unfold run_shifts. intros H.
  apply (for_each_Forall2 _ fst (fun shift ps => plan_ok self enable shift ps.1))
    in H as (new & Hnew & HF); [by simpl in Hnew; subst|].
  intros acc shift acc' Hb. bind_inv Hb. injection Hb as <-. simpl.
  exists r. split; [done|]. destruct r as [plan sc]. by eapply run_shift_plan.
Qed.

(** The plans of a cycle, each checked against the optimizer as the
    preparation left it. *)
Lemma get_optimal_assignments_plans list_of_set self product_requirements plans :
  get_optimal_assignments list_of_set self product_requirements = Ok plans ->
  exists self' enable,
    prepare self product_requirements = Ok (self', enable)
    /\ Forall2 (plan_ok self' enable) (range 3) plans.
Proof.
  unfold get_optimal_assignments, run_cycle. intros H. bind_inv H. bind_inv E. bind_inv E.
  injection E as <-. injection H as <-. destruct r0 as [self' enable], r1 as [shifts usage'].
  exists self', enable. split; [done|]. simpl.
  apply run_shifts_plans in E1. clear -E1.
  induction E1; simpl; constructor; done.
Qed.

Lemma Forall2_Forall_r {A B : Type} (R : A -> B -> Prop) (P : B -> Prop)
    (l : list A) (k : list B) :
  Forall2 R l k -> (forall a b, R a b -> P b) -> Forall P k.
Proof. induction 1; intros HP; constructor; eauto. Qed.

(** X19: the plans carry one quota-boost flag.  When it is set, the
    mechanic is switched on in the configuration, Fiammetta is owned at
    tier 2 or above, and the targets of the three plans are the selected
    targets taken in rotation; when it is not set, no plan names a
    target. *)
Theorem quota_boost_targets_rotate (list_of_set : list string -> list string)
    (self : WorkplaceOptimizer) (product_requirements : option ProductRequirements) :
  on_Ok (get_optimal_assignments list_of_set self product_requirements) (fun plans =>
    exists (enable : bool) (targets : list string),
      plan_Fiammetta_enable <$> plans = [enable; enable; enable]
      /\ plan_Fiammetta_target <$> plans
         = [target_of targets 0; target_of targets 1; target_of targets 2]
      /\ if enable
         then fiammetta_configured self = true
              /\ check_fiammetta_available self = true
              /\ select_fiammetta_targets self = Ok targets
              /\ targets <> []
         else targets = []).
Proof.
  destruct (get_optimal_assignments _ _ _) as [plans| |] eqn:E; simpl; [|done|done].
  apply get_optimal_assignments_plans in E as (self' & enable & Hp & HF).
  destruct (prepare_Ok _ _ _ _ Hp) as (_ & _ & _ & _ & _ & _ & _ & _ & Hon & Hoff).
  exists enable, (fiammetta_targets self').
  unfold range in HF. simpl in HF.
  repeat (match goal with
          | H : Forall2 _ (_ :: _) _ |- _ =>
              apply Forall2_cons_inv_l in H as (? & ? & ? & H & ->)
          | H : Forall2 _ [] _ |- _ => apply Forall2_nil_inv_l in H as ->
          end).
  repeat (match goal with
          | H : plan_ok _ _ _ _ |- _ => destruct H as (_ & _ & ? & ? & _)
          end).
  simpl. split_and!; [congruence|congruence|].
  destruct enable; [by apply Hon|by apply Hoff].
Qed.

(** X20: a cycle returns three plans, named after the three shifts.
    Each plan has one room for each trading station, manufacturing
    station and power station, in the order of the stations, one meeting
    room and four dormitory entries; every room is marked for automatic
    filling exactly when it lists no operator, lists no more operators
    than its workplace has slots, and lists owned operators only. *)
Theorem plans_have_one_room_per_workplace (list_of_set : list string -> list string)
    (self : WorkplaceOptimizer) (product_requirements : option ProductRequirements) :
  on_Ok (get_optimal_assignments list_of_set self product_requirements) (fun plans =>
    plan_name <$> plans = ["第1班"; "第2班"; "第3班"]
    /\ Forall (fun p =>
         Forall2 (room_fits self) (trading_stations (workplaces self)) (plan_trading p)
         /\ Forall2 (room_fits self) (manufacturing_stations (workplaces self))
              (plan_manufacture p)
         /\ Forall2 (room_fits self) (power_station (workplaces self)) (plan_power p)
         /\ (exists w, head (meeting_room (workplaces self)) = Some w
                       /\ room_fits self w (plan_meeting p))
         /\ length (plan_dormitory p) = 4%nat) plans).
Proof.
  destruct (get_optimal_assignments _ _ _) as [plans| |] eqn:E; simpl; [|done|done].
  apply get_optimal_assignments_plans in E as (self' & enable & Hp & HF).
  destruct (prepare_Ok _ _ _ _ Hp)
    as (_ & _ & Ho & _ & Hm & Hpw & (tp & mp & _ & _ & Ht & Hmf) & _).
  assert (forall w w' room,
            wp_max_operators w' = wp_max_operators w ->
            room_fits self' w' room -> room_fits self w room) as Hfit.
  { intros w w' room Hw (Ha & Hc & Hn). unfold room_fits. rewrite <- Ho, <- Hw. done. }
  assert (forall tag products ws rooms,
            Forall2 (room_ok self' tag) (set_current_products products ws) rooms ->
            Forall2 (room_fits self) ws rooms) as Hstations.
  { intros tag products ws rooms HF2.
    destruct (set_current_products_spec products ws) as [Hws _].
    revert rooms HF2. induction Hws as [|w w' ws ws' Hw _ IH]; intros rooms HF2.
    - apply Forall2_nil_inv_l in HF2 as ->. constructor.
    - apply Forall2_cons_inv_l in HF2 as (room & rooms' & [_ Hr] & HF2 & ->).
      constructor; [|by apply IH]. eapply Hfit; [|done]. tauto. }
  split.
  - unfold range in HF. simpl in HF.
    repeat (match goal with
            | H : Forall2 _ (_ :: _) _ |- _ =>
                apply Forall2_cons_inv_l in H as (? & ? & ? & H & ->)
            | H : Forall2 _ [] _ |- _ => apply Forall2_nil_inv_l in H as ->
            end).
    repeat (match goal with
            | H : plan_ok _ _ _ _ |- _ => destruct H as (? & _)
            end).
    cbn [fmap list_fmap].
    repeat (match goal with H : plan_name _ = _ |- _ => rewrite H; clear H end).
    by vm_compute.
  - eapply Forall2_Forall_r; [exact HF|]. intros shift p Hplan.
    destruct Hplan as (_ & _ & _ & _ & Htr & Hmfr & (w & Hw & Hmt) & Hpwr & Hd).
    rewrite Ht in Htr. rewrite Hmf in Hmfr. rewrite Hm in Hw. rewrite Hpw in Hpwr.
    split_and!.
    + by eapply Hstations.
    + by eapply Hstations.
    + eapply Forall2_impl; [exact Hpwr|]. intros w0 room [_ Hr]. by eapply Hfit.
    + exists w. split; [done|]. destruct Hmt as [_ Hr]. by eapply Hfit.
    + done.
Qed.

(** X21: the rooms of the trading and manufacturing stations are tagged
    by position: station [i] carries the [i]-th product of the expanded
    product requirements, and the empty tag when the requirements list
    fewer products than there are stations; the meeting room and the
    power stations carry no tag.  A cycle returns only when the
    requirements have both station keys. *)
Theorem rooms_tagged_by_position (list_of_set : list string -> list string)
    (self : WorkplaceOptimizer) (product_requirements : option ProductRequirements) :
  on_Ok (get_optimal_assignments list_of_set self product_requirements) (fun plans =>
    exists trading manufacturing,
      assoc_get "trading_stations" (effective_requirements self product_requirements)
      = Some trading
      /\ assoc_get "manufacturing_stations"
           (effective_requirements self product_requirements) = Some manufacturing
      /\ Forall (fun p =>
           room_product <$> plan_trading p
           = Some <$> product_tags trading (length (trading_stations (workplaces self)))
           /\ room_product <$> plan_manufacture p
              = Some <$> product_tags manufacturing
                           (length (manufacturing_stations (workplaces self)))
           /\ room_product (plan_meeting p) = None
           /\ Forall (fun room => room_product room = None) (plan_power p)) plans).
Proof.
  destruct (get_optimal_assignments _ _ _) as [plans| |] eqn:E; simpl; [|done|done].
  apply get_optimal_assignments_plans in E as (self' & enable & Hp & HF).
  destruct (prepare_Ok _ _ _ _ Hp)
    as (_ & _ & _ & _ & _ & _ & (tp & mp & Htp & Hmp & Ht & Hmf) & _).
  exists tp, mp. split_and!; [done|done|].
  assert (forall products ws rooms,
            Forall2 (room_ok self' (fun w => Some (wp_current_product w)))
              (set_current_products (expand_products products) ws) rooms ->
            room_product <$> rooms = Some <$> product_tags products (length ws)) as Htags.
  { intros products ws rooms HF2. unfold product_tags.
    destruct (set_current_products_spec (expand_products products) ws) as [_ <-].
    induction HF2 as [|w room ws' rooms [Hr _] _ IH]; [done|].
    rewrite !fmap_cons, IH, Hr. done. }
  eapply Forall2_Forall_r; [exact HF|]. intros shift p Hplan.
  destruct Hplan as (_ & _ & _ & _ & Htr & Hmfr & (w & Hw & [Hmt _]) & Hpwr & _).
  rewrite Ht in Htr. rewrite Hmf in Hmfr. split_and!.
  - by apply Htags.
  - by apply Htags.
  - done.
  - eapply Forall2_Forall_r; [exact Hpwr|]. by intros w0 room [Hr _].
Qed.

(** X22: what a call stores in the optimizer (the selected targets and
    the product tags of the stations) does not leak into the next call:
    on the optimizer as a call has left it, every call returns what it
    returns on the optimizer before that call. *)
Theorem second_call_unaffected (list_of_set : list string -> list string)
    (self : WorkplaceOptimizer) (product_requirements : option ProductRequirements) :
  on_Ok (run_cycle list_of_set self product_requirements) (fun r =>
    forall product_requirements',
      get_optimal_assignments list_of_set r.1.1 product_requirements'
      = get_optimal_assignments list_of_set self product_requirements').
Proof.
  destruct (run_cycle _ _ _) as [[[self' shifts] usage]| |] eqn:E; simpl; [|done|done].
  intros pr'. unfold run_cycle in E. bind_inv E. bind_inv E.
  destruct r as [self1 enable]. simpl in E. injection E as <- _ _.
  unfold get_optimal_assignments, run_cycle.
  by rewrite (prepare_again _ _ _ _ pr' E0).
Qed.

(** ** The usage budget counts the placements *)

(** How often the locals of a shift list [x]: in the results of the
    allocator calls, among the control-center operators and among the
    dormitory operators. *)
Definition placed (sc : Sched) (x : string) : Z :=
  Z.of_nat (count_occ String.string_dec (concat (result_names <$> sc_results sc)) x)
  + Z.of_nat (count_occ String.string_dec (sc_control_operators sc) x)
  + Z.of_nat (count_occ String.string_dec (sc_dormitory_operators sc) x).

(** The support rooms of a shift: no operator is admitted twice, and no
    admitted operator works in a workplace of the shift. *)
Definition support_apart (sc : Sched) : Prop :=
  NoDup (sc_control_operators sc ++ sc_dormitory_operators sc)
  /\ forall x, x ∈ sc_control_operators sc ++ sc_dormitory_operators sc ->
               x ∉ concat (result_names <$> sc_results sc).

(** Since the shift began with the budget [usage0], every count has
    grown by the number of placements. *)
Definition support_inv (usage0 : gmap string Z) (sc : Sched) : Prop :=
  (forall x, usage_of (sc_operator_usage sc) x = (usage_of usage0 x + placed sc x)%Z)
  /\ support_apart sc.

Section support_facts.
Context (self : WorkplaceOptimizer) (prev : list AssignmentResult)
        (usage0 : gmap string Z).

Lemma support_in_set sc x :
  excl_inv sc -> x ∈ sc_control_operators sc ++ sc_dormitory_operators sc ->
  x ∈ sc_shift_used_names sc.
Proof.
  intros [Hset _] Hx. rewrite Hset. apply elem_of_app in Hx as [Hx|Hx].
  - apply elem_of_union_l, elem_of_union_r. by apply elem_of_list_to_set.
  - apply elem_of_union_r. by apply elem_of_list_to_set.
Qed.

Lemma call_allocator_support sc workplace res sc' :
  sched_inv self prev sc -> support_inv usage0 sc ->
  call_allocator self sc workplace = Ok (res, sc') -> support_inv usage0 sc'.
Proof.
  intros [Hex _] [Hcount [Hnd Hapart]] H. unfold call_allocator in H. bind_inv H.
  destruct r as [[res0 usage'] shift']. simpl in H. injection H as <- <-.
  apply optimize_workplace_spec in E as (_ & _ & Hf & Hc & _).
  split; [|split]; simpl.
  - intros x. rewrite Hc, Hcount. unfold placed. simpl.
    rewrite fmap_app, concat_app, count_occ_app. simpl. rewrite app_nil_r.
    unfold result_names. lia.
  - done.
  - intros x Hx. rewrite fmap_app, concat_app. simpl. rewrite app_nil_r.
    intros [Hin|Hin]%elem_of_app; [by apply (Hapart x)|].
    rewrite Forall_forall in Hf. destruct (Hf x Hin) as [Hnot _].
    apply Hnot. by apply support_in_set.
Qed.

Lemma set_add_new (x : string) (l : list string) : x ∉ l -> set_add x l = l ++ [x].
Proof. intros Hx. unfold set_add. by rewrite bool_decide_eq_false_2. Qed.

Lemma count_occ_snoc (l : list string) (x y : string) :
  Z.of_nat (count_occ String.string_dec (l ++ [x]) y)
  = (Z.of_nat (count_occ String.string_dec l y) + if decide (y = x) then 1 else 0)%Z.
Proof.
  rewrite count_occ_app. simpl.
  destruct (String.string_dec x y) as [->|Hne].
  - rewrite decide_True by done. lia.
  - rewrite decide_False by done. lia.
Qed.

Lemma admit_control_support sc req sc' :
  sched_inv self prev sc -> support_inv usage0 sc ->
  admit_control sc req = Ok sc' -> support_inv usage0 sc'.
Proof.
  intros [Hex _] [Hcount [Hnd Hapart]] H. unfold admit_control in H.
  if_inv H Hc; [|by injection H as <-].
  apply andb_true_iff in Hc as [Hnew%negb_true_iff%bool_decide_eq_false _].
  destruct (sc_operator_usage sc !! req_operator req) as [c|] eqn:Hu; [|done].
  injection H as <-.
  assert (req_operator req ∉ sc_control_operators sc ++ sc_dormitory_operators sc) as Hout
    by (intros Hin; by apply Hnew, support_in_set).
  assert (req_operator req ∉ concat (result_names <$> sc_results sc)) as Hres.
  { intros Hin. apply Hnew. destruct Hex as [-> _].
    by apply elem_of_union_l, elem_of_union_l, elem_of_list_to_set. }
  rewrite elem_of_app in Hout.
  rewrite set_add_new by tauto.
  split; [|split]; simpl.
  - intros x. rewrite usage_of_insert. unfold placed. simpl. rewrite count_occ_snoc.
    specialize (Hcount x). unfold placed in Hcount. case_decide as Hx.
    + subst x.
      assert (usage_of (sc_operator_usage sc) (req_operator req) = c) as Hc'
        by (unfold usage_of; by rewrite Hu).
      lia.
    + lia.
  - rewrite <- app_assoc. apply NoDup_app in Hnd as (H1 & H2 & H3).
    apply NoDup_app. split_and!; [done| |].
    + intros x Hx [->%list_elem_of_singleton|Hd]%elem_of_app; [tauto|by apply (H2 x)].
    + simpl. apply NoDup_cons. split; [tauto|done].
  - intros x Hx. rewrite <- app_assoc in Hx.
    apply elem_of_app in Hx as [Hx|[->%list_elem_of_singleton|Hx]%elem_of_app].
    + apply (Hapart x). apply elem_of_app. by left.
    + done.
    + apply (Hapart x). apply elem_of_app. by right.
Qed.

Lemma admit_dormitory_support sc req sc' :
  sched_inv self prev sc -> support_inv usage0 sc ->
  admit_dormitory sc req = Ok sc' -> support_inv usage0 sc'.
Proof.
  intros [Hex _] [Hcount [Hnd Hapart]] H. unfold admit_dormitory in H.
  if_inv H Hc; [|by injection H as <-].
  apply andb_true_iff in Hc as [Hnew%negb_true_iff%bool_decide_eq_false _].
  destruct (sc_operator_usage sc !! req_operator req) as [c|] eqn:Hu; [|done].
  injection H as <-.
  assert (req_operator req ∉ sc_control_operators sc ++ sc_dormitory_operators sc) as Hout
    by (intros Hin; by apply Hnew, support_in_set).
  assert (req_operator req ∉ concat (result_names <$> sc_results sc)) as Hres.
  { intros Hin. apply Hnew. destruct Hex as [-> _].
    by apply elem_of_union_l, elem_of_union_l, elem_of_list_to_set. }
  rewrite elem_of_app in Hout.
  rewrite set_add_new by tauto.
  split; [|split]; simpl.
  - intros x. rewrite usage_of_insert. unfold placed. simpl. rewrite count_occ_snoc.
    specialize (Hcount x). unfold placed in Hcount. case_decide as Hx.
    + subst x.
      assert (usage_of (sc_operator_usage sc) (req_operator req) = c) as Hc'
        by (unfold usage_of; by rewrite Hu).
      lia.
    + lia.
  - rewrite app_assoc. apply NoDup_app. split_and!; [done| |apply NoDup_singleton].
    intros x Hx ->%list_elem_of_singleton. by apply elem_of_app in Hx.
  - intros x Hx. rewrite app_assoc in Hx.
    apply elem_of_app in Hx as [Hx| ->%list_elem_of_singleton]; [by apply (Hapart x)|done].
Qed.

Definition both_inv (sc : Sched) : Prop := sched_inv self prev sc /\ support_inv usage0 sc.

Lemma call_allocator_both sc workplace res sc' :
  both_inv sc -> call_allocator self sc workplace = Ok (res, sc') -> both_inv sc'.
Proof.
  intros [Hs Hp] H. split.
  - by apply (call_allocator_inv self prev sc workplace res sc') in H as [? _].
  - by eapply call_allocator_support.
Qed.

Lemma optimize_station_both acc workplace acc' :
  both_inv acc.2 -> optimize_station self acc workplace = Ok acc' -> both_inv acc'.2.
Proof.
  unfold optimize_station. intros Hinv H. bind_inv H. destruct r as [res sc1].
  apply call_allocator_both in E; [|done].
  bind_inv H. bind_inv H. injection H as <-. simpl in *.
  assert (both_inv r) as Hr.
  { refine (for_each_inv both_inv _ _ _ _ _ E E0).
    intros s req s' _ [Hs Hp] Ha. split.
    - by apply (admit_control_inv self prev) in Ha as [? _].
    - by eapply admit_control_support. }
  refine (for_each_inv both_inv _ _ _ _ _ Hr E1).
  intros s req s' _ [Hs Hp] Ha. split.
  - by apply (admit_dormitory_inv self prev) in Ha as [? _].
  - by eapply admit_dormitory_support.
Qed.

Lemma optimize_plain_both acc workplace acc' :
  both_inv acc.2 -> optimize_plain self acc workplace = Ok acc' -> both_inv acc'.2.
Proof.
  unfold optimize_plain. intros Hinv H. bind_inv H. destruct r as [res sc1].
  injection H as <-. simpl. by eapply call_allocator_both.
Qed.

End support_facts.

Lemma run_shift_support list_of_set self prev enable shift usage plan sc :
  (rules_nodup self -> usage_inv (fiammetta_targets self) prev usage) ->
  run_shift list_of_set self enable shift usage = Ok (plan, sc) ->
  support_inv usage sc
  /\ plan_control plan = list_of_set (sc_control_operators sc)
  /\ plan_dormitory plan
     = match sc_dormitory_operators sc with
       | [] => replicate 4 None
       | _ => Some (list_of_set (sc_dormitory_operators sc)) :: replicate 3 None
       end.
Proof.
  unfold run_shift. intros Hu H. do 5 bind_inv H. injection H as <- <-.
  assert (both_inv self prev usage (shift_start usage)) as H0.
  { split; [by apply shift_start_inv|]. split; [|split]; simpl.
    - intros x. unfold placed. simpl. lia.
    - apply NoDup_nil_2.
    - intros x Hx. by apply elem_of_nil in Hx. }
  assert (both_inv self prev usage r.2) as H1.
  { refine (for_each_inv (fun a => both_inv self prev usage a.2) _ _
              ([], shift_start usage) _ _ H0 E).
    intros a w a' _. apply optimize_station_both. }
  assert (both_inv self prev usage r0.2) as H2.
  { refine (for_each_inv (fun a => both_inv self prev usage a.2) _ _ ([], r.2) _ _ H1 E0).
    intros a w a' _. apply optimize_station_both. }
  destruct r2 as [res sc3].
  assert (both_inv self prev usage sc3) as H3 by (by eapply call_allocator_both).
  assert (both_inv self prev usage r3.2) as [_ H4].
  { refine (for_each_inv (fun a => both_inv self prev usage a.2) _ _ ([], sc3) _ _ H3 E3).
    intros a w a' _. apply optimize_plain_both. }
  split; [done|]. simpl.
  assert (sc_control_operators r3.2 = sc_control_operators r0.2
          /\ sc_dormitory_operators r3.2 = sc_dormitory_operators r0.2) as [-> ->];
    [|done].
  assert (sc_control_operators sc3 = sc_control_operators r0.2
          /\ sc_dormitory_operators sc3 = sc_dormitory_operators r0.2) as [<- <-].
  { unfold call_allocator in E2. bind_inv E2. by injection E2 as _ <-. }
  refine (for_each_inv (fun a => sc_control_operators a.2 = sc_control_operators sc3
                               /\ sc_dormitory_operators a.2 = sc_dormitory_operators sc3)
            _ _ _ _ _ _ E3); [|done].
  intros a w a' _ [Ha1 Ha2] Hb. unfold optimize_plain, call_allocator in Hb.
  bind_inv Hb. bind_inv E4. injection E4 as <-. injection Hb as <-. done.
Qed.

(** The placements of the shifts of a cycle. *)
Definition total_placed (shifts : list (Plan * Sched)) (x : string) : Z :=
  foldr (fun ps z => (placed ps.2 x + z)%Z) 0%Z shifts.

Lemma total_placed_snoc shifts ps x :
  total_placed (shifts ++ [ps]) x = (total_placed shifts x + placed ps.2 x)%Z.
Proof.
  unfold total_placed. induction shifts as [|p l IH]; simpl; [lia|].
  rewrite IH. lia.
Qed.

(** The support rooms of a plan against the locals of its shift. *)
Definition support_ok (list_of_set : list string -> list string) (ps : Plan * Sched)
    : Prop :=
  support_apart ps.2
  /\ plan_control ps.1 = list_of_set (sc_control_operators ps.2)
  /\ plan_dormitory ps.1
     = match sc_dormitory_operators ps.2 with
       | [] => replicate 4 None
       | _ => Some (list_of_set (sc_dormitory_operators ps.2)) :: replicate 3 None
       end.

Lemma run_shifts_support list_of_set self enable usage shifts usage' :
  (rules_nodup self -> usage_inv (fiammetta_targets self) [] usage) ->
  run_shifts list_of_set self enable usage = Ok (shifts, usage') ->
  (forall x, usage_of usage' x = (usage_of usage x + total_placed shifts x)%Z)
  /\ Forall (support_ok list_of_set) shifts.
Proof.
  unfold run_shifts. intros Hu H.
  assert (cycle_inv self (shifts, usage')
          /\ (forall x, usage_of (shifts, usage').2 x
                        = (usage_of usage x + total_placed (shifts, usage').1 x)%Z)
          /\ Forall (support_ok list_of_set) (shifts, usage').1) as (_ & Hc & Hs);
    [|done].
  refine (for_each_inv
            (fun acc =>
               cycle_inv self acc
               /\ (forall x, usage_of acc.2 x = (usage_of usage x + total_placed acc.1 x)%Z)
               /\ Forall (support_ok list_of_set) acc.1)
            _ _ ([], usage) (shifts, usage') _ _ H).
  - intros acc shift acc' _ ([Hinv Hall] & Hcount & Hsup) Hb.
    bind_inv Hb. injection Hb as <-. destruct r as [plan sc].
    pose proof E as E'.
    apply (run_shift_inv _ _ (all_results acc.1)) in E as [[Hex Huse] Hrooms]; [|done].
    apply (run_shift_support _ _ (all_results acc.1)) in E' as ([Hc Ha] & Hpc & Hpd);
      [|done].
    simpl. split_and!.
    + split; simpl.
      * unfold all_results. rewrite fmap_app, concat_app. simpl. by rewrite app_nil_r.
      * apply Forall_app. split; [done|]. constructor; [by split|constructor].
    + intros x. rewrite total_placed_snoc, Hc, Hcount. simpl. lia.
    + apply Forall_app. split; [done|]. constructor; [done|constructor].
  - split_and!; [by split| |constructor]. intros x. simpl. lia.
Qed.

(** X23: at the end of a cycle, the usage count of every operator is the
    number of its placements: once for each time a result of an
    allocator call lists it, once for each shift that admits it to the
    control center and once for each shift that admits it to a
    dormitory. *)
Theorem usage_counts_placements (list_of_set : list string -> list string)
    (self : WorkplaceOptimizer) (product_requirements : option ProductRequirements) :
  on_Ok (run_cycle list_of_set self product_requirements) (fun r =>
    forall x, usage_of r.2 x = total_placed r.1.2 x).
Proof.
  destruct (run_cycle _ _ _) as [[[self' shifts] usage]| |] eqn:E; simpl; [|done|done].
  unfold run_cycle in E. bind_inv E. bind_inv E. destruct r0 as [shifts0 usage0].
  injection E as <- <- <-.
  apply run_shifts_support in E1 as [Hcount _].
  - intros x. rewrite Hcount, initial_usage_zero. lia.
  - intros _ x. rewrite initial_usage_zero. split; lia.
Qed.

(** X24: in every shift, no operator is admitted twice to the support
    rooms (control center and dormitory together), and an operator
    admitted to a support room is listed by no workplace room of that
    shift; the plan lists exactly the admitted operators, the dormitory
    ones in its first dormitory entry. *)
Theorem support_rooms_apart (list_of_set : list string -> list string)
    (self : WorkplaceOptimizer) (product_requirements : option ProductRequirements) :
  on_Ok (run_cycle list_of_set self product_requirements) (fun r =>
    Forall (fun ps =>
      NoDup (sc_control_operators ps.2 ++ sc_dormitory_operators ps.2)
      /\ Forall (fun x => Forall (fun room => x ∉ room_operators room) (plan_rooms ps.1))
           (sc_control_operators ps.2 ++ sc_dormitory_operators ps.2)
      /\ plan_control ps.1 = list_of_set (sc_control_operators ps.2)
      /\ plan_dormitory ps.1
         = match sc_dormitory_operators ps.2 with
           | [] => replicate 4 None
           | _ => Some (list_of_set (sc_dormitory_operators ps.2)) :: replicate 3 None
           end) r.1.2).
Proof.
  destruct (run_cycle _ _ _) as [[[self' shifts] usage]| |] eqn:E; simpl; [|done|done].
  pose proof (run_cycle_inv _ _ _ _ _ _ E) as [_ [_ Hok]]. simpl in Hok.
  unfold run_cycle in E. bind_inv E. bind_inv E. destruct r0 as [shifts0 usage0].
  injection E as <- <- <-.
  apply run_shifts_support in E1 as [_ Hsup];
    [|intros _ x; rewrite initial_usage_zero; split; lia].
  simpl. rewrite Forall_forall in Hok, Hsup. apply Forall_forall. intros ps Hps.
  destruct (Hsup ps Hps) as ([Hnd Hapart] & Hc & Hd).
  destruct (Hok ps Hps) as [_ Hrooms].
  split_and!; try done.
  apply Forall_forall. intros x Hx. apply Forall_forall. intros room Hroom Hin.
  apply (Hapart x Hx). rewrite <- Hrooms.
  apply list_elem_of_In, in_concat. exists (room_operators room).
  split; apply list_elem_of_In; [|done]. apply list_elem_of_fmap. by exists room.
Qed.

(** ** A cycle returns on well-formed inputs *)

(** Every dormitory requirement of a compiled rule names an owned
    operator of the catalog. *)
Definition dormitory_owned (self : WorkplaceOptimizer) : Prop :=
  forall r req, r ∈ efficiency_rules self -> req ∈ rule_requires_dormitory r ->
    exists op, operators self !! req_operator req = Some op /\ op_own op = true.

Section cycle_facts.
Context (list_of_set : list string -> list string) (self : WorkplaceOptimizer).
Hypothesis rules_ok : rules_nonempty self.
Hypothesis systems_ok : is_Some (ed_combination_rules (efficiency_data self)).
Hypothesis keyed : keyed_by_name self.
Hypothesis dormitory_ok : dormitory_owned self.

(** Every owned operator has an entry in the usage budget [usage]. *)
Definition budget_keys (usage : gmap string Z) : Prop :=
  forall n, is_Some (op_by_name self !! n) -> is_Some (usage !! n).

Lemma admit_control_Ok sc req :
  budget_keys (sc_operator_usage sc) -> is_Some (op_by_name self !! req_operator req) ->
  exists sc', admit_control sc req = Ok sc' /\ budget_keys (sc_operator_usage sc').
Proof.
  intros Hk Hop. unfold admit_control. destruct (_ && _); [|by exists sc].
  destruct (Hk _ Hop) as [cnt ->]. eexists. split; [done|]. simpl.
  intros n Hn. rewrite lookup_insert_is_Some.
  destruct (decide (req_operator req = n)); [by left|right]. split; [done|by apply Hk].
Qed.

Lemma admit_dormitory_Ok sc req :
  budget_keys (sc_operator_usage sc) -> is_Some (op_by_name self !! req_operator req) ->
  exists sc', admit_dormitory sc req = Ok sc' /\ budget_keys (sc_operator_usage sc').
Proof.
  intros Hk Hop. unfold admit_dormitory. destruct (_ && _); [|by exists sc].
  destruct (Hk _ Hop) as [cnt ->]. eexists. split; [done|]. simpl.
  intros n Hn. rewrite lookup_insert_is_Some.
  destruct (decide (req_operator req = n)); [by left|right]. split; [done|by apply Hk].
Qed.

Lemma call_allocator_Ok sc workplace :
  budget_keys (sc_operator_usage sc) ->
  exists res sc',
    call_allocator self sc workplace = Ok (res, sc')
    /\ budget_keys (sc_operator_usage sc')
    /\ Forall (fun req => is_Some (op_by_name self !! req_operator req))
         (res_control_center_requirements res)
    /\ Forall (fun req => is_Some (op_by_name self !! req_operator req))
         (res_dormitory_requirements res).
Proof.
  intros Hk. unfold call_allocator.
  destruct (optimize_workplace_Ok self workplace rules_ok systems_ok
              (sc_operator_usage sc) (sc_shift_used_names sc) Hk)
    as (res & usage' & shift' & H & Hk').
  rewrite H. simpl. eexists _, _. split; [done|]. split; [done|].
  apply optimize_workplace_sound in H as (_ & _ & Hcc & Hd & _). split.
  - apply check_control_center_Forall in Hcc. eapply Forall_impl; [exact Hcc|].
    intros req (op & Hop & Hown & _). exists op. by apply op_by_name_lookup.
  - eapply Forall_impl; [exact Hd|]. intros req (r & Hr & Hreq).
    destruct (dormitory_ok r req Hr Hreq) as (op & Hop & Hown).
    exists op. by apply op_by_name_lookup.
Qed.

Lemma admit_all_Ok (admit_one : Sched -> Requirement -> outcome Sched) reqs sc :
  (forall sc req, budget_keys (sc_operator_usage sc) ->
     is_Some (op_by_name self !! req_operator req) ->
     exists sc', admit_one sc req = Ok sc' /\ budget_keys (sc_operator_usage sc')) ->
  Forall (fun req => is_Some (op_by_name self !! req_operator req)) reqs ->
  budget_keys (sc_operator_usage sc) ->
  exists sc', for_each admit_one reqs sc = Ok sc' /\ budget_keys (sc_operator_usage sc').
Proof.
  intros Hadmit Hreqs Hk.
  apply (for_each_Ok (fun sc => budget_keys (sc_operator_usage sc))); [|done].
  intros s req Hreq Hs. apply Hadmit; [done|].
  rewrite Forall_forall in Hreqs. by apply Hreqs.
Qed.

Lemma optimize_station_Ok acc workplace :
  budget_keys (sc_operator_usage acc.2) ->
  exists acc', optimize_station self acc workplace = Ok acc'
               /\ budget_keys (sc_operator_usage acc'.2).
Proof.
  intros Hk. unfold optimize_station.
  destruct (call_allocator_Ok acc.2 workplace Hk) as (res & sc1 & -> & Hk1 & Hcc & Hd).
  simpl.
  destruct (admit_all_Ok admit_control (res_control_center_requirements res) sc1
              admit_control_Ok Hcc Hk1) as (sc2 & Hsc2 & Hk2).
  destruct (admit_all_Ok admit_dormitory (res_dormitory_requirements res) sc2
              admit_dormitory_Ok Hd Hk2) as (sc3 & Hsc3 & Hk3).
  exists (acc.1 ++ [room_of res (Some (wp_current_product workplace))], sc3).
  split; [|done].
  apply bind_Ok. exists sc2. split; [exact Hsc2|].
  apply bind_Ok. exists sc3. split; [exact Hsc3|done].
Qed.

Lemma optimize_plain_Ok acc workplace :
  budget_keys (sc_operator_usage acc.2) ->
  exists acc', optimize_plain self acc workplace = Ok acc'
               /\ budget_keys (sc_operator_usage acc'.2).
Proof.
  intros Hk. unfold optimize_plain.
  destruct (call_allocator_Ok acc.2 workplace Hk) as (res & sc1 & -> & Hk1 & _).
  simpl. by eexists.
Qed.

Lemma run_shift_Ok enable shift usage :
  meeting_room (workplaces self) <> [] -> budget_keys usage ->
  exists r, run_shift list_of_set self enable shift usage = Ok r
            /\ budget_keys (sc_operator_usage r.2).
Proof.
  intros Hm Hk. unfold run_shift.
  destruct (for_each_Ok (fun acc => budget_keys (sc_operator_usage acc.2))
              (optimize_station self) (trading_stations (workplaces self))
              ([], shift_start usage)) as (tr & -> & Hk1);
    [intros; by apply optimize_station_Ok|done|]. simpl.
  destruct (for_each_Ok (fun acc => budget_keys (sc_operator_usage acc.2))
              (optimize_station self) (manufacturing_stations (workplaces self))
              ([], tr.2)) as (mf & -> & Hk2);
    [intros; by apply optimize_station_Ok|done|]. simpl.
  destruct (meeting_room (workplaces self)) as [|w ws]; [done|]. simpl.
  destruct (call_allocator_Ok mf.2 w Hk2) as (res & sc3 & -> & Hk3 & _). simpl.
  destruct (for_each_Ok (fun acc => budget_keys (sc_operator_usage acc.2))
              (optimize_plain self) (power_station (workplaces self))
              ([], sc3)) as (pw & -> & Hk4);
    [intros; by apply optimize_plain_Ok|done|]. simpl.
  by eexists.
Qed.

Lemma run_shifts_Ok enable usage :
  meeting_room (workplaces self) <> [] -> budget_keys usage ->
  exists r, run_shifts list_of_set self enable usage = Ok r.
Proof.
  intros Hm Hk. unfold run_shifts.
  destruct (for_each_Ok (fun acc : list (Plan * Sched) * gmap string Z => budget_keys acc.2)
              (fun acc shift =>
                 r ← run_shift list_of_set self enable shift acc.2;
                 Ok (acc.1 ++ [r], sc_operator_usage r.2))
              (range 3) ([], usage)) as (r & Hr & _); [|done|by exists r].
  intros acc shift _ Hacc.
  destruct (run_shift_Ok enable shift acc.2 Hm Hacc) as (r & -> & Hk'). simpl.
  by eexists.
Qed.

End cycle_facts.

Lemma prepare_returns self product_requirements :
  is_Some (assoc_get "trading_stations" (effective_requirements self product_requirements)) ->
  is_Some (assoc_get "manufacturing_stations"
             (effective_requirements self product_requirements)) ->
  exists p, prepare self product_requirements = Ok p.
Proof.
  intros [tp Htp] [mp Hmp]. unfold prepare.
  fold (effective_requirements self product_requirements).
  assert (exists targets,
            (if (if default false
                      (fc_enable (default (mkFiammettaConfig (Some false))
                                    (cfg_Fiammetta (config_data self))))
                 then check_fiammetta_available self else false)
             then select_fiammetta_targets self else Ok []) = Ok targets) as [targets ->].
  { destruct (if default false _ then _ else _); [|by eexists].
    destruct (select_fiammetta_targets_Ok self) as (ts & -> & _). by eexists. }
  simpl. unfold getitem. rewrite Htp, Hmp. simpl. by eexists.
Qed.

(** X25: a cycle returns its plans (it raises nothing and does not run
    out of passes) when every compiled rule has a non-empty core group,
    the data file has its rule table, the catalog is keyed by operator
    name, there is a meeting room, every dormitory requirement of a rule
    names an owned operator, and the product requirements have both
    station keys. *)
Theorem cycle_returns (list_of_set : list string -> list string)
    (self : WorkplaceOptimizer) (product_requirements : option ProductRequirements) :
  rules_nonempty self ->
  is_Some (ed_combination_rules (efficiency_data self)) ->
  keyed_by_name self ->
  meeting_room (workplaces self) <> [] ->
  dormitory_owned self ->
  is_Some (assoc_get "trading_stations" (effective_requirements self product_requirements)) ->
  is_Some (assoc_get "manufacturing_stations"
             (effective_requirements self product_requirements)) ->
  exists plans, get_optimal_assignments list_of_set self product_requirements = Ok plans.
Proof.
  intros Hne Hsys Hkey Hmeet Hdorm Htp Hmp.
  destruct (prepare_returns self product_requirements Htp Hmp) as [[self' enable] Hp].
  destruct (prepare_Ok _ _ _ _ Hp) as (Hd & _ & Ho & Hr & Hm & _).
  unfold get_optimal_assignments, run_cycle. rewrite Hp. simpl.
  destruct (run_shifts_Ok list_of_set self') with (enable := enable)
                                                   (usage := initial_usage self')
    as [r ->].
  - intros r Hr'. apply Hne. by rewrite <- Hr.
  - by rewrite Hd.
  - intros k op. rewrite Ho. apply Hkey.
  - intros r req. rewrite Hr, Ho. apply Hdorm.
  - by rewrite Hm.
  - intros n. apply initial_usage_keys.
  - simpl. by eexists.
Qed.

Lemma cycle_returns_witness :
  rules_nonempty control_self
  /\ is_Some (ed_combination_rules (efficiency_data control_self))
  /\ keyed_by_name control_self
  /\ meeting_room (workplaces control_self) <> []
  /\ dormitory_owned control_self
  /\ is_Some (assoc_get "trading_stations" (effective_requirements control_self None))
  /\ is_Some (assoc_get "manufacturing_stations"
                (effective_requirements control_self None))
  /\ exists plans, get_optimal_assignments (fun l => l) control_self None = Ok plans.
Proof.
  assert (rules_nonempty control_self) as H1.
  { intros r Hr. cbn in Hr.
    repeat (apply elem_of_cons in Hr as [->|Hr]; [done|]). by apply elem_of_nil in Hr. }
  assert (is_Some (ed_combination_rules (efficiency_data control_self))) as H2
    by (by eexists).
  assert (keyed_by_name control_self) as H3
    by (intros k op; apply load_operators_keyed).
  assert (meeting_room (workplaces control_self) <> []) as H4 by done.
  assert (dormitory_owned control_self) as H5.
  { intros r req Hr Hreq. cbn in Hr.
    repeat (apply elem_of_cons in Hr as [->|Hr]; [by apply elem_of_nil in Hreq|]).
    by apply elem_of_nil in Hr. }
  assert (is_Some (assoc_get "trading_stations" (effective_requirements control_self None)))
    as H6 by (by eexists).
  assert (is_Some (assoc_get "manufacturing_stations"
                     (effective_requirements control_self None))) as H7 by (by eexists).
  exact (conj H1 (conj H2 (conj H3 (conj H4 (conj H5 (conj H6 (conj H7
           (cycle_returns (fun l => l) control_self None H1 H2 H3 H4 H5 H6 H7)))))))).
Defined.

(** ** The scorer of a given crew *)





Lemma add_zeros_length (q : Q) (l l' : list Operator) :
  length l = length l' ->
  foldl (fun total _ => (total + 0)%Q) q l = foldl (fun total _ => (total + 0)%Q) q l'.
Proof.
  revert q l'. induction l as [|x l IH]; intros q [|y l'] Hlen; try done.
  simpl. apply IH. simpl in Hlen. lia.
Qed.


Lemma dict_by_name_perm (l l' : list Operator) :
  NoDup (op_name <$> l) -> l ≡ₚ l' -> dict_by_name l = dict_by_name l'.
Proof.
  intros Hnd Hp. apply map_eq. intros n.
  assert (NoDup (op_name <$> l')) as Hnd' by (by rewrite <- Hp).
  destruct (dict_by_name l !! n) as [op|] eqn:H1.
  - pose proof (dict_by_name_key _ _ _ H1) as <-.
    symmetry. apply dict_by_name_NoDup; [done|].
    rewrite <- Hp. by eapply dict_by_name_elem.
  - destruct (dict_by_name l' !! n) as [op|] eqn:H2; [|done].
    pose proof (dict_by_name_key _ _ _ H2) as <-.
    rewrite dict_by_name_NoDup in H1; [done|done|].
    rewrite Hp. by eapply dict_by_name_elem.
Qed.

(** X27: for a crew with pairwise distinct names, the score does not
    depend on the order in which the crew is listed. *)
Theorem calculate_combination_efficiency_order (self : WorkplaceOptimizer)
    (operators operators' : list Operator) (workplace_type : string) :
  NoDup (op_name <$> operators) -> operators ≡ₚ operators' ->
  calculate_combination_efficiency self operators workplace_type
  = calculate_combination_efficiency self operators' workplace_type.
Proof.
  intros Hnd Hp. unfold calculate_combination_efficiency.
  assert (forall acc rule,
            score_rule self operators workplace_type acc rule
            = score_rule self operators' workplace_type acc rule) as Hrule.
  { intros acc rule. unfold score_rule, check_elite_requirements.
    rewrite (dict_by_name_perm _ _ Hnd Hp).
    assert (forallb (fun n => bool_decide (n ∈ op_name <$> operators)) (rule_operators rule)
            = forallb (fun n => bool_decide (n ∈ op_name <$> operators'))
                (rule_operators rule)) as ->; [|done].
    induction (rule_operators rule) as [|n ns IH]; [done|]. cbn [forallb].
    rewrite IH. f_equal. apply bool_decide_ext. by rewrite Hp. }
  assert (foldl (score_rule self operators workplace_type) (0%Q, [], [])
            (efficiency_rules self)
          = foldl (score_rule self operators' workplace_type) (0%Q, [], [])
              (efficiency_rules self)) as ->.
  { generalize (0%Q, [] : list string, [] : list ControlCenterRequirement).
    induction (efficiency_rules self) as [|rule rules IH]; intros acc; simpl; [done|].
    by rewrite Hrule, IH. }
  cbn zeta. f_equal. f_equal.
  destruct (Qeq_bool _ _); [|done].
  apply add_zeros_length. by rewrite Hp.
Qed.

Lemma calculate_combination_efficiency_order_witness :
  NoDup (op_name <$> [operator "A" 0 true; operator "B" 0 true])
  /\ [operator "A" 0 true; operator "B" 0 true]
     ≡ₚ [operator "B" 0 true; operator "A" 0 true]
  /\ calculate_combination_efficiency mixed_self [operator "A" 0 true; operator "B" 0 true]
       "trading_station"
     = calculate_combination_efficiency mixed_self
         [operator "B" 0 true; operator "A" 0 true] "trading_station".
Proof.
  assert (NoDup (op_name <$> [operator "A" 0 true; operator "B" 0 true])) as H1.
  { cbn. apply NoDup_cons. split; [|apply NoDup_singleton].
    by intros ?%list_elem_of_singleton. }
  assert ([operator "A" 0 true; operator "B" 0 true]
          ≡ₚ [operator "B" 0 true; operator "A" 0 true]) as H2 by apply Permutation_swap.
  exact (conj H1 (conj H2 (calculate_combination_efficiency_order mixed_self _ _
                             "trading_station" H1 H2))).
Defined.
